(** * WikiData storage backends and benchmark harness

    A shallow embedding of [src/storage.py] (the relational backend
    [WikidataSQLiteStorage] and the document backend
    [WikidataTinyDBStorage]) and of [run_performance_comparison] from
    [src/main.py], together with the properties of the specification
    that concern them.

    Python dictionaries with a fixed set of keys are records whose
    fields are options ([None] when the key is absent); SQL tables are
    lists of rows in rowid order; exceptions are the left summand of the
    result of a state-and-error monad. *)

From Stdlib Require Import String Ascii List Bool ZArith Arith Lia.
From Stdlib Require Import Permutation QArith.
Import ListNotations.

Local Open Scope list_scope.
Local Open Scope string_scope.

(* ===================================================================== *)
(** * Text: ASCII case folding, substrings, and SQLite's LIKE            *)
(* ===================================================================== *)

Module Text.

(** ASCII-only lower-casing, as in SQLite's [sqlite3Tolower]. *)
Definition lower (c : ascii) : ascii :=
  let n := nat_of_ascii c in
  if (65 <=? n)%nat && (n <=? 90)%nat then ascii_of_nat (n + 32) else c.



(** Strings are UTF-8 text. Bytes 0x80..0xBF continue a character, a
    byte from 0xC0 on begins a character of several bytes. *)
Definition is_continuation (c : ascii) : bool :=
  let n := nat_of_ascii c in (128 <=? n)%nat && (n <=? 191)%nat.

Fixpoint skip_continuation (s : string) : string :=
  match s with
  | EmptyString => EmptyString
  | String c s' => if is_continuation c then skip_continuation s' else s
  end.

(** What is left of a text after its first character, whose first byte
    is [d]. *)
Definition after_character (d : ascii) (s' : string) : string :=
  if (192 <=? nat_of_ascii d)%nat then skip_continuation s' else s'.



(** The text up to its first NUL character: SQLite's LIKE works on C
    strings and sees no more of a value or of a pattern. *)
Fixpoint c_string (s : string) : string :=
  match s with
  | EmptyString => EmptyString
  | String c s' =>
      if Ascii.eqb c Ascii.zero then EmptyString else String c (c_string s')
  end.

(** [f] holds of [t] or of what is left of [t] after some of its first
    characters. [inside] tells that [t] begins in the middle of a
    character. *)
Fixpoint any_suffix (f : string -> bool) (inside : bool) (t : string) : bool :=
  match t with
  | EmptyString => f EmptyString
  | String d t' =>
      if inside && is_continuation d then any_suffix f true t'
      else f t || any_suffix f (192 <=? nat_of_ascii d)%nat t'
  end.

(** SQLite's pattern matching for LIKE with the default settings, on
    well-formed UTF-8 text: [%] matches any run of characters, [_]
    matches exactly one character, any other character matches itself,
    an ASCII letter also in the other case. There is no escape
    character. *)
Fixpoint like_from (p s : string) {struct p} : bool :=
  match p with
  | EmptyString =>
      match s with EmptyString => true | String _ _ => false end
  | String c p' =>
      if Ascii.eqb c "%" then any_suffix (like_from p') false s
      else if Ascii.eqb c "_" then
        match s with
        | EmptyString => false
        | String d s' => like_from p' (after_character d s')
        end
      else
        match s with
        | EmptyString => false
        | String d s' => Ascii.eqb (lower c) (lower d) && like_from p' s'
        end
  end.

(** [like p s] is SQLite's [s LIKE p]. *)
Definition like (p s : string) : bool :=
  like_from (c_string p) (c_string s).





End Text.

(* ===================================================================== *)
(** * The exchange format: entity records as the backends receive them   *)
(* ===================================================================== *)

(** An entity record is a Python [dict] read from JSON. Every key the
    code looks up may be absent, so every field is an option. *)

Record Alias := {
  a_value : option string;
  a_language : option string
}.

Record Property := {
  property_id : option string;
  p_label : option string
}.

Record Statement := {
  s_property : option Property;
  s_value : option string;
  s_entity_id : option string
}.

Record EntityData := {
  entity_id : option string;
  label : option string;
  description : option string;
  type : option string;
  aliases : option (list Alias);
  statements : option (list Statement)
}.

(** [store_entities] takes a list of records or a dict of records. *)
Inductive Batch :=
| BatchList (l : list EntityData)
| BatchDict (d : list (string * EntityData)).

(** [list(entities_data.values())] when the input is a dict. *)
Definition batch_records (b : Batch) : list EntityData :=
  match b with
  | BatchList l => l
  | BatchDict d => map snd d
  end.

(** [d.get(key, default)]. *)
Definition get_or {A} (default : A) (o : option A) : A :=
  match o with Some v => v | None => default end.

(** Truth value of a Python string: the empty string is false. *)
Definition truthy (s : string) : bool :=
  match s with EmptyString => false | String _ _ => true end.

(** [key in d and d[key]] for a list-valued key: the list when it is
    present and non-empty. *)
Definition present_nonempty {A} (o : option (list A)) : option (list A) :=
  match o with
  | Some (x :: l) => Some (x :: l)
  | _ => None
  end.

(** The record follows the exchange format in full: no key is missing. *)
Definition alias_complete (a : Alias) : bool :=
  match a_value a, a_language a with Some _, Some _ => true | _, _ => false end.

Definition property_complete (p : Property) : bool :=
  match property_id p, p_label p with Some _, Some _ => true | _, _ => false end.

Definition statement_complete (s : Statement) : bool :=
  match s_property s, s_value s with
  | Some p, Some _ => property_complete p
  | _, _ => false
  end.

Definition complete (r : EntityData) : bool :=
  match entity_id r, label r, description r, type r, aliases r, statements r with
  | Some _, Some _, Some _, Some _, Some al, Some sl =>
      forallb alias_complete al && forallb statement_complete sl
  | _, _, _, _, _, _ => false
  end.

(** Well-formedness as the claims word it: a non-empty [entity_id], and
    every statement carries a property. *)
Definition well_formed (r : EntityData) : bool :=
  match entity_id r with
  | Some i => truthy i
  | None => false
  end
  && forallb (fun s => match s_property s with Some _ => true | None => false end)
       (get_or [] (statements r)).

(** What a statement says, field by field: property id, property label,
    value, and the referenced entity when there is one. *)
Definition StatementView : Type := string * string * string * option string.

(** Python truthiness of an optional string: present and non-empty. *)
Definition truthy_ref (o : option string) : option string :=
  match o with
  | Some v => if truthy v then Some v else None
  | None => None
  end.

Definition alias_view (a : Alias) : string * string :=
  (get_or "" (a_value a), get_or "" (a_language a)).

Definition statement_view (s : Statement) : StatementView :=
  let p := get_or {| property_id := None; p_label := None |} (s_property s) in
  (get_or "" (property_id p), get_or "" (p_label p), get_or "" (s_value s),
   s_entity_id s).

(** Within one record every property id comes with a single label. *)
Definition labels_functional (sl : list Statement) : Prop :=
  forall s1 s2 p1 p2,
    In s1 sl -> In s2 sl ->
    s_property s1 = Some p1 -> s_property s2 = Some p2 ->
    get_or "" (property_id p1) = get_or "" (property_id p2) ->
    get_or "" (p_label p1) = get_or "" (p_label p2).

(** A statement names the entity it refers to by a non-empty id. *)
Definition refs_nonempty (sl : list Statement) : Prop :=
  forall s, In s sl -> s_entity_id s <> Some "".

(* ===================================================================== *)
(** * The relational backend: WikidataSQLiteStorage                      *)
(* ===================================================================== *)

Module SQLite.

(** ** Tables

    The four tables of [create_tables], each a list of rows in rowid
    order. [aliases] and [statements] have an AUTOINCREMENT key, whose
    last value SQLite keeps with the table. *)

Record entity_row := {
  e_id : string;
  e_label : string;
  e_description : string;
  e_type : string
}.

Record alias_row := {
  al_id : Z;
  al_entity_id : string;
  al_value : string;
  al_language : string
}.

Record property_row := {
  pr_id : string;
  pr_label : string
}.

Record statement_row := {
  st_id : Z;
  st_entity_id : string;
  st_property_id : string;
  st_value : string;
  st_entity_value_id : option string
}.

Record database := {
  tbl_entities : list entity_row;
  tbl_aliases : list alias_row;
  seq_aliases : Z;
  tbl_properties : list property_row;
  tbl_statements : list statement_row;
  seq_statements : Z
}.

Definition empty_database : database :=
  {| tbl_entities := []; tbl_aliases := []; seq_aliases := 0;
     tbl_properties := []; tbl_statements := []; seq_statements := 0 |}.

(** ** The SQL statements of [store_entity] *)

(** [INSERT OR REPLACE INTO entities]: a row with the same primary key is
    deleted, the new row gets a fresh rowid and so comes last. *)
Definition insert_or_replace_entity (row : entity_row) (d : database) : database :=
  {| tbl_entities :=
       filter (fun r => negb (e_id r =? e_id row)) (tbl_entities d) ++ [row];
     tbl_aliases := tbl_aliases d; seq_aliases := seq_aliases d;
     tbl_properties := tbl_properties d;
     tbl_statements := tbl_statements d; seq_statements := seq_statements d |}.

(** [DELETE FROM aliases WHERE entity_id = ?]. *)
Definition delete_aliases (id : string) (d : database) : database :=
  {| tbl_entities := tbl_entities d;
     tbl_aliases := filter (fun a => negb (al_entity_id a =? id)) (tbl_aliases d);
     seq_aliases := seq_aliases d;
     tbl_properties := tbl_properties d;
     tbl_statements := tbl_statements d; seq_statements := seq_statements d |}.

(** [INSERT INTO aliases (entity_id, value, language)]. *)
Definition insert_alias (id value language : string) (d : database) : database :=
  {| tbl_entities := tbl_entities d;
     tbl_aliases :=
       tbl_aliases d ++
       [{| al_id := seq_aliases d + 1; al_entity_id := id;
           al_value := value; al_language := language |}];
     seq_aliases := seq_aliases d + 1;
     tbl_properties := tbl_properties d;
     tbl_statements := tbl_statements d; seq_statements := seq_statements d |}.

(** [DELETE FROM statements WHERE entity_id = ?]. *)
Definition delete_statements (id : string) (d : database) : database :=
  {| tbl_entities := tbl_entities d;
     tbl_aliases := tbl_aliases d; seq_aliases := seq_aliases d;
     tbl_properties := tbl_properties d;
     tbl_statements :=
       filter (fun s => negb (st_entity_id s =? id)) (tbl_statements d);
     seq_statements := seq_statements d |}.

(** [INSERT OR REPLACE INTO properties (id, label)]: as for entities, the
    row with the same key goes and the new row comes last. *)
Definition replace_property (pid plabel : string) (ps : list property_row)
    : list property_row :=
  filter (fun p => negb (pr_id p =? pid)) ps ++
  [{| pr_id := pid; pr_label := plabel |}].

Definition insert_or_replace_property (pid plabel : string) (d : database) : database :=
  {| tbl_entities := tbl_entities d;
     tbl_aliases := tbl_aliases d; seq_aliases := seq_aliases d;
     tbl_properties := replace_property pid plabel (tbl_properties d);
     tbl_statements := tbl_statements d; seq_statements := seq_statements d |}.

(** [INSERT INTO statements (entity_id, property_id, value, entity_value_id)]. *)
Definition insert_statement (id pid value : string) (ref : option string)
    (d : database) : database :=
  {| tbl_entities := tbl_entities d;
     tbl_aliases := tbl_aliases d; seq_aliases := seq_aliases d;
     tbl_properties := tbl_properties d;
     tbl_statements :=
       tbl_statements d ++
       [{| st_id := seq_statements d + 1; st_entity_id := id;
           st_property_id := pid; st_value := value;
           st_entity_value_id := ref |}];
     seq_statements := seq_statements d + 1 |}.

(** ** The world a call runs in

    [disk] is the committed content of the database file. A connection
    works on its own view of it: writes change the view, [commit] copies
    the view to the file, [rollback] and [close] drop what was not
    committed. [faults] is the fate of the coming operations of the
    sqlite3 module, [connect] included ([true]: the operation raises);
    an exhausted list means no further failure. [trace] records what the
    call did that a caller can observe.

    Strings are the UTF-8 bytes of Python [str] values, which sqlite3
    encodes when it binds them; a [str] that cannot be encoded (a lone
    surrogate) is outside this model. *)

Inductive exn :=
| KeyError (key : string)
| DatabaseError
| ProgrammingError
| OperationalError
| OverflowError.

Inductive message :=
| StoreFailed (id : string) (e : exn)
| GetFailed (id : string) (e : exn)
| SearchFailed (e : exn).

Inductive event :=
| EvConnect
| EvCommit
| EvRollback
| EvClose
| EvPrint (m : message).

Record world := {
  disk : database;
  conn : option database;
  faults : list bool;
  trace : list event
}.

Definition M (A : Type) : Type := world -> (exn + A) * world.

Definition ret {A} (a : A) : M A := fun w => (inr a, w).

Definition bind {A B} (m : M A) (k : A -> M B) : M B :=
  fun w =>
    match m w with
    | (inr a, w') => k a w'
    | (inl e, w') => (inl e, w')
    end.

Definition raise {A} (e : exn) : M A := fun w => (inl e, w).

Declare Scope sql_scope.
Delimit Scope sql_scope with sql.
Notation "x <- m ;; k" := (bind m (fun x => k))
  (at level 61, m at next level, right associativity) : sql_scope.
Notation "m ;; k" := (bind m (fun _ => k))
  (at level 61, right associativity) : sql_scope.
Local Open Scope sql_scope.

Definition emit (ev : event) : M unit :=
  fun w => (inr tt, {| disk := disk w; conn := conn w; faults := faults w;
                       trace := trace w ++ [ev] |}).

(** One operation of the engine: it raises when the oracle says so. *)
Definition engine_step : M unit :=
  fun w =>
    match faults w with
    | [] => (inr tt, w)
    | b :: fs =>
        let w' := {| disk := disk w; conn := conn w; faults := fs;
                     trace := trace w |} in
        if b then (inl DatabaseError, w') else (inr tt, w')
    end.

(** [self._get_db_connection()], that is [sqlite3.connect]: it raises
    [OperationalError] when the database file cannot be opened, and
    otherwise gives a new connection that sees the committed content.
    Every function calls it before its [try]. *)
Definition connect : M unit :=
  fun w =>
    match faults w with
    | true :: fs =>
        (inl OperationalError,
         {| disk := disk w; conn := conn w; faults := fs; trace := trace w |})
    | fs =>
        (inr tt, {| disk := disk w; conn := Some (disk w); faults := tl fs;
                    trace := trace w ++ [EvConnect] |})
    end.

(** The content the open connection sees. *)
Definition view : M database :=
  fun w =>
    match conn w with
    | Some d => (inr d, w)
    | None => (inl ProgrammingError, w)
    end.

Definition set_view (d : database) : M unit :=
  fun w => (inr tt, {| disk := disk w; conn := Some d; faults := faults w;
                       trace := trace w |}).

(** [cursor.execute] of a statement that writes. *)
Definition execute_update (f : database -> database) : M unit :=
  d <- view ;; engine_step ;; set_view (f d).

(** [cursor.execute] of a SELECT: the rows the cursor will deliver. *)
Definition execute_query {A} (f : database -> list A) : M (list A) :=
  d <- view ;; engine_step ;; ret (f d).

Definition fetchall {A} (rows : list A) : M (list A) :=
  engine_step ;; ret rows.

Definition fetchone {A} (rows : list A) : M (option A) :=
  engine_step ;; ret (hd_error rows).

Definition commit : M unit :=
  d <- view ;; engine_step ;;
  (fun w => (inr tt, {| disk := d; conn := conn w; faults := faults w;
                        trace := trace w ++ [EvCommit] |})).

Definition rollback : M unit :=
  _ <- view ;;
  (fun w => (inr tt, {| disk := disk w; conn := Some (disk w);
                        faults := faults w; trace := trace w ++ [EvRollback] |})).

Definition close : M unit :=
  fun w => (inr tt, {| disk := disk w; conn := None; faults := faults w;
                       trace := trace w ++ [EvClose] |}).

(** [print(...)]: the message goes to standard output, which is taken to
    accept it. *)
Definition print (m : message) : M unit := emit (EvPrint m).

(** [d[key]]: raises [KeyError] when the key is absent. *)
Definition subscript {A} (key : string) (o : option A) : M A :=
  match o with
  | Some v => ret v
  | None => raise (KeyError key)
  end.

(** [for x in l: f(x)]. *)
Fixpoint for_each {A} (l : list A) (f : A -> M unit) : M unit :=
  match l with
  | [] => ret tt
  | x :: xs => f x ;; for_each xs f
  end.

(** [try: body / except Exception as e: handler(e) / finally: final]. *)
Definition try_except_finally {A} (body : M A) (handler : exn -> M A)
    (final : M unit) : M A :=
  fun w =>
    let (r, w1) :=
      match body w with
      | (inr a, w') => (inr a, w')
      | (inl e, w') => handler e w'
      end in
    match final w1 with
    | (inr _, w2) => (r, w2)
    | (inl e, w2) => (inl e, w2)
    end.

(** ** create_tables

    Four [CREATE TABLE IF NOT EXISTS], then commit and close. Nothing
    is caught here.

    A [database] stands for a file in which the four tables exist, with
    or without rows; there [CREATE TABLE IF NOT EXISTS] changes
    nothing. sqlite3 runs the statement outside a transaction, so it
    needs no commit. A file on which [create_tables] never ran has no
    representation: in it every statement of the other functions raises
    "no such table", which the oracle covers, and about what
    [create_tables] leaves in such a file nothing is stated. *)
Definition execute_create_table : M unit :=
  _ <- view ;; engine_step.

Definition create_tables : M unit :=
  connect ;;
  execute_create_table ;;
  execute_create_table ;;
  execute_create_table ;;
  execute_create_table ;;
  commit ;;
  close.

(** ** store_entity *)

Definition store_alias (entity_data : EntityData) (alias : Alias) : M unit :=
  id <- subscript "entity_id" (entity_id entity_data) ;;
  execute_update
    (insert_alias id (get_or "" (a_value alias)) (get_or "" (a_language alias))).

Definition store_statement (entity_data : EntityData) (statement : Statement)
    : M unit :=
  match s_property statement with
  | Some property =>
      let property_id := get_or "" (property_id property) in
      let property_label := get_or "" (p_label property) in
      execute_update (insert_or_replace_property property_id property_label) ;;
      let entity_value_id := s_entity_id statement in
      id <- subscript "entity_id" (entity_id entity_data) ;;
      execute_update
        (insert_statement id property_id (get_or "" (s_value statement))
           entity_value_id)
  | None => ret tt
  end.

(** The body of the [try] block. *)
Definition store_entity_try (entity_data : EntityData) : M unit :=
  execute_update
    (insert_or_replace_entity
       {| e_id := get_or "" (entity_id entity_data);
          e_label := get_or "" (label entity_data);
          e_description := get_or "" (description entity_data);
          e_type := get_or "" (type entity_data) |}) ;;
  match present_nonempty (aliases entity_data) with
  | Some al =>
      id <- subscript "entity_id" (entity_id entity_data) ;;
      execute_update (delete_aliases id) ;;
      for_each al (store_alias entity_data)
  | None => ret tt
  end ;;
  match present_nonempty (statements entity_data) with
  | Some sl =>
      id <- subscript "entity_id" (entity_id entity_data) ;;
      execute_update (delete_statements id) ;;
      for_each sl (store_statement entity_data)
  | None => ret tt
  end ;;
  commit.

Definition store_entity (entity_data : EntityData) : M unit :=
  connect ;;
  try_except_finally
    (store_entity_try entity_data)
    (fun e =>
       print (StoreFailed (get_or "unknown" (entity_id entity_data)) e) ;;
       rollback)
    close.

Definition store_entities (entities_data : Batch) : M unit :=
  create_tables ;;
  for_each (batch_records entities_data) store_entity.

(** ** get_entity_by_id *)

Record AliasOut := { ao_value : string; ao_language : string }.

Record PropertyOut := { po_id : string; po_label : string }.

Record StatementOut := {
  so_id : Z;
  so_property : PropertyOut;
  so_value : string;
  so_entity_id : option string
}.

Record Entity := {
  r_id : string;
  r_label : string;
  r_description : string;
  r_type : string;
  r_aliases : list AliasOut;
  r_statements : list StatementOut
}.

(** [SELECT id, label, description, type FROM entities WHERE id = ?]. *)
Definition select_entity (id : string) (d : database) : list entity_row :=
  filter (fun r => e_id r =? id) (tbl_entities d).

(** [SELECT value, language FROM aliases WHERE entity_id = ?]. *)
Definition select_aliases (id : string) (d : database) : list (string * string) :=
  map (fun a => (al_value a, al_language a))
    (filter (fun a => al_entity_id a =? id) (tbl_aliases d)).

(** [SELECT s.id, p.id, p.label, s.value, s.entity_value_id
     FROM statements s JOIN properties p ON s.property_id = p.id
     WHERE s.entity_id = ?]. *)
Definition join_properties (ps : list property_row) (s : statement_row)
    : list (Z * string * string * string * option string) :=
  map (fun p => (st_id s, pr_id p, pr_label p, st_value s, st_entity_value_id s))
    (filter (fun p => st_property_id s =? pr_id p) ps).

Definition select_statements (id : string) (d : database)
    : list (Z * string * string * string * option string) :=
  flat_map (join_properties (tbl_properties d))
    (filter (fun s => st_entity_id s =? id) (tbl_statements d)).

Definition statement_of_row (stmt : Z * string * string * string * option string)
    : StatementOut :=
  let '(sid, pid, plabel, value, ref) := stmt in
  {| so_id := sid;
     so_property := {| po_id := pid; po_label := plabel |};
     so_value := value;
     so_entity_id := truthy_ref ref |}.

Definition get_entity_by_id_try (entity_id : string) : M (option Entity) :=
  cur <- execute_query (select_entity entity_id) ;;
  entity_row <- fetchone cur ;;
  match entity_row with
  | None => ret None
  | Some row =>
      cur <- execute_query (select_aliases entity_id) ;;
      aliases <- fetchall cur ;;
      cur <- execute_query (select_statements entity_id) ;;
      statements <- fetchall cur ;;
      ret (Some
             {| r_id := e_id row;
                r_label := e_label row;
                r_description := e_description row;
                r_type := e_type row;
                r_aliases :=
                  map (fun a => {| ao_value := fst a; ao_language := snd a |})
                    aliases;
                r_statements := map statement_of_row statements |})
  end.

Definition get_entity_by_id (entity_id : string) : M (option Entity) :=
  connect ;;
  try_except_finally
    (get_entity_by_id_try entity_id)
    (fun e => print (GetFailed entity_id e) ;; ret None)
    close.

(** ** search_entities *)

Record Hit := { h_id : string; h_label : string; h_description : string }.

Definition hit_eqb (x y : Hit) : bool :=
  (h_id x =? h_id y) && (h_label x =? h_label y)
  && (h_description x =? h_description y).

(** The rows of [entities] in the order of the index of its primary
    key, that is by id, byte by byte. SQLite walks this index for the
    query of [search_entities]; SQL itself promises no order. *)
Fixpoint insert_by_id (row : entity_row) (l : list entity_row) : list entity_row :=
  match l with
  | [] => [row]
  | x :: l' =>
      if (e_id row <=? e_id x)%string then row :: l
      else x :: insert_by_id row l'
  end.

Definition by_id (l : list entity_row) : list entity_row :=
  fold_right insert_by_id [] l.

(** [FROM entities e LEFT JOIN aliases a ON e.id = a.entity_id]: an
    entity without alias is kept once, with no alias columns. *)
Definition left_join_aliases (d : database) : list (entity_row * option alias_row) :=
  flat_map
    (fun e =>
       match filter (fun a => e_id e =? al_entity_id a) (tbl_aliases d) with
       | [] => [(e, None)]
       | al => map (fun a => (e, Some a)) al
       end)
    (by_id (tbl_entities d)).

(** [WHERE e.label LIKE ? OR e.description LIKE ? OR a.value LIKE ?]; a
    comparison with a missing alias is not true. *)
Definition search_where (pattern : string) (row : entity_row * option alias_row)
    : bool :=
  Text.like pattern (e_label (fst row))
  || Text.like pattern (e_description (fst row))
  || match snd row with
     | Some a => Text.like pattern (al_value a)
     | None => false
     end.

(** [SELECT DISTINCT]: the first of equal rows is kept. *)
Fixpoint distinct (l : list Hit) : list Hit :=
  match l with
  | [] => []
  | x :: xs => x :: filter (fun y => negb (hit_eqb x y)) (distinct xs)
  end.

(** A Python [int] bound to a parameter becomes a 64-bit INTEGER;
    sqlite3 raises [OverflowError] when it does not fit. *)
Definition bind_integer (n : Z) : M unit :=
  if ((- 2 ^ 63 <=? n) && (n <? 2 ^ 63))%Z then ret tt else raise OverflowError.

(** [LIMIT ?] with a 64-bit integer: a negative limit is no limit. *)
Definition sql_limit {A} (limit : Z) (l : list A) : list A :=
  if (limit <? 0)%Z then l else firstn (Z.to_nat limit) l.

Definition select_search (query : string) (limit : Z) (d : database) : list Hit :=
  let pattern := "%" ++ query ++ "%" in
  sql_limit limit
    (distinct
       (map (fun row => {| h_id := e_id (fst row); h_label := e_label (fst row);
                           h_description := e_description (fst row) |})
          (filter (search_where pattern) (left_join_aliases d)))).

(** [cursor.execute] prepares the statement, then binds the parameters,
    of which [limit] may not fit. *)
Definition search_entities_try (query : string) (limit : Z) : M (list Hit) :=
  cur <- (d <- view ;; engine_step ;; bind_integer limit ;;
          ret (select_search query limit d)) ;;
  rows <- fetchall cur ;;
  ret rows.

Definition search_entities (query : string) (limit : Z) : M (list Hit) :=
  connect ;;
  try_except_finally
    (search_entities_try query limit)
    (fun e => print (SearchFailed e) ;; ret [])
    close.

(** ** Running a call and looking at the outcome *)

Definition fresh (d : database) (fs : list bool) : world :=
  {| disk := d; conn := None; faults := fs; trace := [] |}.

(** The events a call added to the trace. *)
Definition printed (w : world) : list message :=
  flat_map (fun ev => match ev with EvPrint m => [m] | _ => [] end) (trace w).

End SQLite.

(* ===================================================================== *)
(** * The document backend: WikidataTinyDBStorage                        *)
(* ===================================================================== *)

Module TinyDB.

(** The [entities] table of TinyDB: the stored documents in the order of
    their document ids. A document is the dict that was stored. *)
Definition Table : Type := list EntityData.

Inductive message :=
| MissingEntityId.

Record world := {
  entities : Table;
  printed : list message
}.

(** ** The operations of a TinyDB table the backend uses *)

(** [Entity.entity_id == value]: the document has the key and the value
    is equal. *)
Definition entity_id_is (value : string) (doc : EntityData) : bool :=
  match entity_id doc with
  | Some i => i =? value
  | None => false
  end.

(** [table.get(cond)]: the first document that satisfies [cond]. *)
Definition table_get (cond : EntityData -> bool) (t : Table) : option EntityData :=
  find cond t.

(** [doc.update(fields)] on dicts: the keys of [fields] are written, the
    other keys of [doc] stay. *)
Definition dict_update (doc fields : EntityData) : EntityData :=
  let pick {A} (new old : option A) : option A :=
    match new with Some v => Some v | None => old end in
  {| entity_id := pick (entity_id fields) (entity_id doc);
     label := pick (label fields) (label doc);
     description := pick (description fields) (description doc);
     type := pick (type fields) (type doc);
     aliases := pick (aliases fields) (aliases doc);
     statements := pick (statements fields) (statements doc) |}.

(** [table.update(fields, cond)]: every document that satisfies [cond]
    is updated with [fields]. *)
Definition table_update (fields : EntityData) (cond : EntityData -> bool)
    (t : Table) : Table :=
  map (fun doc => if cond doc then dict_update doc fields else doc) t.

(** [table.insert(document)]: the document gets the next document id. *)
Definition table_insert (document : EntityData) (t : Table) : Table :=
  (t ++ [document])%list.

(** ** store_entity, store_entities, get_entity_by_id *)

Definition store_entity (entity_data : EntityData) (w : world) : world :=
  match truthy_ref (entity_id entity_data) with
  | None =>
      {| entities := entities w; printed := printed w ++ [MissingEntityId] |}
  | Some id =>
      match table_get (entity_id_is id) (entities w) with
      | Some existing =>
          {| entities := table_update entity_data (entity_id_is id) (entities w);
             printed := printed w |}
      | None =>
          {| entities := table_insert entity_data (entities w);
             printed := printed w |}
      end
  end.

Definition store_entities (entities_data : Batch) (w : world) : world :=
  fold_left (fun w' entity_data => store_entity entity_data w')
    (batch_records entities_data) w.

Definition get_entity_by_id (id : string) (w : world) : option EntityData :=
  table_get (entity_id_is id) (entities w).

Definition empty_world : world := {| entities := []; printed := [] |}.

(** ** search_entities

    The query is handed to Python's [re.search] with [re.IGNORECASE]:
    it is a regular expression, not a literal. The regular-expression
    engine is a parameter: [re_compiles q] tells whether [q] is a valid
    pattern, [re_search q s] whether it matches somewhere in [s]. *)

Record Hit := {
  h_id : option string;
  h_label : option string;
  h_description : option string
}.

(** [results[:limit]]. *)
Definition slice_to {A} (limit : Z) (l : list A) : list A :=
  if (limit <? 0)%Z
  then firstn (Z.to_nat (Z.of_nat (length l) + limit)) l
  else firstn (Z.to_nat limit) l.

Definition hit_of (result : EntityData) : Hit :=
  {| h_id := entity_id result;
     h_label := label result;
     h_description := description result |}.

Section Search.

Variable re_compiles : string -> bool.
Variable re_search : string -> string -> bool.

(** [Entity.field.search(query, flags=re.IGNORECASE)] on one document:
    false when the key is absent, [None] when compiling the pattern
    raises [re.error]. *)
Definition field_search (query : string) (field : option string) : option bool :=
  match field with
  | None => Some false
  | Some value =>
      if re_compiles query then Some (re_search query value) else None
  end.

(** [(Entity.label.search(..)) | (Entity.description.search(..))]: the
    second test runs only when the first is false. *)
Definition search_cond (query : string) (doc : EntityData) : option bool :=
  match field_search query (label doc) with
  | None => None
  | Some true => Some true
  | Some false => field_search query (description doc)
  end.

(** [table.search(cond)]: the documents that satisfy [cond], in order;
    the test may raise. *)
Fixpoint table_search_raising (cond : EntityData -> option bool) (t : Table)
    : option Table :=
  match t with
  | [] => Some []
  | doc :: t' =>
      match cond doc with
      | None => None
      | Some b =>
          match table_search_raising cond t' with
          | None => None
          | Some rest => Some (if b then doc :: rest else rest)
          end
      end
  end.

(** [None] stands for [re.error] leaving the call. *)
Definition search_entities (query : string) (limit : Z) (w : world)
    : option (list Hit) :=
  match table_search_raising (search_cond query) (entities w) with
  | None => None
  | Some results => Some (map hit_of (slice_to limit results))
  end.

End Search.

End TinyDB.

(* ===================================================================== *)
(** * The benchmark harness: run_performance_comparison                  *)
(* ===================================================================== *)

Module Harness.

Inductive backend := SQLiteBackend | TinyDBBackend.

Definition load_example_queries : list string :=
  ["What is the population of China?";
   "What is the capital of France?";
   "What is the capital of China?";
   "What is the population of France?";
   "What is the capital of United States?";
   "What is the population of India?"].

Section Harness.

(** The two storage objects with their [natural_language_query], which
    is not part of the harness: each is a state and a function that
    returns the answer rows or raises. [now k] is the [k]-th reading of
    [time.time()]. *)
Variables SQ TD E : Type.
Variable sqlite_nlq : string -> SQ -> (E + list (string * string)) * SQ.
Variable tinydb_nlq : string -> TD -> (E + list (string * string)) * TD.
Variable now : nat -> Q.

Inductive exn :=
| Propagated (e : E)
| ZeroDivisionError.

(** One call of [natural_language_query], as the harness made it. *)
Record call := {
  c_backend : backend;
  c_query : string;
  c_raised : option E
}.

Record world := {
  sqlite_storage : SQ;
  tinydb_storage : TD;
  clock_reads : nat;
  calls : list call
}.

Definition H (A : Type) : Type := world -> (exn + A) * world.

Definition ret {A} (a : A) : H A := fun w => (inr a, w).

Definition bind {A B} (m : H A) (k : A -> H B) : H B :=
  fun w =>
    match m w with
    | (inr a, w') => k a w'
    | (inl e, w') => (inl e, w')
    end.

Definition raise {A} (e : exn) : H A := fun w => (inl e, w).

Notation "x <- m ;; k" := (bind m (fun x => k))
  (at level 61, m at next level, right associativity).

Definition time_time : H Q :=
  fun w => (inr (now (clock_reads w)),
            {| sqlite_storage := sqlite_storage w;
               tinydb_storage := tinydb_storage w;
               clock_reads := S (clock_reads w);
               calls := calls w |}).

Definition natural_language_query (b : backend) (query : string)
    : H (list (string * string)) :=
  fun w =>
    match b with
    | SQLiteBackend =>
        let (r, s) := sqlite_nlq query (sqlite_storage w) in
        let log e := {| sqlite_storage := s;
                        tinydb_storage := tinydb_storage w;
                        clock_reads := clock_reads w;
                        calls := calls w ++
                          [{| c_backend := b; c_query := query; c_raised := e |}] |} in
        match r with
        | inr rows => (inr rows, log None)
        | inl e => (inl (Propagated e), log (Some e))
        end
    | TinyDBBackend =>
        let (r, s) := tinydb_nlq query (tinydb_storage w) in
        let log e := {| sqlite_storage := sqlite_storage w;
                        tinydb_storage := s;
                        clock_reads := clock_reads w;
                        calls := calls w ++
                          [{| c_backend := b; c_query := query; c_raised := e |}] |} in
        match r with
        | inr rows => (inr rows, log None)
        | inl e => (inl (Propagated e), log (Some e))
        end
    end.

(** [sum(xs) / len(xs)]. *)
Definition average (xs : list Q) : H Q :=
  match xs with
  | [] => raise ZeroDivisionError
  | _ => ret (fold_left Qplus xs 0 / inject_Z (Z.of_nat (length xs)))%Q
  end.

(** [a / b] on numbers. *)
Definition divide (a b : Q) : H Q :=
  if Qeq_bool b 0 then raise ZeroDivisionError else ret (a / b)%Q.

(** [for i in range(iterations)] of one backend on one query: the
    elapsed times, and the size of the first answer. [i] is the index of
    the run, [n] the number of runs still to do. *)
Fixpoint timed_runs (b : backend) (query : string) (i n : nat)
    (times : list Q) (result_count : nat) : H (list Q * nat) :=
  match n with
  | O => ret (times, result_count)
  | S n' =>
      start_time <- time_time ;;
      results <- natural_language_query b query ;;
      end_time <- time_time ;;
      let elapsed := (end_time - start_time)%Q in
      let result_count' :=
        if Nat.eqb i 0 then length results else result_count in
      timed_runs b query (S i) n' (times ++ [elapsed]) result_count'
  end.

Record results := {
  sqlite_times : list Q;
  sqlite_counts : list nat;
  tinydb_times : list Q;
  tinydb_counts : list nat
}.

Definition measure_query (iterations : Z) (query : string) (acc : results)
    : H results :=
  sq <- timed_runs SQLiteBackend query 0 (Z.to_nat iterations) [] 0 ;;
  avg_sqlite_time <- average (fst sq) ;;
  td <- timed_runs TinyDBBackend query 0 (Z.to_nat iterations) [] 0 ;;
  avg_tinydb_time <- average (fst td) ;;
  ret {| sqlite_times := sqlite_times acc ++ [avg_sqlite_time];
         sqlite_counts := sqlite_counts acc ++ [snd sq];
         tinydb_times := tinydb_times acc ++ [avg_tinydb_time];
         tinydb_counts := tinydb_counts acc ++ [snd td] |}.

Fixpoint measure_queries (iterations : Z) (queries : list string)
    (acc : results) : H results :=
  match queries with
  | [] => ret acc
  | query :: rest =>
      acc' <- measure_query iterations query acc ;;
      measure_queries iterations rest acc'
  end.

Definition run_performance_comparison (queries : list string)
    (iterations : Z) : H results :=
  res <- measure_queries iterations queries
           {| sqlite_times := []; sqlite_counts := [];
              tinydb_times := []; tinydb_counts := [] |} ;;
  sqlite_avg_time <- average (sqlite_times res) ;;
  tinydb_avg_time <- average (tinydb_times res) ;;
  _ <- average (map (fun c => inject_Z (Z.of_nat c)) (sqlite_counts res)) ;;
  _ <- average (map (fun c => inject_Z (Z.of_nat c)) (tinydb_counts res)) ;;
  _ <- (if Qlt_le_dec sqlite_avg_time tinydb_avg_time
        then divide tinydb_avg_time sqlite_avg_time
        else divide sqlite_avg_time tinydb_avg_time) ;;
  ret res.

End Harness.

Arguments Propagated {E} e.
Arguments ZeroDivisionError {E}.
Arguments Build_call {E} c_backend c_query c_raised.
Arguments c_backend {E} c.
Arguments c_query {E} c.
Arguments c_raised {E} c.
Arguments Build_world {SQ TD E} sqlite_storage tinydb_storage clock_reads calls.
Arguments sqlite_storage {SQ TD E} w.
Arguments tinydb_storage {SQ TD E} w.
Arguments clock_reads {SQ TD E} w.
Arguments calls {SQ TD E} w.
Arguments ret {SQ TD E A} a _.
Arguments bind {SQ TD E A B} m k _.
Arguments raise {SQ TD E A} e _.
Arguments time_time {SQ TD E} now _.
Arguments natural_language_query {SQ TD E} sqlite_nlq tinydb_nlq b query _.
Arguments average {SQ TD E} xs _.
Arguments divide {SQ TD E} a b _.
Arguments timed_runs {SQ TD E} sqlite_nlq tinydb_nlq now b query i n times
  result_count _.
Arguments measure_query {SQ TD E} sqlite_nlq tinydb_nlq now iterations query
  acc _.
Arguments measure_queries {SQ TD E} sqlite_nlq tinydb_nlq now iterations
  queries acc _.
Arguments run_performance_comparison {SQ TD E} sqlite_nlq tinydb_nlq now
  queries iterations _.

End Harness.

(* ===================================================================== *)
(** * Notions the statements are phrased with                            *)
(* ===================================================================== *)

(** ** Relational backend *)

(** At most one row per key. *)
Definition unique_entities (d : SQLite.database) : Prop :=
  NoDup (map SQLite.e_id (SQLite.tbl_entities d)).

Definition unique_properties (d : SQLite.database) : Prop :=
  NoDup (map SQLite.pr_id (SQLite.tbl_properties d)).

(** The label a list of property rows holds for a property id. *)
Definition label_in (pid : string) (ps : list SQLite.property_row) : option string :=
  match find (fun p => SQLite.pr_id p =? pid) ps with
  | Some p => Some (SQLite.pr_label p)
  | None => None
  end.

Definition property_label (pid : string) (d : SQLite.database) : option string :=
  label_in pid (SQLite.tbl_properties d).

(** The (property id, label) pairs of the statements that carry a
    property, in order. *)
Definition statement_mentions (sl : list Statement) : list (string * string) :=
  flat_map
    (fun s =>
       match s_property s with
       | Some p => [(get_or "" (property_id p), get_or "" (p_label p))]
       | None => []
       end)
    sl.

(** The properties table after the upserts of a list of pairs. *)
Definition props_after (ms : list (string * string))
    (ps : list SQLite.property_row) : list SQLite.property_row :=
  fold_left (fun ps' m => SQLite.replace_property (fst m) (snd m) ps') ms ps.

(** The (property id, label) pairs that the statements of a record
    state, in their order: a statement without property states none,
    and a property id or a label that is absent reads as the empty
    string. *)
Definition stated_labels (r : EntityData) : list (string * string) :=
  match statements r with
  | None => []
  | Some sl =>
      flat_map
        (fun s =>
           match s_property s with
           | None => []
           | Some p =>
               [(match property_id p with Some i => i | None => "" end,
                 match p_label p with Some l => l | None => "" end)]
           end)
        sl
  end.

(** The label of the last pair that mentions [pid]. *)
Fixpoint last_label (ms : list (string * string)) (pid : string) : option string :=
  match ms with
  | [] => None
  | (p, l) :: ms' =>
      match last_label ms' pid with
      | Some l' => Some l'
      | None => if p =? pid then Some l else None
      end
  end.

(** What the three loops of the transaction do to the view when no step
    fails. *)
Definition apply_aliases (id : string) (al : list Alias) (d : SQLite.database)
    : SQLite.database :=
  fold_left
    (fun d' a =>
       SQLite.insert_alias id (get_or "" (a_value a)) (get_or "" (a_language a)) d')
    al d.

Definition apply_statement (id : string) (d : SQLite.database) (s : Statement)
    : SQLite.database :=
  match s_property s with
  | Some p =>
      SQLite.insert_statement id (get_or "" (property_id p))
        (get_or "" (s_value s)) (s_entity_id s)
        (SQLite.insert_or_replace_property (get_or "" (property_id p))
           (get_or "" (p_label p)) d)
  | None => d
  end.

Definition apply_statements (id : string) (sl : list Statement)
    (d : SQLite.database) : SQLite.database :=
  fold_left (apply_statement id) sl d.

Definition stored (id : string) (r : EntityData) (d : SQLite.database)
    : SQLite.database :=
  let d1 :=
    SQLite.insert_or_replace_entity
      {| SQLite.e_id := id;
         SQLite.e_label := get_or "" (label r);
         SQLite.e_description := get_or "" (description r);
         SQLite.e_type := get_or "" (type r) |} d in
  let d2 :=
    match present_nonempty (aliases r) with
    | Some al => apply_aliases id al (SQLite.delete_aliases id d1)
    | None => d1
    end in
  match present_nonempty (statements r) with
  | Some sl => apply_statements id sl (SQLite.delete_statements id d2)
  | None => d2
  end.

(** What [get_entity_by_id] reads from a database when no step fails. *)
Definition lookup_entity (id : string) (d : SQLite.database) : option SQLite.Entity :=
  match SQLite.select_entity id d with
  | [] => None
  | row :: _ =>
      Some
        {| SQLite.r_id := SQLite.e_id row;
           SQLite.r_label := SQLite.e_label row;
           SQLite.r_description := SQLite.e_description row;
           SQLite.r_type := SQLite.e_type row;
           SQLite.r_aliases :=
             map (fun a => {| SQLite.ao_value := fst a; SQLite.ao_language := snd a |})
               (SQLite.select_aliases id d);
           SQLite.r_statements :=
             map SQLite.statement_of_row (SQLite.select_statements id d) |}
  end.

(** Field-by-field reading of what [get_entity_by_id] returns. *)
Definition alias_out_view (a : SQLite.AliasOut) : string * string :=
  (SQLite.ao_value a, SQLite.ao_language a).

Definition statement_out_view (s : SQLite.StatementOut) : StatementView :=
  (SQLite.po_id (SQLite.so_property s), SQLite.po_label (SQLite.so_property s),
   SQLite.so_value s, SQLite.so_entity_id s).

(** No alias or statement row of [id] would survive a store of [r]
    unnoticed: a list that is absent or empty finds no old rows. *)
Definition no_stale_rows (id : string) (r : EntityData) (d : SQLite.database) : Prop :=
  (present_nonempty (aliases r) = None ->
   forall a, In a (SQLite.tbl_aliases d) -> SQLite.al_entity_id a <> id) /\
  (present_nonempty (statements r) = None ->
   forall s, In s (SQLite.tbl_statements d) -> SQLite.st_entity_id s <> id).

(** The world right after [connect]. *)
Definition connected (w : SQLite.world) : SQLite.world := snd (SQLite.connect w).

(** The database file can be opened: the coming [connect] returns. *)
Definition opens (w : SQLite.world) : Prop := fst (SQLite.connect w) = inr tt.

(** A property of worlds that a computation never breaks. *)
Definition preserves {A} (P : SQLite.world -> Prop) (m : SQLite.M A) : Prop :=
  forall w r w', P w -> m w = (r, w') -> P w'.

Definition is_open (w : SQLite.world) : Prop := SQLite.conn w <> None.

(** A computation that leaves the committed content alone whenever it
    raises. *)
Definition fails_keep_disk {A} (m : SQLite.M A) : Prop :=
  forall w e w', m w = (inl e, w') -> SQLite.disk w' = SQLite.disk w.

Definition disk_is (d : SQLite.database) (w : SQLite.world) : Prop :=
  SQLite.disk w = d.

(** A property of databases that holds of the file and of the view of
    the open connection. *)
Definition holds_in_world (Q : SQLite.database -> Prop) (w : SQLite.world) : Prop :=
  Q (SQLite.disk w) /\ forall d, SQLite.conn w = Some d -> Q d.

(** A property of databases that each SQL statement of [store_entity]
    keeps. *)
Definition kept_by_statements (Q : SQLite.database -> Prop) : Prop :=
  (forall row d, Q d -> Q (SQLite.insert_or_replace_entity row d)) /\
  (forall id d, Q d -> Q (SQLite.delete_aliases id d)) /\
  (forall id v l d, Q d -> Q (SQLite.insert_alias id v l d)) /\
  (forall id d, Q d -> Q (SQLite.delete_statements id d)) /\
  (forall pid l d, Q d -> Q (SQLite.insert_or_replace_property pid l d)) /\
  (forall id pid v ref d, Q d -> Q (SQLite.insert_statement id pid v ref d)).



(** ** Document backend *)

(** At most one document per [entity_id], each with a non-empty id. *)
Definition one_document_per_id (t : TinyDB.Table) : Prop :=
  NoDup (map entity_id t) /\
  Forall (fun doc => truthy_ref (entity_id doc) <> None) t.

(** The calls that change a document store. *)
Inductive Call :=
| CallStoreEntity (r : EntityData)
| CallStoreEntities (b : Batch).

Definition run_call (w : TinyDB.world) (c : Call) : TinyDB.world :=
  match c with
  | CallStoreEntity r => TinyDB.store_entity r w
  | CallStoreEntities b => TinyDB.store_entities b w
  end.




(** ** Benchmark harness *)

Section HarnessNotions.

Variables SQ TD E : Type.

(** None of the calls raised. *)
Definition all_returned (cs : list (Harness.call E)) : Prop :=
  Forall (fun c => Harness.c_raised c = None) cs.

(** How a computation of the harness ends, in terms of the calls of
    [natural_language_query] it adds to the log: either none of them
    raised and no exception of a backend leaves it, or the last of them
    raised, none before did, and that exception leaves it. *)
Definition propagates_first_failure {A}
    (w : Harness.world SQ TD E)
    (out : (Harness.exn E + A) * Harness.world SQ TD E) : Prop :=
  exists cs,
    Harness.calls (snd out) = (Harness.calls w ++ cs)%list /\
    ((all_returned cs /\ forall e, fst out <> inl (Harness.Propagated e)) \/
     (exists cs0 c e,
         cs = (cs0 ++ [c])%list /\ all_returned cs0 /\
         Harness.c_raised c = Some e /\
         fst out = inl (Harness.Propagated e))).

End HarnessNotions.

Arguments all_returned {E} cs.
Arguments propagates_first_failure {SQ TD E A} w out.

(** Two stand-ins for the storage objects: the relational one raises on
    the question about the capital of France, the other one answers
    every question. The clock advances by one per reading. *)
Definition failing_sqlite_nlq (query : string) (s : unit)
    : (string + list (string * string)) * unit :=
  if query =? "What is the capital of France?"
  then (inl "no such table: entities", s)
  else (inr [("人口", "14亿")], s).

Definition steady_tinydb_nlq (query : string) (s : unit)
    : (string + list (string * string)) * unit :=
  (inr [("人口", "14亿")], s).

Definition ticking_clock (k : nat) : Q := inject_Z (Z.of_nat k).

Definition harness_start : Harness.world unit unit string :=
  Harness.Build_world tt tt 0 [].

(** ** Sample data

    The two entities of [_add_sample_data], and variants of them used to
    run the functions on concrete inputs. *)

Definition mk_alias (value language : string) : Alias :=
  {| a_value := Some value; a_language := Some language |}.

Definition mk_statement (pid plabel value : string) (ref : option string)
    : Statement :=
  {| s_property := Some {| property_id := Some pid; p_label := Some plabel |};
     s_value := Some value;
     s_entity_id := ref |}.

Definition sample_Q148 : EntityData :=
  {| entity_id := Some "Q148";
     label := Some "中国";
     description := Some "亚洲东部国家";
     type := Some "country";
     aliases :=
       Some [mk_alias "People's Republic of China" "en";
             mk_alias "PRC" "en";
             mk_alias "中华人民共和国" "zh"];
     statements :=
       Some [mk_statement "P36" "首都" "北京" (Some "Q956");
             mk_statement "P37" "官方语言" "汉语" None;
             mk_statement "P1082" "人口" "14亿" None] |}.

Definition sample_Q956 : EntityData :=
  {| entity_id := Some "Q956";
     label := Some "北京";
     description := Some "中华人民共和国首都";
     type := Some "city";
     aliases := Some [mk_alias "Beijing" "en"; mk_alias "Peking" "en"];
     statements :=
       Some [mk_statement "P17" "国家" "中国" (Some "Q148");
             mk_statement "P1082" "人口" "2154万" None] |}.

(** A second version of Q148 with other aliases and statements. *)
Definition sample_Q148_v2 : EntityData :=
  {| entity_id := Some "Q148";
     label := Some "China";
     description := Some "country in East Asia";
     type := Some "country";
     aliases := Some [mk_alias "Zhongguo" "en"];
     statements := Some [mk_statement "P30" "continent" "Asia" (Some "Q48")] |}.

(** Q148 again, without the [aliases] and [statements] keys. *)
Definition sample_Q148_bare : EntityData :=
  {| entity_id := Some "Q148";
     label := Some "China";
     description := Some "country in East Asia";
     type := Some "country";
     aliases := None;
     statements := None |}.

(** Q148 again, with both lists present and empty. *)
Definition sample_Q148_empty : EntityData :=
  {| entity_id := Some "Q148";
     label := Some "China";
     description := Some "country in East Asia";
     type := Some "country";
     aliases := Some [];
     statements := Some [] |}.

(** A record that gives one property id two labels. *)
Definition sample_two_labels : EntityData :=
  {| entity_id := Some "Q1";
     label := Some "universe";
     description := Some "everything";
     type := Some "item";
     aliases := Some [];
     statements :=
       Some [mk_statement "P1082" "population" "1" None;
             mk_statement "P1082" "inhabitants" "2" None] |}.

(** A record whose statement refers to an entity by the empty id. *)
Definition sample_empty_ref : EntityData :=
  {| entity_id := Some "Q2";
     label := Some "Earth";
     description := Some "planet";
     type := Some "item";
     aliases := Some [];
     statements := Some [mk_statement "P361" "part of" "Solar System" (Some "")] |}.

(** Records without a usable [entity_id]. *)
Definition sample_no_id : EntityData :=
  {| entity_id := None;
     label := Some "nameless";
     description := Some "a record without entity_id";
     type := Some "item";
     aliases := None;
     statements := None |}.

Definition sample_empty_id : EntityData :=
  {| entity_id := Some "";
     label := Some "nameless";
     description := Some "a record with an empty entity_id";
     type := Some "item";
     aliases := Some [mk_alias "anonymous" "en"];
     statements := Some [mk_statement "P31" "instance of" "thing" None] |}.

(** ** Transactions of the relational backend *)

(** A computation on an open connection that, when it returns, has
    changed the view by [f] and nothing else; when it raises, the view
    may be anything. In both cases the file is untouched, the
    connection stays open and nothing is printed. *)
Definition runs_as {A} (m : SQLite.M A)
    (f : SQLite.database -> SQLite.database) : Prop :=
  forall d0 v fs tr,
    let w := SQLite.Build_world d0 (Some v) fs tr in
    SQLite.disk (snd (m w)) = d0 /\
    SQLite.printed (snd (m w)) = SQLite.printed w /\
    match fst (m w) with
    | inr _ => SQLite.conn (snd (m w)) = Some (f v)
    | inl _ => SQLite.conn (snd (m w)) <> None
    end.

(** A computation on an open connection that ends with a commit: when
    it returns, the file holds [f] of the view it started from; when it
    raises, the file is untouched. The connection stays open and
    nothing is printed. *)
Definition commits_as {A} (m : SQLite.M A)
    (f : SQLite.database -> SQLite.database) : Prop :=
  forall d0 v fs tr,
    let w := SQLite.Build_world d0 (Some v) fs tr in
    SQLite.conn (snd (m w)) <> None /\
    SQLite.printed (snd (m w)) = SQLite.printed w /\
    match fst (m w) with
    | inr _ => SQLite.disk (snd (m w)) = f v
    | inl _ => SQLite.disk (snd (m w)) = d0
    end.

(** ** Databases the relational backend can build *)

(** The database file after a sequence of [store_entity] calls on an
    empty database, under some pattern of engine failures. *)
Definition built (rs : list EntityData) (fs : list bool) : SQLite.database :=
  SQLite.disk
    (snd (SQLite.for_each rs SQLite.store_entity
            (SQLite.fresh SQLite.empty_database fs))).

(** The references [create_tables] declares from aliases and statements
    to their entity, and from statements to their property, lead to
    rows that exist. *)
Definition references_resolve (d : SQLite.database) : Prop :=
  (forall a, In a (SQLite.tbl_aliases d) ->
     In (SQLite.al_entity_id a) (map SQLite.e_id (SQLite.tbl_entities d))) /\
  (forall s, In s (SQLite.tbl_statements d) ->
     In (SQLite.st_entity_id s) (map SQLite.e_id (SQLite.tbl_entities d)) /\
     In (SQLite.st_property_id s) (map SQLite.pr_id (SQLite.tbl_properties d))).

(** The AUTOINCREMENT keys: no key occurs twice, and none is above the
    last value handed out. *)
Definition rowids_fresh (d : SQLite.database) : Prop :=
  NoDup (map SQLite.al_id (SQLite.tbl_aliases d)) /\
  (forall a, In a (SQLite.tbl_aliases d) ->
     (SQLite.al_id a <= SQLite.seq_aliases d)%Z) /\
  NoDup (map SQLite.st_id (SQLite.tbl_statements d)) /\
  (forall s, In s (SQLite.tbl_statements d) ->
     (SQLite.st_id s <= SQLite.seq_statements d)%Z).

(** Whether [store_entity] commits a record when the engine does not
    fail: the key [entity_id] is looked up only for a non-empty alias or
    statement list. *)
Definition commits (r : EntityData) : bool :=
  match entity_id r with
  | Some _ => true
  | None =>
      match present_nonempty (aliases r), present_nonempty (statements r) with
      | None, None => true
      | _, _ => false
      end
  end.

(** What one [store_entity] call does to the database file when the
    engine does not fail. *)
Definition store_effect (d : SQLite.database) (r : EntityData) : SQLite.database :=
  if commits r then stored (get_or "" (entity_id r)) r d else d.

(* ===================================================================== *)
(** * main.py: analyze_data_size_impact                                   *)
(* ===================================================================== *)

Module Analysis.

(** What the function reads of the dictionary [get_database_stats]
    returns: three keys, each of which may be missing. *)
Record Stats := {
  entities_count : option Z;
  properties_count : option Z;
  statements_count : option Z
}.

(** The dictionary the handler puts in the place of both. *)
Definition zero_stats : Stats :=
  {| entities_count := Some 0%Z;
     properties_count := Some 0%Z;
     statements_count := Some 0%Z |}.

(** The dictionary returned. *)
Record Report := {
  sqlite_stats : Stats;
  tinydb_stats : Stats;
  performance : Harness.results
}.

Section Analysis.

(** The two storage objects, as in [Harness], with their
    [get_database_stats], which is not part of the sources either. [E]
    stands for the exceptions derived from [Exception]. *)
Variables SQ TD E : Type.
Variable sqlite_nlq : string -> SQ -> (E + list (string * string)) * SQ.
Variable tinydb_nlq : string -> TD -> (E + list (string * string)) * TD.
Variable now : nat -> Q.
Variable sqlite_get_database_stats : SQ -> (E + Stats) * SQ.
Variable tinydb_get_database_stats : TD -> (E + Stats) * TD.

(** What can be raised here: what the harness raises, and the
    [KeyError] of a subscript. *)
Inductive exn :=
| Raised (e : Harness.exn E)
| KeyError (key : string).

Definition A (X : Type) : Type :=
  Harness.world SQ TD E -> (exn + X) * Harness.world SQ TD E.

Definition ret {X} (x : X) : A X := fun w => (inr x, w).

Definition bind {X Y} (m : A X) (k : X -> A Y) : A Y :=
  fun w =>
    match m w with
    | (inr x, w') => k x w'
    | (inl e, w') => (inl e, w')
    end.

Definition raise {X} (e : exn) : A X := fun w => (inl e, w).

Notation "x <- m ;; k" := (bind m (fun x => k))
  (at level 61, m at next level, right associativity).

(** A step of the harness, run here. *)
Definition lift {X}
    (m : Harness.world SQ TD E -> (Harness.exn E + X) * Harness.world SQ TD E)
    : A X :=
  fun w =>
    match m w with
    | (inr x, w') => (inr x, w')
    | (inl e, w') => (inl (Raised e), w')
    end.

Definition get_database_stats (b : Harness.backend) : A Stats :=
  fun w =>
    match b with
    | Harness.SQLiteBackend =>
        let (r, s) := sqlite_get_database_stats (Harness.sqlite_storage w) in
        let w' := {| Harness.sqlite_storage := s;
                     Harness.tinydb_storage := Harness.tinydb_storage w;
                     Harness.clock_reads := Harness.clock_reads w;
                     Harness.calls := Harness.calls w |} in
        match r with
        | inr stats => (inr stats, w')
        | inl e => (inl (Raised (Harness.Propagated e)), w')
        end
    | Harness.TinyDBBackend =>
        let (r, s) := tinydb_get_database_stats (Harness.tinydb_storage w) in
        let w' := {| Harness.sqlite_storage := Harness.sqlite_storage w;
                     Harness.tinydb_storage := s;
                     Harness.clock_reads := Harness.clock_reads w;
                     Harness.calls := Harness.calls w |} in
        match r with
        | inr stats => (inr stats, w')
        | inl e => (inl (Raised (Harness.Propagated e)), w')
        end
    end.

(** [stats[key]]. *)
Definition subscript (field : option Z) (key : string) : A Z :=
  match field with
  | Some v => ret v
  | None => raise (KeyError key)
  end.

(** [try: body / except Exception as e: handler(e)]. *)
Definition try_except {X} (body : A X) (handler : exn -> A X) : A X :=
  fun w =>
    match body w with
    | (inr x, w') => (inr x, w')
    | (inl e, w') => handler e w'
    end.

(** The [try] block: both dictionaries are fetched, then the two lines
    that print them read the three keys of each. *)
Definition read_stats : A (Stats * Stats) :=
  try_except
    (sqlite_stats <- get_database_stats Harness.SQLiteBackend ;;
     tinydb_stats <- get_database_stats Harness.TinyDBBackend ;;
     _ <- subscript (entities_count sqlite_stats) "entities_count" ;;
     _ <- subscript (properties_count sqlite_stats) "properties_count" ;;
     _ <- subscript (statements_count sqlite_stats) "statements_count" ;;
     _ <- subscript (entities_count tinydb_stats) "entities_count" ;;
     _ <- subscript (properties_count tinydb_stats) "properties_count" ;;
     _ <- subscript (statements_count tinydb_stats) "statements_count" ;;
     ret (sqlite_stats, tinydb_stats))
    (fun _ => ret (zero_stats, zero_stats)).

(** [tinydb_avg_time / sqlite_avg_time if sqlite_avg_time > 0 else 0]. *)
Definition ratio (tinydb_avg_time sqlite_avg_time : Q) : A Q :=
  if Qlt_le_dec 0 sqlite_avg_time
  then lift (Harness.divide tinydb_avg_time sqlite_avg_time)
  else ret 0%Q.

Definition analyze_data_size_impact (queries : list string) (iterations : Z)
    : A Report :=
  stats <- read_stats ;;
  let sqlite_stats := fst stats in
  let tinydb_stats := snd stats in
  performance_results <-
    lift (Harness.run_performance_comparison sqlite_nlq tinydb_nlq now queries
            iterations) ;;
  _ <- (if ((0 <? get_or 0 (statements_count sqlite_stats))
            && (0 <? get_or 0 (statements_count tinydb_stats)))%Z
        then
          sqlite_avg_time <-
            lift (Harness.average (Harness.sqlite_times performance_results)) ;;
          tinydb_avg_time <-
            lift (Harness.average (Harness.tinydb_times performance_results)) ;;
          sqlite_count <-
            subscript (statements_count sqlite_stats) "statements_count" ;;
          _ <- lift (Harness.divide (sqlite_avg_time * 1000)
                       (inject_Z sqlite_count)) ;;
          tinydb_count <-
            subscript (statements_count tinydb_stats) "statements_count" ;;
          _ <- lift (Harness.divide (tinydb_avg_time * 1000)
                       (inject_Z tinydb_count)) ;;
          ratio tinydb_avg_time sqlite_avg_time
        else
          sqlite_avg_time <-
            lift (Harness.average (Harness.sqlite_times performance_results)) ;;
          tinydb_avg_time <-
            lift (Harness.average (Harness.tinydb_times performance_results)) ;;
          ratio tinydb_avg_time sqlite_avg_time) ;;
  ret {| sqlite_stats := sqlite_stats;
         tinydb_stats := tinydb_stats;
         performance := performance_results |}.

End Analysis.

Arguments Raised {E} e.
Arguments KeyError {E} key.
Arguments ret {SQ TD E X} x _.
Arguments bind {SQ TD E X Y} m k _.
Arguments raise {SQ TD E X} e _.
Arguments lift {SQ TD E X} m _.
Arguments get_database_stats {SQ TD E} sqlite_get_database_stats
  tinydb_get_database_stats b _.
Arguments subscript {SQ TD E} field key _.
Arguments try_except {SQ TD E X} body handler _.
Arguments read_stats {SQ TD E} sqlite_get_database_stats
  tinydb_get_database_stats _.
Arguments ratio {SQ TD E} tinydb_avg_time sqlite_avg_time _.
Arguments analyze_data_size_impact {SQ TD E} sqlite_nlq tinydb_nlq now
  sqlite_get_database_stats tinydb_get_database_stats queries iterations _.

End Analysis.

(* ===================================================================== *)
(** * main.py: the corpus of run_llm_comparison                           *)
(* ===================================================================== *)

Module Corpus.

(** [f"{result[0]} - {result[1]}"] for a result of at least two
    fields. *)
Definition format_result (result : list string) : option string :=
  match result with
  | first :: second :: _ => Some (first ++ " - " ++ second)
  | _ => None
  end.

(** [if text not in corpus: corpus.append(text)]. *)
Definition append_new (corpus : list string) (text : string) : list string :=
  if existsb (String.eqb text) corpus then corpus else (corpus ++ [text])%list.

(** The inner loop over the results of one question. *)
Fixpoint format_results (results : list (list string))
    (formatted_results corpus : list string) : list string * list string :=
  match results with
  | [] => (formatted_results, corpus)
  | result :: rest =>
      match format_result result with
      | Some text =>
          format_results rest (formatted_results ++ [text])%list
            (append_new corpus text)
      | None => format_results rest formatted_results corpus
      end
  end.

Definition additional_corpus : list string :=
  [ "中国的人口约为14亿";
    "中国首都是北京";
    "法国首都是巴黎";
    "法国的人口约为6700万";
    "美国首都是华盛顿";
    "美国的人口约为3.3亿";
    "印度的人口约为13.8亿";
    "印度首都是新德里";
    "日本首都是东京";
    "日本的人口约为1.26亿" ].

(** [if len(corpus) < 10:] the ten sentences are added, each unless it
    is there. *)
Definition pad (corpus : list string) : list string :=
  if (length corpus <? 10)%nat
  then fold_left append_new additional_corpus corpus
  else corpus.

Section Corpus.

(** The relational storage object and its [natural_language_query],
    which returns rows of any width here. *)
Variables SQ E : Type.
Variable natural_language_query :
  string -> SQ -> (E + list (list string)) * SQ.

(** [for i, query in enumerate(queries)]: [db_results] is the dictionary
    from the index of a question to its formatted results, in the order
    of insertion. *)
Fixpoint collect (i : nat) (queries : list string)
    (db_results : list (nat * list string)) (corpus : list string) (s : SQ)
    : (E + list (nat * list string) * list string) * SQ :=
  match queries with
  | [] => (inr (db_results, corpus), s)
  | query :: rest =>
      match natural_language_query query s with
      | (inl e, s') => (inl e, s')
      | (inr [], s') => collect (S i) rest db_results corpus s'
      | (inr results, s') =>
          let (formatted_results, corpus') :=
            format_results results [] corpus in
          collect (S i) rest (db_results ++ [(i, formatted_results)])%list
            corpus' s'
      end
  end.

(** Lines 152 to 189: the results of the questions and the corpus handed
    to the semantic search. *)
Definition build_corpus (queries : list string) (s : SQ)
    : (E + list (nat * list string) * list string) * SQ :=
  match collect 0 queries [] [] s with
  | (inr (db_results, corpus), s') => (inr (db_results, pad corpus), s')
  | (inl e, s') => (inl e, s')
  end.

End Corpus.

Arguments collect {SQ E} natural_language_query i queries db_results corpus s.
Arguments build_corpus {SQ E} natural_language_query queries s.

End Corpus.

(** A relational backend for the corpus: one row of two fields, one of
    one field, and the first again. *)
Definition rows_nlq (query : string) (s : unit)
    : (string + list (list string)) * unit :=
  if query =? "What is the capital of France?"
  then (inr [], s)
  else (inr [["人口"; "14亿"]; ["中国"]; ["人口"; "14亿"]], s).

(** Backends that report their statistics. *)
Definition sample_stats : Analysis.Stats :=
  {| Analysis.entities_count := Some 2%Z;
     Analysis.properties_count := Some 4%Z;
     Analysis.statements_count := Some 5%Z |}.

Definition steady_stats {S : Type} (s : S) : (string + Analysis.Stats) * S :=
  (inr sample_stats, s).

(** ** Search: what the statements about it are phrased with *)








(** ** Which calls of a sequence were committed *)

(** The records of a sequence of [store_entity] calls that were
    committed, read off what a caller observes: a call that returns
    without having printed a failure has committed its record; the
    sequence ends where a call raises. *)
Fixpoint committed (rs : list EntityData) (w : SQLite.world) : list EntityData :=
  match rs with
  | [] => []
  | r :: rs' =>
      match SQLite.store_entity r w with
      | (inl _, _) => []
      | (inr _, w') =>
          if (length (SQLite.printed w) <? length (SQLite.printed w'))%nat
          then committed rs' w'
          else r :: committed rs' w'
      end
  end.

(** [doc'] is [doc] updated with the record [r]: it carries every key
    of [r] with the value [r] gives it, and every other key of [doc]
    with the value it had. *)
Definition updated_with (r doc doc' : EntityData) : Prop :=
  let written {A} (field : EntityData -> option A) : Prop :=
    field doc' = match field r with Some v => Some v | None => field doc end in
  written entity_id /\ written label /\ written description /\
  written type /\ written aliases /\ written statements.

(** The reference [create_tables] declares from the entity a statement
    points to, [entity_value_id], to an entity row. *)
Definition value_references_resolve (d : SQLite.database) : Prop :=
  forall s ref,
    In s (SQLite.tbl_statements d) ->
    SQLite.st_entity_value_id s = Some ref ->
    In ref (map SQLite.e_id (SQLite.tbl_entities d)).

(* ===================================================================== *)
(** * Facts about text matching                                          *)
(* ===================================================================== *)













(* ===================================================================== *)
(** * Relational backend: runs in which no engine operation fails        *)
(* ===================================================================== *)

Lemma store_alias_ok (r : EntityData) (id : string) (a : Alias) d0 d tr :
  entity_id r = Some id ->
  SQLite.store_alias r a (SQLite.Build_world d0 (Some d) [] tr)
  = (inr tt,
     SQLite.Build_world d0
       (Some (SQLite.insert_alias id (get_or "" (a_value a))
                (get_or "" (a_language a)) d)) [] tr).
Proof. intros Hid. unfold SQLite.store_alias. rewrite Hid. reflexivity. Qed.

Lemma store_statement_ok (r : EntityData) (id : string) (s : Statement) d0 d tr :
  entity_id r = Some id ->
  SQLite.store_statement r s (SQLite.Build_world d0 (Some d) [] tr)
  = (inr tt, SQLite.Build_world d0 (Some (apply_statement id d s)) [] tr).
Proof.
  intros Hid. unfold SQLite.store_statement, apply_statement.
  destruct (s_property s) as [p|]; rewrite ?Hid; reflexivity.
Qed.

Lemma for_each_store_alias_ok (r : EntityData) (id : string) (al : list Alias) :
  entity_id r = Some id ->
  forall d0 d tr,
    SQLite.for_each al (SQLite.store_alias r)
      (SQLite.Build_world d0 (Some d) [] tr)
    = (inr tt, SQLite.Build_world d0 (Some (apply_aliases id al d)) [] tr).
Proof.
  intros Hid. induction al as [|a al IH]; intros d0 d tr.
  - reflexivity.
  - cbn [SQLite.for_each]. unfold SQLite.bind at 1.
    rewrite (store_alias_ok r id a d0 d tr Hid). apply IH.
Qed.

Lemma for_each_store_statement_ok (r : EntityData) (id : string)
    (sl : list Statement) :
  entity_id r = Some id ->
  forall d0 d tr,
    SQLite.for_each sl (SQLite.store_statement r)
      (SQLite.Build_world d0 (Some d) [] tr)
    = (inr tt, SQLite.Build_world d0 (Some (apply_statements id sl d)) [] tr).
Proof.
  intros Hid. induction sl as [|s sl IH]; intros d0 d tr.
  - reflexivity.
  - cbn [SQLite.for_each]. unfold SQLite.bind at 1.
    rewrite (store_statement_ok r id s d0 d tr Hid). apply IH.
Qed.

(** Without a fault, storing a record that has an [entity_id] commits
    the view [stored] describes. *)
Lemma store_entity_ok (r : EntityData) (id : string) d0 c tr :
  entity_id r = Some id ->
  SQLite.store_entity r (SQLite.Build_world d0 c [] tr)
  = (inr tt,
     SQLite.Build_world (stored id r d0) None []
       (tr ++ [SQLite.EvConnect] ++ [SQLite.EvCommit] ++ [SQLite.EvClose])).
Proof.
  intros Hid.
  unfold SQLite.store_entity, SQLite.bind at 1, SQLite.connect,
    SQLite.try_except_finally, SQLite.store_entity_try, stored.
  unfold SQLite.bind at 1. simpl SQLite.execute_update at 1.
  rewrite Hid. simpl get_or.
  unfold SQLite.execute_update at 1. unfold SQLite.bind at 1. simpl.
  destruct (present_nonempty (aliases r)) as [al|],
           (present_nonempty (statements r)) as [sl|]; simpl;
    unfold SQLite.bind; simpl;
    rewrite ?(for_each_store_alias_ok r id _ Hid); simpl;
    rewrite ?(for_each_store_statement_ok r id _ Hid); simpl;
    rewrite <- ?app_assoc; reflexivity.
Qed.

(** Without a fault, [get_entity_by_id] returns what the tables hold. *)
Lemma get_entity_by_id_ok (id : string) d0 c tr :
  SQLite.get_entity_by_id id (SQLite.Build_world d0 c [] tr)
  = (inr (lookup_entity id d0),
     SQLite.Build_world d0 None [] (tr ++ [SQLite.EvConnect] ++ [SQLite.EvClose])).
Proof.
  unfold SQLite.get_entity_by_id, SQLite.bind at 1, SQLite.connect,
    SQLite.try_except_finally, SQLite.get_entity_by_id_try, lookup_entity.
  unfold SQLite.bind, SQLite.execute_query, SQLite.fetchone, SQLite.fetchall,
    SQLite.bind. simpl.
  destruct (SQLite.select_entity id d0) as [|row rows]; simpl;
    rewrite <- ?app_assoc; reflexivity.
Qed.


Lemma bind_integer_overflows (n : Z) (w : SQLite.world) :
  (n < - 2 ^ 63 \/ 2 ^ 63 <= n)%Z ->
  SQLite.bind_integer n w = (inl SQLite.OverflowError, w).
Proof.
  intros Hn. unfold SQLite.bind_integer.
  replace ((- 2 ^ 63 <=? n)%Z && (n <? 2 ^ 63)%Z) with false; [reflexivity |].
  symmetry. apply andb_false_iff.
  destruct Hn; [left; apply Z.leb_gt | right; apply Z.ltb_ge]; lia.
Qed.


(* ===================================================================== *)
(** * Relational backend: the properties table                           *)
(* ===================================================================== *)

Lemma find_app_first {A} (f : A -> bool) (l1 l2 : list A) :
  find f (l1 ++ l2)
  = match find f l1 with Some x => Some x | None => find f l2 end.
Proof.
  induction l1 as [|x l1 IH]; simpl; [reflexivity |].
  destruct (f x); [reflexivity | exact IH].
Qed.

Lemma find_filter_other (pid p : string) (ps : list SQLite.property_row) :
  find (fun r => SQLite.pr_id r =? pid)
    (filter (fun r => negb (SQLite.pr_id r =? p)) ps)
  = if p =? pid then None else find (fun r => SQLite.pr_id r =? pid) ps.
Proof.
  induction ps as [|r ps IH]; simpl.
  - now destruct (p =? pid).
  - destruct (SQLite.pr_id r =? p) eqn:Erp; simpl.
    + apply String.eqb_eq in Erp. rewrite IH, Erp.
      destruct (p =? pid); reflexivity.
    + rewrite IH. destruct (SQLite.pr_id r =? pid) eqn:Er; [| reflexivity].
      apply String.eqb_eq in Er. subst pid.
      rewrite String.eqb_sym, Erp. reflexivity.
Qed.

Lemma label_in_replace (pid p l : string) (ps : list SQLite.property_row) :
  label_in pid (SQLite.replace_property p l ps)
  = if p =? pid then Some l else label_in pid ps.
Proof.
  unfold label_in, SQLite.replace_property.
  rewrite find_app_first, find_filter_other. simpl.
  destruct (p =? pid); [reflexivity |].
  destruct (find _ ps); reflexivity.
Qed.

(** The table holds, for each property id, the label of the last pair
    that mentioned it, and what it held before for the others. *)
Lemma label_in_props_after (pid : string) (ms : list (string * string)) :
  forall ps,
    label_in pid (props_after ms ps)
    = match last_label ms pid with
      | Some l => Some l
      | None => label_in pid ps
      end.
Proof.
  induction ms as [|[p l] ms IH]; intros ps; simpl; [reflexivity |].
  change (props_after ((p, l) :: ms) ps)
    with (props_after ms (SQLite.replace_property p l ps)).
  rewrite IH, label_in_replace.
  destruct (last_label ms pid); [reflexivity |].
  destruct (p =? pid); reflexivity.
Qed.

Lemma props_after_app (ms1 ms2 : list (string * string)) ps :
  props_after (ms1 ++ ms2) ps = props_after ms2 (props_after ms1 ps).
Proof. unfold props_after. apply fold_left_app. Qed.

Lemma in_map_filter_id (p : string) (ps : list SQLite.property_row) (x : string) :
  In x (map SQLite.pr_id (filter (fun r => negb (SQLite.pr_id r =? p)) ps)) ->
  In x (map SQLite.pr_id ps) /\ x <> p.
Proof.
  rewrite !in_map_iff. intros (r & <- & Hin). apply filter_In in Hin as [Hin Hne].
  split; [exists r; now split |].
  apply negb_true_iff in Hne. now apply String.eqb_neq.
Qed.

Lemma NoDup_map_filter {A B} (f : A -> B) (g : A -> bool) (l : list A) :
  NoDup (map f l) -> NoDup (map f (filter g l)).
Proof.
  induction l as [|x l IH]; simpl; intros H; [constructor |].
  inversion H as [|? ? Hx Hl]; subst.
  destruct (g x); simpl; [| now apply IH].
  constructor; [| now apply IH].
  intros Hin. apply Hx. apply in_map_iff in Hin as (y & E & Hy).
  apply filter_In in Hy as [Hy _]. apply in_map_iff. now exists y.
Qed.

Lemma unique_replace_property (p l : string) (ps : list SQLite.property_row) :
  NoDup (map SQLite.pr_id ps) ->
  NoDup (map SQLite.pr_id (SQLite.replace_property p l ps)).
Proof.
  intros H. unfold SQLite.replace_property. rewrite map_app. apply NoDup_app.
  - now apply NoDup_map_filter.
  - simpl. constructor; [intros [] | constructor].
  - intros x Hx [Hp | []]. simpl in Hp.
    apply in_map_filter_id in Hx as [_ Hne]. congruence.
Qed.

Lemma unique_props_after (ms : list (string * string)) :
  forall ps, NoDup (map SQLite.pr_id ps) ->
             NoDup (map SQLite.pr_id (props_after ms ps)).
Proof.
  induction ms as [|[p l] ms IH]; intros ps H; [exact H |].
  apply IH. now apply unique_replace_property.
Qed.

Lemma filter_absent_property (pid : string) (ps : list SQLite.property_row) :
  ~ In pid (map SQLite.pr_id ps) ->
  filter (fun p => pid =? SQLite.pr_id p) ps = [].
Proof.
  induction ps as [|r ps IH]; simpl; intros H; [reflexivity |].
  destruct (pid =? SQLite.pr_id r) eqn:E.
  - apply String.eqb_eq in E. exfalso. apply H. now left.
  - apply IH. intros Hin. apply H. now right.
Qed.

(** With unique keys, the join of a statement with the properties table
    finds exactly the row [label_in] finds. *)
Lemma filter_unique_property (pid l : string) (ps : list SQLite.property_row) :
  NoDup (map SQLite.pr_id ps) ->
  label_in pid ps = Some l ->
  filter (fun p => pid =? SQLite.pr_id p) ps
  = [{| SQLite.pr_id := pid; SQLite.pr_label := l |}].
Proof.
  unfold label_in. induction ps as [|r ps IH]; simpl; intros Hnd Hl.
  - discriminate.
  - inversion Hnd as [|? ? Hr Hps]; subst.
    rewrite (String.eqb_sym pid). destruct (SQLite.pr_id r =? pid) eqn:Er.
    + apply String.eqb_eq in Er. injection Hl as Hl.
      rewrite (filter_absent_property pid ps) by (now rewrite <- Er).
      destruct r as [rid rl]; simpl in *. now subst.
    + now apply IH.
Qed.

(* ===================================================================== *)
(** * Relational backend: what a committed store leaves in the tables    *)
(* ===================================================================== *)

Lemma apply_aliases_tables (id : string) (al : list Alias) :
  forall d,
    SQLite.tbl_entities (apply_aliases id al d) = SQLite.tbl_entities d /\
    SQLite.tbl_properties (apply_aliases id al d) = SQLite.tbl_properties d /\
    SQLite.tbl_statements (apply_aliases id al d) = SQLite.tbl_statements d.
Proof.
  induction al as [|a al IH]; intros d; [now repeat split |].
  change (apply_aliases id (a :: al) d)
    with (apply_aliases id al
            (SQLite.insert_alias id (get_or "" (a_value a))
               (get_or "" (a_language a)) d)).
  destruct (IH (SQLite.insert_alias id (get_or "" (a_value a))
                  (get_or "" (a_language a)) d)) as (E1 & E2 & E3).
  now rewrite E1, E2, E3.
Qed.

Lemma select_aliases_apply (id : string) (al : list Alias) :
  forall d,
    SQLite.select_aliases id (apply_aliases id al d)
    = (SQLite.select_aliases id d ++ map alias_view al)%list.
Proof.
  induction al as [|a al IH]; intros d.
  - simpl. now rewrite app_nil_r.
  - change (apply_aliases id (a :: al) d)
      with (apply_aliases id al
              (SQLite.insert_alias id (get_or "" (a_value a))
                 (get_or "" (a_language a)) d)).
    rewrite IH. unfold SQLite.select_aliases at 1. simpl SQLite.tbl_aliases.
    rewrite filter_app, map_app. simpl. rewrite String.eqb_refl. simpl.
    rewrite <- app_assoc. reflexivity.
Qed.

Lemma filter_neg_then_pos {A} (f : A -> bool) (l : list A) :
  filter f (filter (fun x => negb (f x)) l) = [].
Proof.
  induction l as [|x l IH]; simpl; [reflexivity |].
  destruct (f x) eqn:E; simpl; [exact IH | now rewrite E].
Qed.

Lemma filter_none {A} (f : A -> bool) (l : list A) :
  (forall x, In x l -> f x = false) -> filter f l = [].
Proof.
  induction l as [|x l IH]; simpl; intros H; [reflexivity |].
  rewrite (H x) by now left. apply IH. intros y Hy. apply H. now right.
Qed.

Lemma apply_statement_tables (id : string) (s : Statement) d :
  SQLite.tbl_entities (apply_statement id d s) = SQLite.tbl_entities d /\
  SQLite.tbl_aliases (apply_statement id d s) = SQLite.tbl_aliases d.
Proof. unfold apply_statement. destruct (s_property s); now split. Qed.

Lemma apply_statements_tables (id : string) (sl : list Statement) :
  forall d,
    SQLite.tbl_entities (apply_statements id sl d) = SQLite.tbl_entities d /\
    SQLite.tbl_aliases (apply_statements id sl d) = SQLite.tbl_aliases d.
Proof.
  induction sl as [|s sl IH]; intros d; [now split |].
  change (apply_statements id (s :: sl) d)
    with (apply_statements id sl (apply_statement id d s)).
  destruct (IH (apply_statement id d s)) as (E1 & E2).
  destruct (apply_statement_tables id s d) as (F1 & F2).
  now rewrite E1, E2, F1, F2.
Qed.

Lemma apply_statements_properties (id : string) (sl : list Statement) :
  forall d,
    SQLite.tbl_properties (apply_statements id sl d)
    = props_after (statement_mentions sl) (SQLite.tbl_properties d).
Proof.
  induction sl as [|s sl IH]; intros d; [reflexivity |].
  change (apply_statements id (s :: sl) d)
    with (apply_statements id sl (apply_statement id d s)).
  rewrite IH. unfold statement_mentions. simpl flat_map.
  fold (statement_mentions sl). rewrite props_after_app.
  unfold apply_statement. destruct (s_property s); reflexivity.
Qed.

(** The statement rows of [id] after the loop, joined with any
    properties table [ps] that holds the record's label for each of its
    property ids, read as the record's statements. *)
Lemma joined_statements_apply (id : string) (ps : list SQLite.property_row)
    (sl : list Statement) :
  (forall s p, In s sl -> s_property s = Some p ->
     filter (fun r => get_or "" (property_id p) =? SQLite.pr_id r) ps
     = [{| SQLite.pr_id := get_or "" (property_id p);
           SQLite.pr_label := get_or "" (p_label p) |}]) ->
  (forall s, In s sl -> s_property s <> None) ->
  refs_nonempty sl ->
  forall d,
    map statement_out_view
      (map SQLite.statement_of_row
         (flat_map (SQLite.join_properties ps)
            (filter (fun s => SQLite.st_entity_id s =? id)
               (SQLite.tbl_statements (apply_statements id sl d)))))
    = (map statement_out_view
         (map SQLite.statement_of_row
            (flat_map (SQLite.join_properties ps)
               (filter (fun s => SQLite.st_entity_id s =? id)
                  (SQLite.tbl_statements d))))
       ++ map statement_view sl)%list.
Proof.
  induction sl as [|s sl IH]; intros Hps Hprop Href d.
  - simpl. now rewrite app_nil_r.
  - change (apply_statements id (s :: sl) d)
      with (apply_statements id sl (apply_statement id d s)).
    rewrite IH.
    + destruct (s_property s) as [p|] eqn:Ep;
        [| exfalso; apply (Hprop s); [now left | exact Ep]].
      unfold apply_statement. rewrite Ep. simpl SQLite.tbl_statements.
      rewrite filter_app, flat_map_app, !map_app. simpl filter.
      rewrite String.eqb_refl. simpl flat_map.
      unfold SQLite.join_properties at 2. simpl SQLite.st_property_id.
      rewrite (Hps s p (or_introl eq_refl) Ep). simpl.
      rewrite <- app_assoc. f_equal. simpl. f_equal.
      unfold statement_out_view, statement_view. simpl. rewrite Ep. simpl.
      f_equal. unfold truthy_ref.
      destruct (s_entity_id s) as [v|] eqn:Ev; [| reflexivity].
      destruct v; [| reflexivity].
      exfalso. apply (Href s); [now left | exact Ev].
    + intros s' p Hin. apply Hps. now right.
    + intros s' Hin. apply Hprop. now right.
    + intros s' Hin. apply Href. now right.
Qed.

Lemma last_label_mentioned (ms : list (string * string)) (pid l : string) :
  last_label ms pid = Some l -> In (pid, l) ms.
Proof.
  induction ms as [|[p l'] ms IH]; simpl; [discriminate |].
  destruct (last_label ms pid) as [l0|].
  - intros E. injection E as ->. right. now apply IH.
  - destruct (p =? pid) eqn:E; [| discriminate].
    apply String.eqb_eq in E. intros E'. injection E' as ->. left. now subst.
Qed.

Lemma mentioned_has_label (ms : list (string * string)) (pid l : string) :
  In (pid, l) ms -> last_label ms pid <> None.
Proof.
  induction ms as [|[p l'] ms IH]; simpl; [intros [] |].
  intros [E | Hin].
  - injection E as -> ->. rewrite String.eqb_refl.
    destruct (last_label ms pid); discriminate.
  - specialize (IH Hin). destruct (last_label ms pid); [discriminate | congruence].
Qed.

Lemma in_statement_mentions (sl : list Statement) (pid l : string) :
  In (pid, l) (statement_mentions sl) <->
  exists s p, In s sl /\ s_property s = Some p /\
              get_or "" (property_id p) = pid /\ get_or "" (p_label p) = l.
Proof.
  unfold statement_mentions. rewrite in_flat_map. split.
  - intros (s & Hin & H). destruct (s_property s) as [p|] eqn:Ep; [| destruct H].
    destruct H as [E | []]. injection E as <- <-. now exists s, p.
  - intros (s & p & Hin & Ep & <- & <-). exists s. split; [exact Hin |].
    rewrite Ep. now left.
Qed.

(** When the labels of a record are consistent, the last label of each
    of its property ids is the label every statement gives it. *)
Lemma last_label_functional (sl : list Statement) (s : Statement) (p : Property) :
  labels_functional sl ->
  In s sl -> s_property s = Some p ->
  last_label (statement_mentions sl) (get_or "" (property_id p))
  = Some (get_or "" (p_label p)).
Proof.
  intros Hf Hin Ep.
  destruct (last_label (statement_mentions sl) (get_or "" (property_id p)))
    as [l|] eqn:El.
  - apply last_label_mentioned in El.
    apply in_statement_mentions in El as (s' & p' & Hin' & Ep' & Eid & <-).
    f_equal. apply (Hf s' s p' p Hin' Hin Ep' Ep Eid).
  - exfalso.
    apply (mentioned_has_label (statement_mentions sl)
             (get_or "" (property_id p)) (get_or "" (p_label p))); [| exact El].
    apply in_statement_mentions. now exists s, p.
Qed.

Lemma stored_entities (id : string) (r : EntityData) d :
  SQLite.tbl_entities (stored id r d)
  = (filter (fun x => negb (SQLite.e_id x =? id)) (SQLite.tbl_entities d)
     ++ [{| SQLite.e_id := id;
            SQLite.e_label := get_or "" (label r);
            SQLite.e_description := get_or "" (description r);
            SQLite.e_type := get_or "" (type r) |}])%list.
Proof.
  unfold stored.
  destruct (present_nonempty (statements r)) as [sl|],
           (present_nonempty (aliases r)) as [al|];
    rewrite ?(proj1 (apply_statements_tables id _ _)); simpl;
    rewrite ?(proj1 (apply_aliases_tables id _ _)); reflexivity.
Qed.

Lemma select_entity_stored (id : string) (r : EntityData) d :
  SQLite.select_entity id (stored id r d)
  = [{| SQLite.e_id := id;
        SQLite.e_label := get_or "" (label r);
        SQLite.e_description := get_or "" (description r);
        SQLite.e_type := get_or "" (type r) |}].
Proof.
  unfold SQLite.select_entity. rewrite stored_entities, filter_app.
  rewrite (filter_neg_then_pos (fun x => SQLite.e_id x =? id)).
  simpl. now rewrite String.eqb_refl.
Qed.

Lemma stored_aliases (id : string) (r : EntityData) d :
  SQLite.tbl_aliases (stored id r d)
  = match present_nonempty (aliases r) with
    | Some al =>
        SQLite.tbl_aliases (apply_aliases id al (SQLite.delete_aliases id d))
    | None => SQLite.tbl_aliases d
    end.
Proof.
  unfold stored.
  assert (Hal : forall al d1 d2,
             SQLite.tbl_aliases d1 = SQLite.tbl_aliases d2 ->
             SQLite.seq_aliases d1 = SQLite.seq_aliases d2 ->
             SQLite.tbl_aliases (apply_aliases id al d1)
             = SQLite.tbl_aliases (apply_aliases id al d2)).
  { induction al as [|a al IH]; intros d1 d2 E1 E2; [exact E1 |].
    apply IH; simpl; now rewrite ?E1, ?E2. }
  destruct (present_nonempty (statements r)) as [sl|],
           (present_nonempty (aliases r)) as [al|];
    rewrite ?(proj2 (apply_statements_tables id _ _)); simpl;
    try reflexivity; now apply Hal.
Qed.

(** A non-empty alias list replaces the alias rows of the entity. *)
Lemma select_aliases_stored_new (id : string) (r : EntityData) d al :
  present_nonempty (aliases r) = Some al ->
  SQLite.select_aliases id (stored id r d) = map alias_view al.
Proof.
  intros Hal.
  assert (E : SQLite.select_aliases id (stored id r d)
              = SQLite.select_aliases id
                  (apply_aliases id al (SQLite.delete_aliases id d))).
  { unfold SQLite.select_aliases. now rewrite stored_aliases, Hal. }
  rewrite E, select_aliases_apply. unfold SQLite.select_aliases at 1.
  simpl SQLite.tbl_aliases.
  now rewrite (filter_neg_then_pos (fun a => SQLite.al_entity_id a =? id)).
Qed.

(** An absent or empty alias list leaves the alias rows as they were. *)
Lemma select_aliases_stored_kept (id : string) (r : EntityData) d :
  present_nonempty (aliases r) = None ->
  SQLite.select_aliases id (stored id r d) = SQLite.select_aliases id d.
Proof.
  intros Hal. unfold SQLite.select_aliases. now rewrite stored_aliases, Hal.
Qed.

Lemma stored_properties (id : string) (r : EntityData) d :
  SQLite.tbl_properties (stored id r d)
  = match present_nonempty (statements r) with
    | Some sl => props_after (statement_mentions sl) (SQLite.tbl_properties d)
    | None => SQLite.tbl_properties d
    end.
Proof.
  unfold stored.
  destruct (present_nonempty (statements r)) as [sl|],
           (present_nonempty (aliases r)) as [al|];
    rewrite ?apply_statements_properties; simpl;
    rewrite ?(proj1 (proj2 (apply_aliases_tables id _ _))); reflexivity.
Qed.

Lemma stored_statements_kept (id : string) (r : EntityData) d :
  present_nonempty (statements r) = None ->
  SQLite.tbl_statements (stored id r d) = SQLite.tbl_statements d.
Proof.
  intros Hsl. unfold stored. rewrite Hsl.
  destruct (present_nonempty (aliases r)) as [al|]; simpl;
    rewrite ?(proj2 (proj2 (apply_aliases_tables id _ _))); reflexivity.
Qed.

(** An absent or empty statement list leaves the statements of the
    entity as they were. *)
Lemma select_statements_stored_kept (id : string) (r : EntityData) d :
  present_nonempty (statements r) = None ->
  SQLite.select_statements id (stored id r d) = SQLite.select_statements id d.
Proof.
  intros Hsl. unfold SQLite.select_statements.
  now rewrite stored_properties, Hsl, stored_statements_kept.
Qed.

(** A non-empty statement list replaces the statements of the entity. *)
Lemma select_statements_stored_new (id : string) (r : EntityData) d sl :
  present_nonempty (statements r) = Some sl ->
  unique_properties d ->
  (forall s, In s sl -> s_property s <> None) ->
  labels_functional sl ->
  refs_nonempty sl ->
  map statement_out_view
    (map SQLite.statement_of_row (SQLite.select_statements id (stored id r d)))
  = map statement_view sl.
Proof.
  intros Hsl Hu Hprop Hf Href. unfold SQLite.select_statements.
  rewrite stored_properties, Hsl.
  set (ps := props_after (statement_mentions sl) (SQLite.tbl_properties d)).
  unfold stored. rewrite Hsl.
  rewrite (joined_statements_apply id ps sl); try assumption.
  - simpl SQLite.tbl_statements.
    now rewrite (filter_neg_then_pos (fun s => SQLite.st_entity_id s =? id)).
  - intros s p Hin Ep. apply filter_unique_property.
    + now apply unique_props_after.
    + unfold ps. rewrite label_in_props_after.
      now rewrite (last_label_functional sl s p Hf Hin Ep).
Qed.

Lemma unique_properties_stored (id : string) (r : EntityData) d :
  unique_properties d -> unique_properties (stored id r d).
Proof.
  unfold unique_properties. intros H. rewrite stored_properties.
  destruct (present_nonempty (statements r)); [now apply unique_props_after | exact H].
Qed.

Lemma well_formed_id (r : EntityData) (id : string) :
  well_formed r = true -> entity_id r = Some id ->
  truthy_ref (entity_id r) = Some id.
Proof.
  unfold well_formed, truthy_ref. intros H E. rewrite E in *.
  apply andb_true_iff in H as [H _]. now rewrite H.
Qed.

Lemma well_formed_properties (r : EntityData) (sl : list Statement) :
  well_formed r = true -> statements r = Some sl ->
  forall s, In s sl -> s_property s <> None.
Proof.
  unfold well_formed. intros H E s Hin. rewrite E in H.
  apply andb_true_iff in H as [_ H]. simpl in H.
  rewrite forallb_forall in H. specialize (H s Hin).
  destruct (s_property s); [discriminate | discriminate].
Qed.

Lemma present_nonempty_some {A} (l : list A) :
  l <> [] -> present_nonempty (Some l) = Some l.
Proof. destruct l; [congruence | reflexivity]. Qed.

(* ===================================================================== *)
(** * Document backend: storing and reading back                         *)
(* ===================================================================== *)

Lemma truthy_ref_some (o : option string) (id : string) :
  truthy_ref o = Some id -> o = Some id.
Proof.
  unfold truthy_ref. destruct o as [v|]; [| discriminate].
  destruct (truthy v); [congruence | discriminate].
Qed.

Lemma entity_id_is_update (id : string) (doc r : EntityData) :
  entity_id r = Some id ->
  TinyDB.entity_id_is id (TinyDB.dict_update doc r) = true.
Proof.
  intros E. unfold TinyDB.entity_id_is, TinyDB.dict_update. simpl.
  rewrite E. apply String.eqb_refl.
Qed.

Lemma table_get_update (id : string) (r : EntityData) (t : TinyDB.Table) :
  entity_id r = Some id ->
  TinyDB.table_get (TinyDB.entity_id_is id)
    (TinyDB.table_update r (TinyDB.entity_id_is id) t)
  = match TinyDB.table_get (TinyDB.entity_id_is id) t with
    | Some doc => Some (TinyDB.dict_update doc r)
    | None => None
    end.
Proof.
  intros E. unfold TinyDB.table_get, TinyDB.table_update.
  induction t as [|doc t IH]; simpl; [reflexivity |].
  destruct (TinyDB.entity_id_is id doc) eqn:Ed.
  - now rewrite (entity_id_is_update id doc r E).
  - rewrite Ed. exact IH.
Qed.

Lemma table_get_insert (id : string) (r : EntityData) (t : TinyDB.Table) :
  entity_id r = Some id ->
  TinyDB.table_get (TinyDB.entity_id_is id) t = None ->
  TinyDB.table_get (TinyDB.entity_id_is id) (TinyDB.table_insert r t) = Some r.
Proof.
  intros E Hn. unfold TinyDB.table_get, TinyDB.table_insert in *.
  rewrite find_app_first, Hn. simpl. unfold TinyDB.entity_id_is.
  now rewrite E, String.eqb_refl.
Qed.

(** Reading back right after a store: the stored record, laid over the
    document that was there. *)
Lemma tinydb_get_after_store (r : EntityData) (id : string) (w : TinyDB.world) :
  truthy_ref (entity_id r) = Some id ->
  TinyDB.get_entity_by_id id (TinyDB.store_entity r w)
  = Some match TinyDB.get_entity_by_id id w with
         | Some doc => TinyDB.dict_update doc r
         | None => r
         end.
Proof.
  intros Ht. pose proof (truthy_ref_some _ _ Ht) as E.
  unfold TinyDB.get_entity_by_id, TinyDB.store_entity. rewrite Ht.
  destruct (TinyDB.table_get (TinyDB.entity_id_is id) (TinyDB.entities w))
    as [doc|] eqn:Eg; simpl.
  - now rewrite (table_get_update id r _ E), Eg.
  - now apply table_get_insert.
Qed.

Lemma dict_update_complete (doc r : EntityData) :
  complete r = true -> TinyDB.dict_update doc r = r.
Proof.
  unfold complete, TinyDB.dict_update. destruct r as [i l d t a s]; simpl.
  destruct i, l, d, t, a, s; try discriminate. reflexivity.
Qed.

(* ===================================================================== *)
(** * Storing twice, and storing then reading back                       *)
(* ===================================================================== *)

(** The relational backend after two committed stores of the same id. *)
Lemma sqlite_get_after_two_stores (r1 r2 : EntityData) (id : string) d0 :
  entity_id r1 = Some id -> entity_id r2 = Some id ->
  fst (SQLite.get_entity_by_id id
         (snd (SQLite.store_entity r2
                 (snd (SQLite.store_entity r1 (SQLite.fresh d0 []))))))
  = inr (lookup_entity id (stored id r2 (stored id r1 d0))).
Proof.
  intros E1 E2. unfold SQLite.fresh.
  rewrite (store_entity_ok r1 id d0 None [] E1). cbn [snd].
  rewrite (store_entity_ok r2 id _ None _ E2). cbn [snd].
  now rewrite get_entity_by_id_ok.
Qed.

Lemma sqlite_get_after_store (r : EntityData) (id : string) d0 :
  entity_id r = Some id ->
  fst (SQLite.get_entity_by_id id
         (snd (SQLite.store_entity r (SQLite.fresh d0 []))))
  = inr (lookup_entity id (stored id r d0)).
Proof.
  intros E. unfold SQLite.fresh.
  rewrite (store_entity_ok r id d0 None [] E). cbn [snd].
  now rewrite get_entity_by_id_ok.
Qed.

Lemma map_alias_out_view (rows : list (string * string)) :
  map alias_out_view
    (map (fun a => {| SQLite.ao_value := fst a; SQLite.ao_language := snd a |}) rows)
  = rows.
Proof.
  induction rows as [|[v l] rows IH]; simpl; [reflexivity | now rewrite IH].
Qed.

(** C1 (amended). Upsert replaces: when the second of two well-formed
    records with the same [entity_id] carries an alias list and a
    statement list, reading the entity back gives exactly the second
    record's aliases and statements. The document backend does so for
    any two lists that are present; the relational backend when both
    lists are non-empty, every property id of the record has one label
    and referenced entities have non-empty ids. A list whose key is
    absent from the second record leaves the stored list in place, in
    both backends: reading the entity back gives the aliases, or the
    statements, that were read back before the second store. *)
Theorem C1_upsert_replaces
    (r1 r2 : EntityData) (id : string)
    (w : TinyDB.world) (d0 : SQLite.database) :
  well_formed r1 = true -> well_formed r2 = true ->
  entity_id r1 = Some id -> entity_id r2 = Some id ->
  (forall al sl,
     aliases r2 = Some al -> statements r2 = Some sl ->
     (exists doc,
         TinyDB.get_entity_by_id id
           (TinyDB.store_entity r2 (TinyDB.store_entity r1 w)) = Some doc /\
         aliases doc = Some al /\ statements doc = Some sl)
     /\
     (al <> [] -> sl <> [] ->
      unique_properties d0 -> labels_functional sl -> refs_nonempty sl ->
      exists e,
        fst (SQLite.get_entity_by_id id
               (snd (SQLite.store_entity r2
                       (snd (SQLite.store_entity r1 (SQLite.fresh d0 []))))))
        = inr (Some e) /\
        map alias_out_view (SQLite.r_aliases e) = map alias_view al /\
        map statement_out_view (SQLite.r_statements e) = map statement_view sl))
  /\
  (exists doc1 doc2,
      TinyDB.get_entity_by_id id (TinyDB.store_entity r1 w) = Some doc1 /\
      TinyDB.get_entity_by_id id
        (TinyDB.store_entity r2 (TinyDB.store_entity r1 w)) = Some doc2 /\
      (aliases r2 = None -> aliases doc2 = aliases doc1) /\
      (statements r2 = None -> statements doc2 = statements doc1))
  /\
  (exists e1 e2,
      fst (SQLite.get_entity_by_id id
             (snd (SQLite.store_entity r1 (SQLite.fresh d0 []))))
      = inr (Some e1) /\
      fst (SQLite.get_entity_by_id id
             (snd (SQLite.store_entity r2
                     (snd (SQLite.store_entity r1 (SQLite.fresh d0 []))))))
      = inr (Some e2) /\
      (aliases r2 = None -> SQLite.r_aliases e2 = SQLite.r_aliases e1) /\
      (statements r2 = None ->
       SQLite.r_statements e2 = SQLite.r_statements e1)).
Proof.
  intros W1 W2 E1 E2. split; [| split].
  - intros al sl Hal Hsl. split.
    + rewrite (tinydb_get_after_store r2 id _ (well_formed_id r2 id W2 E2)).
      eexists. split; [reflexivity |].
      destruct (TinyDB.get_entity_by_id id (TinyDB.store_entity r1 w)) as [doc|].
      * unfold TinyDB.dict_update. simpl. now rewrite Hal, Hsl.
      * now split.
    + intros Nal Nsl Hu Hf Href.
      rewrite (sqlite_get_after_two_stores r1 r2 id d0 E1 E2).
      unfold lookup_entity. rewrite select_entity_stored.
      eexists. split; [reflexivity |].
      cbn [SQLite.r_aliases SQLite.r_statements].
      split.
      * rewrite map_alias_out_view. apply select_aliases_stored_new.
        rewrite Hal. now apply present_nonempty_some.
      * apply select_statements_stored_new; try assumption.
        -- rewrite Hsl. now apply present_nonempty_some.
        -- now apply unique_properties_stored.
        -- now apply (well_formed_properties r2 sl W2 Hsl).
  - rewrite (tinydb_get_after_store r2 id _ (well_formed_id r2 id W2 E2)).
    rewrite (tinydb_get_after_store r1 id _ (well_formed_id r1 id W1 E1)).
    eexists. eexists. split; [reflexivity |]. split; [reflexivity |].
    unfold TinyDB.dict_update. simpl.
    split; intros H; now rewrite H.
  - rewrite (sqlite_get_after_store r1 id d0 E1).
    rewrite (sqlite_get_after_two_stores r1 r2 id d0 E1 E2).
    unfold lookup_entity. rewrite !select_entity_stored.
    eexists. eexists. split; [reflexivity |]. split; [reflexivity |].
    cbn [SQLite.r_aliases SQLite.r_statements].
    split; intros H.
    + rewrite select_aliases_stored_kept by now rewrite H. reflexivity.
    + rewrite select_statements_stored_kept by now rewrite H. reflexivity.
Qed.

Lemma sample_Q148_v2_functional :
  labels_functional [mk_statement "P30" "continent" "Asia" (Some "Q48")].
Proof.
  intros s1 s2 p1 p2 [<- | []] [<- | []] H1 H2 _.
  injection H1 as <-. injection H2 as <-. reflexivity.
Defined.

Lemma sample_Q148_v2_refs :
  refs_nonempty [mk_statement "P30" "continent" "Asia" (Some "Q48")].
Proof. intros s [<- | []]. discriminate. Defined.

(** C1, run on the sample data: Q148 is stored, then its second version. *)
Lemma C1_upsert_replaces_witness :
  (exists doc,
      TinyDB.get_entity_by_id "Q148"
        (TinyDB.store_entity sample_Q148_v2
           (TinyDB.store_entity sample_Q148 TinyDB.empty_world)) = Some doc /\
      aliases doc = Some [mk_alias "Zhongguo" "en"] /\
      statements doc = Some [mk_statement "P30" "continent" "Asia" (Some "Q48")])
  /\
  (exists e,
     fst (SQLite.get_entity_by_id "Q148"
            (snd (SQLite.store_entity sample_Q148_v2
                    (snd (SQLite.store_entity sample_Q148
                            (SQLite.fresh SQLite.empty_database []))))))
     = inr (Some e) /\
     map alias_out_view (SQLite.r_aliases e)
     = map alias_view [mk_alias "Zhongguo" "en"] /\
     map statement_out_view (SQLite.r_statements e)
     = map statement_view [mk_statement "P30" "continent" "Asia" (Some "Q48")]).
Proof.
  destruct (C1_upsert_replaces sample_Q148 sample_Q148_v2 "Q148"
              TinyDB.empty_world SQLite.empty_database
              eq_refl eq_refl eq_refl eq_refl) as [Hpresent _].
  destruct (Hpresent [mk_alias "Zhongguo" "en"]
              [mk_statement "P30" "continent" "Asia" (Some "Q48")]
              eq_refl eq_refl) as [Hdoc Hsql].
  split; [exact Hdoc |].
  apply Hsql.
  - discriminate.
  - discriminate.
  - constructor.
  - exact sample_Q148_v2_functional.
  - exact sample_Q148_v2_refs.
Defined.

(** C1 as stated fails: a second record without the [aliases] and
    [statements] keys leaves the first record's aliases and statements
    in place, in both backends; and the relational backend keeps them
    also when the second record's lists are empty. *)
Lemma C1_counterexample :
  well_formed sample_Q148 = true /\ well_formed sample_Q148_bare = true /\
  well_formed sample_Q148_empty = true /\
  entity_id sample_Q148 = entity_id sample_Q148_bare /\
  aliases sample_Q148_bare = None /\ statements sample_Q148_bare = None /\
  match TinyDB.get_entity_by_id "Q148"
          (TinyDB.store_entity sample_Q148_bare
             (TinyDB.store_entity sample_Q148 TinyDB.empty_world)) with
  | Some doc =>
      aliases doc = aliases sample_Q148 /\
      statements doc = statements sample_Q148
  | None => False
  end /\
  match fst (SQLite.get_entity_by_id "Q148"
               (snd (SQLite.store_entity sample_Q148_bare
                       (snd (SQLite.store_entity sample_Q148
                               (SQLite.fresh SQLite.empty_database [])))))) with
  | inr (Some e) =>
      map alias_out_view (SQLite.r_aliases e)
      = map alias_view (get_or [] (aliases sample_Q148)) /\
      map statement_out_view (SQLite.r_statements e)
      = map statement_view (get_or [] (statements sample_Q148))
  | _ => False
  end /\
  match fst (SQLite.get_entity_by_id "Q148"
               (snd (SQLite.store_entity sample_Q148_empty
                       (snd (SQLite.store_entity sample_Q148
                               (SQLite.fresh SQLite.empty_database [])))))) with
  | inr (Some e) =>
      map alias_out_view (SQLite.r_aliases e)
      = map alias_view (get_or [] (aliases sample_Q148)) /\
      map statement_out_view (SQLite.r_statements e)
      = map statement_view (get_or [] (statements sample_Q148))
  | _ => False
  end.
Proof. vm_compute. repeat split. Qed.

Lemma select_aliases_none (id : string) d :
  (forall a, In a (SQLite.tbl_aliases d) -> SQLite.al_entity_id a <> id) ->
  SQLite.select_aliases id d = [].
Proof.
  intros H. unfold SQLite.select_aliases. rewrite filter_none; [reflexivity |].
  intros a Ha. apply String.eqb_neq. now apply H.
Qed.

Lemma select_statements_none (id : string) d :
  (forall s, In s (SQLite.tbl_statements d) -> SQLite.st_entity_id s <> id) ->
  SQLite.select_statements id d = [].
Proof.
  intros H. unfold SQLite.select_statements. rewrite filter_none; [reflexivity |].
  intros s Hs. apply String.eqb_neq. now apply H.
Qed.

Lemma complete_fields (r : EntityData) :
  complete r = true ->
  label r = Some (get_or "" (label r)) /\
  description r = Some (get_or "" (description r)) /\
  type r = Some (get_or "" (type r)).
Proof.
  unfold complete. destruct (entity_id r), (label r), (description r), (type r);
    try discriminate. now repeat split.
Qed.

(** C2 (amended). Round trip: a well-formed record in the full exchange
    format, stored and read back by its id, comes back with the same
    label, description and type, the same aliases and the same
    statements. The document backend returns the record itself; the
    relational backend does so when each property id of the record has
    a single label, referenced entities have non-empty ids, the
    properties table has unique keys, and a list of the record that is
    empty does not meet older rows of the same id. *)
Theorem C2_round_trip
    (r : EntityData) (id : string) (al : list Alias) (sl : list Statement)
    (w : TinyDB.world) (d0 : SQLite.database) :
  well_formed r = true -> complete r = true ->
  entity_id r = Some id -> aliases r = Some al -> statements r = Some sl ->
  TinyDB.get_entity_by_id id (TinyDB.store_entity r w) = Some r
  /\
  (unique_properties d0 -> labels_functional sl -> refs_nonempty sl ->
   no_stale_rows id r d0 ->
   exists e,
     fst (SQLite.get_entity_by_id id
            (snd (SQLite.store_entity r (SQLite.fresh d0 [])))) = inr (Some e) /\
     SQLite.r_id e = id /\
     Some (SQLite.r_label e) = label r /\
     Some (SQLite.r_description e) = description r /\
     Some (SQLite.r_type e) = type r /\
     Permutation (map alias_out_view (SQLite.r_aliases e)) (map alias_view al) /\
     Permutation (map statement_out_view (SQLite.r_statements e))
       (map statement_view sl)).
Proof.
  intros W C E Hal Hsl. split.
  - rewrite (tinydb_get_after_store r id w (well_formed_id r id W E)).
    destruct (TinyDB.get_entity_by_id id w);
      [now rewrite dict_update_complete | reflexivity].
  - intros Hu Hf Href [Sa Ss].
    rewrite (sqlite_get_after_store r id d0 E).
    unfold lookup_entity. rewrite select_entity_stored.
    destruct (complete_fields r C) as (El & Ed & Et).
    eexists. split; [reflexivity |].
    cbn [SQLite.r_id SQLite.r_label SQLite.r_description SQLite.r_type
         SQLite.r_aliases SQLite.r_statements SQLite.e_id SQLite.e_label
         SQLite.e_description SQLite.e_type].
    split; [reflexivity |]. split; [now rewrite El at 2 |].
    split; [now rewrite Ed at 2 |]. split; [now rewrite Et at 2 |].
    split.
    + rewrite map_alias_out_view. destruct al as [|a al'].
      * rewrite select_aliases_stored_kept by now rewrite Hal.
        rewrite select_aliases_none; [constructor |].
        apply Sa. now rewrite Hal.
      * rewrite (select_aliases_stored_new id r d0 (a :: al'))
          by now rewrite Hal.
        apply Permutation_refl.
    + destruct sl as [|s sl'].
      * rewrite select_statements_stored_kept by now rewrite Hsl.
        rewrite select_statements_none; [constructor |].
        apply Ss. now rewrite Hsl.
      * rewrite (select_statements_stored_new id r d0 (s :: sl'));
          try assumption.
        -- apply Permutation_refl.
        -- now rewrite Hsl.
        -- now apply (well_formed_properties r (s :: sl') W Hsl).
Qed.

Lemma sample_Q956_functional :
  labels_functional
    [mk_statement "P17" "国家" "中国" (Some "Q148");
     mk_statement "P1082" "人口" "2154万" None].
Proof.
  intros s1 s2 p1 p2 [<- | [<- | []]] [<- | [<- | []]] H1 H2 H;
    injection H1 as <-; injection H2 as <-;
    first [reflexivity | discriminate H].
Defined.

Lemma sample_Q956_refs :
  refs_nonempty
    [mk_statement "P17" "国家" "中国" (Some "Q148");
     mk_statement "P1082" "人口" "2154万" None].
Proof. intros s [<- | [<- | []]]; discriminate. Defined.

(** C2, run on the sample data: Q956 is stored after Q148 and read
    back. *)
Lemma C2_round_trip_witness :
  TinyDB.get_entity_by_id "Q956"
    (TinyDB.store_entity sample_Q956
       (TinyDB.store_entity sample_Q148 TinyDB.empty_world)) = Some sample_Q956
  /\
  exists e,
    fst (SQLite.get_entity_by_id "Q956"
           (snd (SQLite.store_entity sample_Q956
                   (SQLite.fresh (stored "Q148" sample_Q148 SQLite.empty_database)
                      [])))) = inr (Some e) /\
    SQLite.r_id e = "Q956" /\
    Some (SQLite.r_label e) = label sample_Q956 /\
    Some (SQLite.r_description e) = description sample_Q956 /\
    Some (SQLite.r_type e) = type sample_Q956 /\
    Permutation (map alias_out_view (SQLite.r_aliases e))
      (map alias_view [mk_alias "Beijing" "en"; mk_alias "Peking" "en"]) /\
    Permutation (map statement_out_view (SQLite.r_statements e))
      (map statement_view
         [mk_statement "P17" "国家" "中国" (Some "Q148");
          mk_statement "P1082" "人口" "2154万" None]).
Proof.
  destruct (C2_round_trip sample_Q956 "Q956"
              [mk_alias "Beijing" "en"; mk_alias "Peking" "en"]
              [mk_statement "P17" "国家" "中国" (Some "Q148");
               mk_statement "P1082" "人口" "2154万" None]
              (TinyDB.store_entity sample_Q148 TinyDB.empty_world)
              (stored "Q148" sample_Q148 SQLite.empty_database)
              eq_refl eq_refl eq_refl eq_refl eq_refl) as [Hdoc Hsql].
  split; [exact Hdoc |].
  apply Hsql.
  - apply unique_properties_stored. constructor.
  - exact sample_Q956_functional.
  - exact sample_Q956_refs.
  - split; intros H; discriminate H.
Defined.

(** C2 as stated fails. From an empty database, a record that gives one
    property id two labels comes back with the last label on both
    statements, and a reference by the empty id comes back as no
    reference; a record whose lists are empty comes back with the rows
    of an earlier record of the same id; and the document backend keeps
    the keys a record does not carry. *)
Lemma C2_counterexample :
  well_formed sample_two_labels = true /\
  well_formed sample_empty_ref = true /\
  well_formed sample_Q148_empty = true /\
  well_formed sample_Q148_bare = true /\
  match fst (SQLite.get_entity_by_id "Q1"
               (snd (SQLite.store_entity sample_two_labels
                       (SQLite.fresh SQLite.empty_database [])))) with
  | inr (Some e) =>
      map statement_out_view (SQLite.r_statements e)
      = [("P1082", "inhabitants", "1", None); ("P1082", "inhabitants", "2", None)]
      /\ ~ Permutation (map statement_out_view (SQLite.r_statements e))
             (map statement_view (get_or [] (statements sample_two_labels)))
  | _ => False
  end /\
  match fst (SQLite.get_entity_by_id "Q2"
               (snd (SQLite.store_entity sample_empty_ref
                       (SQLite.fresh SQLite.empty_database [])))) with
  | inr (Some e) =>
      map statement_out_view (SQLite.r_statements e)
      = [("P361", "part of", "Solar System", None)]
      /\ map statement_view (get_or [] (statements sample_empty_ref))
         = [("P361", "part of", "Solar System", Some "")]
  | _ => False
  end /\
  match fst (SQLite.get_entity_by_id "Q148"
               (snd (SQLite.store_entity sample_Q148_empty
                       (SQLite.fresh (stored "Q148" sample_Q148 SQLite.empty_database)
                          [])))) with
  | inr (Some e) =>
      map alias_out_view (SQLite.r_aliases e)
      = map alias_view (get_or [] (aliases sample_Q148))
      /\ aliases sample_Q148_empty = Some []
  | _ => False
  end /\
  match TinyDB.get_entity_by_id "Q148"
          (TinyDB.store_entity sample_Q148_bare
             (TinyDB.store_entity sample_Q148 TinyDB.empty_world)) with
  | Some doc =>
      aliases doc = aliases sample_Q148 /\ aliases sample_Q148_bare = None
  | None => False
  end.
Proof.
  vm_compute. repeat split.
  intros H.
  assert (Hin : In ("P1082", "population", "1", @None string)
                  [("P1082", "inhabitants", "1", @None string);
                   ("P1082", "inhabitants", "2", @None string)]).
  { apply (Permutation_in _ (Permutation_sym H)). now left. }
  destruct Hin as [E | [E | []]]; discriminate E.
Qed.

(* ===================================================================== *)
(** * Relational backend: what survives a failing step                   *)
(* ===================================================================== *)

(** [connect] either opens a connection on the committed content or
    raises [OperationalError] and leaves everything else as it was. *)
Lemma connect_opens (w : SQLite.world) :
  opens w ->
  SQLite.connect w = (inr tt, connected w) /\
  SQLite.disk (connected w) = SQLite.disk w /\
  SQLite.conn (connected w) = Some (SQLite.disk w) /\
  SQLite.trace (connected w) = (SQLite.trace w ++ [SQLite.EvConnect])%list.
Proof.
  unfold opens, connected, SQLite.connect.
  destruct (SQLite.faults w) as [|[] fs]; simpl; intros H;
    [| discriminate H |]; now repeat split.
Qed.

Lemma connect_fails (w : SQLite.world) :
  ~ opens w ->
  SQLite.connect w = (inl SQLite.OperationalError, connected w) /\
  SQLite.disk (connected w) = SQLite.disk w /\
  SQLite.conn (connected w) = SQLite.conn w /\
  SQLite.trace (connected w) = SQLite.trace w.
Proof.
  unfold opens, connected, SQLite.connect.
  destruct (SQLite.faults w) as [|[] fs]; simpl; intros H;
    [now contradiction H | | now contradiction H]; now repeat split.
Qed.

Lemma opens_dec (w : SQLite.world) : opens w \/ ~ opens w.
Proof.
  unfold opens, SQLite.connect.
  destruct (SQLite.faults w) as [|[] fs]; simpl;
    [now left | right; discriminate | now left].
Qed.

Lemma preserves_ret {A} (P : SQLite.world -> Prop) (a : A) :
  preserves P (SQLite.ret a).
Proof. intros w r w' H E. injection E as _ <-. exact H. Qed.

Lemma preserves_raise {A} (P : SQLite.world -> Prop) (e : SQLite.exn) :
  preserves P (@SQLite.raise A e).
Proof. intros w r w' H E. injection E as _ <-. exact H. Qed.

Lemma preserves_bind {A B} (P : SQLite.world -> Prop)
    (m : SQLite.M A) (k : A -> SQLite.M B) :
  preserves P m -> (forall a, preserves P (k a)) ->
  preserves P (SQLite.bind m k).
Proof.
  intros Hm Hk w r w' H. unfold SQLite.bind.
  destruct (m w) as [[e|a] w1] eqn:Em.
  - intros E. injection E as _ <-. apply (Hm w _ w1 H Em).
  - apply Hk. apply (Hm w _ w1 H Em).
Qed.

Lemma preserves_for_each {A} (P : SQLite.world -> Prop)
    (f : A -> SQLite.M unit) (l : list A) :
  (forall x, preserves P (f x)) -> preserves P (SQLite.for_each l f).
Proof.
  intros Hf. induction l as [|x l IH]; simpl.
  - apply preserves_ret.
  - apply preserves_bind; [apply Hf | intros _; exact IH].
Qed.

Lemma preserves_subscript {A} (P : SQLite.world -> Prop) (key : string)
    (o : option A) :
  preserves P (SQLite.subscript key o).
Proof. destruct o; [apply preserves_ret | apply preserves_raise]. Qed.

Lemma preserves_try {A} (P : SQLite.world -> Prop) (body : SQLite.M A)
    (handler : SQLite.exn -> SQLite.M A) (final : SQLite.M unit) :
  preserves P body -> (forall e, preserves P (handler e)) ->
  preserves P final ->
  preserves P (SQLite.try_except_finally body handler final).
Proof.
  intros Hb Hh Hf w r w' H. unfold SQLite.try_except_finally.
  destruct (body w) as [[e|a] w1] eqn:Eb.
  - destruct (handler e w1) as [r2 w2] eqn:Eh.
    pose proof (Hh e _ _ _ (Hb _ _ _ H Eb) Eh) as H2.
    destruct (final w2) as [[e3|u] w3] eqn:Ef; intros E; injection E as _ <-;
      apply (Hf _ _ _ H2 Ef).
  - pose proof (Hb _ _ _ H Eb) as H1.
    destruct (final w1) as [[e3|u] w3] eqn:Ef; intros E; injection E as _ <-;
      apply (Hf _ _ _ H1 Ef).
Qed.

(** A property of the whole world that looks neither at the pending
    faults nor at the trace is kept by one engine operation. *)
Lemma preserves_engine_step (P : SQLite.world -> Prop) :
  (forall d c fs tr fs',
      P (SQLite.Build_world d c fs tr) -> P (SQLite.Build_world d c fs' tr)) ->
  preserves P SQLite.engine_step.
Proof.
  intros HP [d c fs tr] r w' H. unfold SQLite.engine_step. simpl.
  destruct fs as [|b fs]; [intros E; injection E as _ <-; exact H |].
  destruct b; intros E; injection E as _ <-; apply (HP d c _ tr fs H).
Qed.

Lemma is_open_engine_step : preserves is_open SQLite.engine_step.
Proof. apply preserves_engine_step. intros d c fs tr fs' H. exact H. Qed.

Lemma disk_is_engine_step d : preserves (disk_is d) SQLite.engine_step.
Proof. apply preserves_engine_step. intros d' c fs tr fs' H. exact H. Qed.

Lemma preserves_view (P : SQLite.world -> Prop) : preserves P SQLite.view.
Proof.
  intros w r w' H. unfold SQLite.view.
  destruct (SQLite.conn w); intros E; injection E as _ <-; exact H.
Qed.

Lemma is_open_execute_update f : preserves is_open (SQLite.execute_update f).
Proof.
  unfold SQLite.execute_update. apply preserves_bind; [apply preserves_view |].
  intros d. apply preserves_bind; [apply is_open_engine_step |].
  intros _ w r w' _ E. injection E as _ <-. discriminate.
Qed.

Lemma disk_is_execute_update d f : preserves (disk_is d) (SQLite.execute_update f).
Proof.
  unfold SQLite.execute_update. apply preserves_bind; [apply preserves_view |].
  intros d'. apply preserves_bind; [apply disk_is_engine_step |].
  intros _ w r w' H E. injection E as _ <-. exact H.
Qed.

Lemma is_open_commit : preserves is_open SQLite.commit.
Proof.
  unfold SQLite.commit. apply preserves_bind; [apply preserves_view |].
  intros d. apply preserves_bind; [apply is_open_engine_step |].
  intros _ w r w' H E. injection E as _ <-. exact H.
Qed.

Lemma fails_keep_disk_commit : fails_keep_disk SQLite.commit.
Proof.
  intros w e w'. unfold SQLite.commit, SQLite.bind, SQLite.view.
  destruct (SQLite.conn w) as [d|]; [| intros E; now injection E as _ <-].
  destruct (SQLite.engine_step w) as [[e1|u] w1] eqn:Es.
  - intros E. injection E as _ <-.
    apply (disk_is_engine_step (SQLite.disk w) w _ w1 eq_refl Es).
  - discriminate.
Qed.

Lemma fails_keep_disk_bind {A B} (m : SQLite.M A) (k : A -> SQLite.M B) :
  (forall d, preserves (disk_is d) m) -> (forall a, fails_keep_disk (k a)) ->
  fails_keep_disk (SQLite.bind m k).
Proof.
  intros Hm Hk w e w'. unfold SQLite.bind.
  destruct (m w) as [[e1|a] w1] eqn:Em.
  - intros E. injection E as _ <-. apply (Hm (SQLite.disk w) w _ w1 eq_refl Em).
  - intros E. rewrite (Hk a w1 e w' E).
    apply (Hm (SQLite.disk w) w _ w1 eq_refl Em).
Qed.

Lemma disk_is_store_alias d r a : preserves (disk_is d) (SQLite.store_alias r a).
Proof.
  unfold SQLite.store_alias. apply preserves_bind; [apply preserves_subscript |].
  intros id. apply disk_is_execute_update.
Qed.

Lemma disk_is_store_statement d r s :
  preserves (disk_is d) (SQLite.store_statement r s).
Proof.
  unfold SQLite.store_statement. destruct (s_property s); [| apply preserves_ret].
  apply preserves_bind; [apply disk_is_execute_update |]. intros _.
  apply preserves_bind; [apply preserves_subscript |]. intros id.
  apply disk_is_execute_update.
Qed.

Lemma is_open_store_alias r a : preserves is_open (SQLite.store_alias r a).
Proof.
  unfold SQLite.store_alias. apply preserves_bind; [apply preserves_subscript |].
  intros id. apply is_open_execute_update.
Qed.

Lemma is_open_store_statement r s : preserves is_open (SQLite.store_statement r s).
Proof.
  unfold SQLite.store_statement. destruct (s_property s); [| apply preserves_ret].
  apply preserves_bind; [apply is_open_execute_update |]. intros _.
  apply preserves_bind; [apply preserves_subscript |]. intros id.
  apply is_open_execute_update.
Qed.

(** The transaction body never closes the connection, ... *)
Lemma is_open_store_entity_try r : preserves is_open (SQLite.store_entity_try r).
Proof.
  unfold SQLite.store_entity_try.
  apply preserves_bind; [apply is_open_execute_update |]. intros _.
  apply preserves_bind.
  { destruct (present_nonempty (aliases r)); [| apply preserves_ret].
    apply preserves_bind; [apply preserves_subscript |]. intros id.
    apply preserves_bind; [apply is_open_execute_update |]. intros _.
    apply preserves_for_each. intros a. apply is_open_store_alias. }
  intros _. apply preserves_bind.
  { destruct (present_nonempty (statements r)); [| apply preserves_ret].
    apply preserves_bind; [apply preserves_subscript |]. intros id.
    apply preserves_bind; [apply is_open_execute_update |]. intros _.
    apply preserves_for_each. intros s. apply is_open_store_statement. }
  intros _. apply is_open_commit.
Qed.

(** ... and when it raises, nothing has reached the database file. *)
Lemma fails_keep_disk_store_entity_try r :
  fails_keep_disk (SQLite.store_entity_try r).
Proof.
  unfold SQLite.store_entity_try.
  apply fails_keep_disk_bind; [intros d; apply disk_is_execute_update |].
  intros _. apply fails_keep_disk_bind.
  { intros d. destruct (present_nonempty (aliases r)); [| apply preserves_ret].
    apply preserves_bind; [apply preserves_subscript |]. intros id.
    apply preserves_bind; [apply disk_is_execute_update |]. intros _.
    apply preserves_for_each. intros a. apply disk_is_store_alias. }
  intros _. apply fails_keep_disk_bind.
  { intros d. destruct (present_nonempty (statements r)); [| apply preserves_ret].
    apply preserves_bind; [apply preserves_subscript |]. intros id.
    apply preserves_bind; [apply disk_is_execute_update |]. intros _.
    apply preserves_for_each. intros s. apply disk_is_store_statement. }
  intros _. apply fails_keep_disk_commit.
Qed.

(** C6. In the relational backend [store_entity] is atomic per entity:
    when a step of the transaction raises (the entity insert, the alias
    delete or an alias insert, a property upsert, the statement delete
    or a statement insert, or the commit), the database file is exactly
    as before the call, the failure is printed, the transaction is
    rolled back, the connection is closed, no exception leaves the call,
    and a batch goes on with the next record. *)
Theorem C6_store_entity_atomic
    (r : EntityData) (w : SQLite.world) (e : SQLite.exn) (w1 : SQLite.world) :
  opens w ->
  SQLite.store_entity_try r (connected w) = (inl e, w1) ->
  exists w',
    SQLite.store_entity r w = (inr tt, w') /\
    SQLite.disk w' = SQLite.disk w /\
    SQLite.conn w' = None /\
    SQLite.trace w'
    = (SQLite.trace w1
       ++ [SQLite.EvPrint (SQLite.StoreFailed (get_or "unknown" (entity_id r)) e);
           SQLite.EvRollback; SQLite.EvClose])%list /\
    forall rs,
      SQLite.for_each (r :: rs) SQLite.store_entity w
      = SQLite.for_each rs SQLite.store_entity w'.
Proof.
  intros Hopens Hfail.
  destruct (connect_opens w Hopens) as (Hconnect & Hcd & Hcc & _).
  pose proof (fails_keep_disk_store_entity_try r _ _ _ Hfail) as Hdisk.
  rewrite Hcd in Hdisk.
  assert (Hopen : is_open w1).
  { apply (is_open_store_entity_try r (connected w) (inl e) w1); [| exact Hfail].
    unfold is_open. rewrite Hcc. discriminate. }
  assert (Hrun :
    SQLite.store_entity r w
    = (inr tt,
       SQLite.Build_world (SQLite.disk w1) None (SQLite.faults w1)
         (SQLite.trace w1
          ++ [SQLite.EvPrint
                (SQLite.StoreFailed (get_or "unknown" (entity_id r)) e);
              SQLite.EvRollback; SQLite.EvClose]))).
  { unfold SQLite.store_entity, SQLite.bind at 1. rewrite Hconnect.
    unfold SQLite.try_except_finally. rewrite Hfail.
    unfold is_open in Hopen. destruct w1 as [d1 c1 fs1 tr1]. simpl in *.
    destruct c1 as [v|]; [| congruence].
    unfold SQLite.bind, SQLite.print, SQLite.emit, SQLite.rollback,
      SQLite.bind, SQLite.view, SQLite.close. simpl.
    rewrite <- !app_assoc. reflexivity. }
  eexists. split; [exact Hrun |]. simpl.
  split; [exact Hdisk |]. split; [reflexivity |]. split; [reflexivity |].
  intros rs. cbn [SQLite.for_each]. unfold SQLite.bind at 1. now rewrite Hrun.
Qed.

(** Storing the sample entity Q148 takes fourteen operations: the
    connect, the entity insert, the alias delete, three alias inserts,
    the statement delete, three property upserts each followed by a
    statement insert, and the commit. Whichever of them fails, the
    database file is left as it was; when none fails, the entity is
    there. *)
Lemma store_entity_fault_at_each_step :
  map (fun k =>
         SQLite.disk
           (snd (SQLite.store_entity sample_Q148
                   (SQLite.fresh (stored "Q956" sample_Q956 SQLite.empty_database)
                      (repeat false k ++ [true])%list))))
    (seq 0 14)
  = repeat (stored "Q956" sample_Q956 SQLite.empty_database) 14
  /\
  SQLite.disk
    (snd (SQLite.store_entity sample_Q148
            (SQLite.fresh (stored "Q956" sample_Q956 SQLite.empty_database)
               (repeat false 14 ++ [true])%list)))
  = stored "Q148" sample_Q148 (stored "Q956" sample_Q956 SQLite.empty_database).
Proof. vm_compute. split; reflexivity. Qed.

(** C6 on the sample data: the connection opens and the third statement
    of storing Q148 fails, after the entity row and the alias delete
    went through. *)
Lemma C6_store_entity_atomic_witness :
  exists w',
    SQLite.store_entity sample_Q148
      (SQLite.fresh (stored "Q956" sample_Q956 SQLite.empty_database)
         [false; false; false; true])
    = (inr tt, w') /\
    SQLite.disk w' = stored "Q956" sample_Q956 SQLite.empty_database /\
    SQLite.conn w' = None /\
    SQLite.trace w'
    = [SQLite.EvConnect;
       SQLite.EvPrint (SQLite.StoreFailed "Q148" SQLite.DatabaseError);
       SQLite.EvRollback; SQLite.EvClose] /\
    forall rs,
      SQLite.for_each (sample_Q148 :: rs) SQLite.store_entity
        (SQLite.fresh (stored "Q956" sample_Q956 SQLite.empty_database)
           [false; false; false; true])
      = SQLite.for_each rs SQLite.store_entity w'.
Proof.
  apply (C6_store_entity_atomic sample_Q148
           (SQLite.fresh (stored "Q956" sample_Q956 SQLite.empty_database)
              [false; false; false; true])
           SQLite.DatabaseError
           (SQLite.Build_world
              (stored "Q956" sample_Q956 SQLite.empty_database)
              (Some (SQLite.delete_aliases "Q148"
                       (SQLite.insert_or_replace_entity
                          {| SQLite.e_id := "Q148";
                             SQLite.e_label := "中国";
                             SQLite.e_description := "亚洲东部国家";
                             SQLite.e_type := "country" |}
                          (stored "Q956" sample_Q956 SQLite.empty_database))))
              [] [SQLite.EvConnect])).
  - reflexivity.
  - vm_compute. reflexivity.
Defined.

(* ===================================================================== *)
(** * Relational backend: the read operations                            *)
(* ===================================================================== *)

(** The shape shared by [get_entity_by_id] and [search_entities]: open a
    connection, run the body, on any exception print and return a
    default, close in every case. *)
Lemma guarded_read {A} (body : SQLite.M A) (msg : SQLite.exn -> SQLite.message)
    (default : A) (w : SQLite.world) :
  opens w ->
  exists res w',
    SQLite.bind SQLite.connect
      (fun _ =>
         SQLite.try_except_finally body
           (fun e => SQLite.bind (SQLite.print (msg e))
                       (fun _ => SQLite.ret default))
           SQLite.close) w
    = (inr res, w') /\
    SQLite.conn w' = None /\
    (exists tr, SQLite.trace w' = (tr ++ [SQLite.EvClose])%list) /\
    (forall e w1, body (connected w) = (inl e, w1) ->
       res = default /\
       SQLite.trace w'
       = (SQLite.trace w1 ++ [SQLite.EvPrint (msg e); SQLite.EvClose])%list) /\
    (forall a w1, body (connected w) = (inr a, w1) -> res = a).
Proof.
  intros Hopens. destruct (connect_opens w Hopens) as (Hconnect & _).
  unfold SQLite.bind at 1. rewrite Hconnect.
  unfold SQLite.try_except_finally.
  destruct (body (connected w)) as [[e|a] w1]; simpl.
  - eexists. eexists. split; [reflexivity |]. simpl.
    split; [reflexivity |]. split; [eexists; reflexivity |].
    split.
    + intros e' w1' E. injection E as <- <-.
      split; [reflexivity | now rewrite <- app_assoc].
    + intros a w1' E. discriminate E.
  - eexists. eexists. split; [reflexivity |]. simpl.
    split; [reflexivity |]. split; [eexists; reflexivity |].
    split.
    + intros e' w1' E. discriminate E.
    + intros a' w1' E. now injection E as <- _.
Qed.

(** The call made before the [try] is not guarded: when [connect]
    raises, the exception leaves the read as it is, and nothing else
    has happened. *)
Lemma unguarded_connect {A} (body : SQLite.M A)
    (handler : SQLite.exn -> SQLite.M A) (w : SQLite.world) :
  ~ opens w ->
  SQLite.bind SQLite.connect
    (fun _ => SQLite.try_except_finally body handler SQLite.close) w
  = (inl SQLite.OperationalError, connected w).
Proof.
  intros H. destruct (connect_fails w H) as (Hconnect & _).
  unfold SQLite.bind. now rewrite Hconnect.
Qed.

(** C10 (amended). In the relational backend [get_entity_by_id] and
    [search_entities] let no exception out that is raised inside their
    [try]: once the connection is open, whatever fails, a message naming
    the exception is printed, [get_entity_by_id] returns [None] and
    [search_entities] the empty list; when nothing fails the result of
    the body is returned; and the connection the call opened is closed
    as the last thing the call does, in the failing and in the
    successful case. The connection itself is opened before the [try]:
    when [sqlite3.connect] raises, that exception reaches the caller,
    from both functions, and nothing was opened, printed or written. *)
Theorem C10_reads_never_raise
    (id query : string) (limit : Z) (w : SQLite.world) :
  match SQLite.connect w with
  | (inr _, w0) =>
      (exists res w',
          SQLite.get_entity_by_id id w = (inr res, w') /\
          SQLite.conn w' = None /\
          (exists tr, SQLite.trace w' = (tr ++ [SQLite.EvClose])%list) /\
          (forall e w1,
              SQLite.get_entity_by_id_try id w0 = (inl e, w1) ->
              res = None /\
              SQLite.trace w'
              = (SQLite.trace w1
                   ++ [SQLite.EvPrint (SQLite.GetFailed id e);
                       SQLite.EvClose])%list) /\
          (forall a w1,
              SQLite.get_entity_by_id_try id w0 = (inr a, w1) ->
              res = a)) /\
      (exists rows w',
          SQLite.search_entities query limit w = (inr rows, w') /\
          SQLite.conn w' = None /\
          (exists tr, SQLite.trace w' = (tr ++ [SQLite.EvClose])%list) /\
          (forall e w1,
              SQLite.search_entities_try query limit w0 = (inl e, w1) ->
              rows = [] /\
              SQLite.trace w'
              = (SQLite.trace w1
                   ++ [SQLite.EvPrint (SQLite.SearchFailed e);
                       SQLite.EvClose])%list) /\
          (forall a w1,
              SQLite.search_entities_try query limit w0 = (inr a, w1) ->
              rows = a))
  | (inl e, w0) =>
      SQLite.get_entity_by_id id w = (inl e, w0) /\
      SQLite.search_entities query limit w = (inl e, w0) /\
      SQLite.disk w0 = SQLite.disk w /\
      SQLite.conn w0 = SQLite.conn w /\
      SQLite.trace w0 = SQLite.trace w
  end.
Proof.
  destruct (opens_dec w) as [Ho | Hno].
  - destruct (connect_opens w Ho) as (Hconnect & _). rewrite Hconnect. split.
    + destruct (guarded_read (SQLite.get_entity_by_id_try id)
                  (SQLite.GetFailed id) None w Ho)
        as (res & w' & Hrun & Hc & Htr & Hfail & Hok).
      exists res, w'.
      split; [exact Hrun |]. split; [exact Hc |]. split; [exact Htr |].
      split; [exact Hfail | exact Hok].
    + destruct (guarded_read (SQLite.search_entities_try query limit)
                  SQLite.SearchFailed [] w Ho)
        as (rows & w' & Hrun & Hc & Htr & Hfail & Hok).
      exists rows, w'.
      split; [exact Hrun |]. split; [exact Hc |]. split; [exact Htr |].
      split; [exact Hfail | exact Hok].
  - destruct (connect_fails w Hno) as (Hconnect & Hd & Hc & Ht).
    rewrite Hconnect. repeat split; try assumption.
    + now apply unguarded_connect.
    + now apply unguarded_connect.
Qed.

(** C10 as stated fails: when the database file cannot be opened, both
    reads raise. *)
Lemma C10_counterexample :
  SQLite.get_entity_by_id "Q148"
    (SQLite.fresh (stored "Q148" sample_Q148 SQLite.empty_database) [true])
  = (inl SQLite.OperationalError,
     SQLite.fresh (stored "Q148" sample_Q148 SQLite.empty_database) []) /\
  SQLite.search_entities "China" 10
    (SQLite.fresh (stored "Q148" sample_Q148 SQLite.empty_database) [true])
  = (inl SQLite.OperationalError,
     SQLite.fresh (stored "Q148" sample_Q148 SQLite.empty_database) []).
Proof. vm_compute. split; reflexivity. Qed.

(** The engine fails on the look-up of an entity that is stored: the
    caller gets [None] and a closed connection. *)
Lemma get_entity_by_id_failing_run :
  SQLite.get_entity_by_id "Q148"
    (SQLite.fresh (stored "Q148" sample_Q148 SQLite.empty_database)
       [false; false; false; false; true])
  = (inr None,
     SQLite.Build_world (stored "Q148" sample_Q148 SQLite.empty_database)
       None []
       [SQLite.EvConnect;
        SQLite.EvPrint (SQLite.GetFailed "Q148" SQLite.DatabaseError);
        SQLite.EvClose]).
Proof. vm_compute. reflexivity. Qed.

(** C7. An [entity_id] that is not in the store is answered by [None],
    in both backends, the empty store included; the relational backend,
    once its connection is open, answers [None] whether or not the
    engine fails on the way, and in no case does it answer with an
    entity record. *)
Theorem C7_missing_id_not_found
    (id : string) (w : SQLite.world) (t : TinyDB.world) :
  (forall row, In row (SQLite.tbl_entities (SQLite.disk w)) ->
               SQLite.e_id row <> id) ->
  (forall doc, In doc (TinyDB.entities t) -> entity_id doc <> Some id) ->
  (opens w -> fst (SQLite.get_entity_by_id id w) = inr None) /\
  (forall e, fst (SQLite.get_entity_by_id id w) <> inr (Some e)) /\
  TinyDB.get_entity_by_id id t = None.
Proof.
  intros Hsql Hdoc.
  assert (Hopen : opens w -> fst (SQLite.get_entity_by_id id w) = inr None).
  { intros Ho.
    destruct (guarded_read (SQLite.get_entity_by_id_try id)
                (SQLite.GetFailed id) None w Ho)
      as (res & w' & Hrun & _ & _ & Hfail & Hok).
    change (SQLite.get_entity_by_id id w = (inr res, w')) in Hrun.
    rewrite Hrun. cbn [fst]. f_equal.
    destruct (connect_opens w Ho) as (_ & Hcd & Hcc & _).
    destruct (SQLite.get_entity_by_id_try id (connected w)) as [[e|a] w1] eqn:E.
    + apply (Hfail e w1 eq_refl).
    + rewrite (Hok a w1 eq_refl).
      assert (Hnone : SQLite.select_entity id (SQLite.disk w) = []).
      { unfold SQLite.select_entity. apply filter_none.
        intros row Hin. apply String.eqb_neq. now apply Hsql. }
      revert E. unfold SQLite.get_entity_by_id_try.
      remember (SQLite.select_entity id) as sel eqn:Esel.
      destruct (connected w) as [d c fs tr]. cbn [SQLite.conn] in Hcc.
      subst c. cbn [SQLite.disk] in Hcd. subst d.
      destruct fs as [|[] [|[] fs]]; cbn; rewrite ?Hnone; cbn;
        intros E; now inversion E. }
  split; [exact Hopen |]. split.
  - intros e. destruct (opens_dec w) as [Ho | Hno].
    + rewrite (Hopen Ho). discriminate.
    + unfold SQLite.get_entity_by_id.
      rewrite (unguarded_connect _ _ w Hno). discriminate.
  - unfold TinyDB.get_entity_by_id, TinyDB.table_get.
    destruct (find (TinyDB.entity_id_is id) (TinyDB.entities t)) as [doc|] eqn:E;
      [| reflexivity].
    apply find_some in E as [Hin Hid]. exfalso. apply (Hdoc doc Hin).
    unfold TinyDB.entity_id_is in Hid.
    destruct (entity_id doc) as [i|]; [| discriminate].
    apply String.eqb_eq in Hid. now subst.
Qed.

(** C7 on the sample data: Q42 is asked for in stores that hold Q148. *)
Lemma C7_missing_id_not_found_witness :
  fst (SQLite.get_entity_by_id "Q42"
         (SQLite.fresh (stored "Q148" sample_Q148 SQLite.empty_database) []))
  = inr None /\
  TinyDB.get_entity_by_id "Q42"
    (TinyDB.store_entity sample_Q148 TinyDB.empty_world) = None.
Proof.
  destruct (C7_missing_id_not_found "Q42"
              (SQLite.fresh (stored "Q148" sample_Q148 SQLite.empty_database) [])
              (TinyDB.store_entity sample_Q148 TinyDB.empty_world))
    as (Hsql & _ & Hdoc).
  - intros row [<- | []]. discriminate.
  - intros doc [<- | []]. discriminate.
  - split; [apply Hsql; reflexivity | exact Hdoc].
Defined.

(* ===================================================================== *)
(** * Relational backend: one row per property, last label wins          *)
(* ===================================================================== *)

Lemma hw_execute_update (Q : SQLite.database -> Prop)
    (f : SQLite.database -> SQLite.database) :
  (forall d, Q d -> Q (f d)) ->
  preserves (holds_in_world Q) (SQLite.execute_update f).
Proof.
  intros Hf [d c fs tr] r w' [Hd Hv].
  unfold SQLite.execute_update, SQLite.bind, SQLite.view, SQLite.engine_step,
    SQLite.set_view. simpl in *.
  destruct c as [v|]; [| intros E; injection E as _ <-; now split].
  destruct fs as [|[] fs]; simpl; intros E; injection E as _ <-;
    split; simpl; try assumption;
    intros d' E'; injection E' as <-; try (apply Hf); now apply Hv.
Qed.

Lemma hw_commit (Q : SQLite.database -> Prop) :
  preserves (holds_in_world Q) SQLite.commit.
Proof.
  intros [d c fs tr] r w' [Hd Hv].
  unfold SQLite.commit, SQLite.bind, SQLite.view, SQLite.engine_step.
  simpl in *.
  destruct c as [v|]; [| intros E; injection E as _ <-; now split].
  destruct fs as [|[] fs]; simpl; intros E; injection E as _ <-;
    split; simpl; try assumption; now apply Hv.
Qed.

Lemma hw_rollback (Q : SQLite.database -> Prop) :
  preserves (holds_in_world Q) SQLite.rollback.
Proof.
  intros [d c fs tr] r w' [Hd Hv].
  unfold SQLite.rollback, SQLite.bind, SQLite.view. simpl in *.
  destruct c as [v|]; intros E; injection E as _ <-; split; simpl;
    try assumption.
  intros d' E'. now injection E' as <-.
Qed.

Lemma hw_connect (Q : SQLite.database -> Prop) :
  preserves (holds_in_world Q) SQLite.connect.
Proof.
  intros [d c fs tr] r w' [Hd Hv]. unfold SQLite.connect. simpl in *.
  destruct fs as [|[] fs]; intros E; injection E as _ <-; split; simpl;
    try assumption; intros d' E'; first [now injection E' as <- | now apply Hv].
Qed.

Lemma hw_close (Q : SQLite.database -> Prop) :
  preserves (holds_in_world Q) SQLite.close.
Proof.
  intros [d c fs tr] r w' [Hd Hv] E. injection E as _ <-. split; simpl;
    [assumption |]. intros d' E'. discriminate E'.
Qed.

Lemma hw_print (Q : SQLite.database -> Prop) m :
  preserves (holds_in_world Q) (SQLite.print m).
Proof.
  intros [d c fs tr] r w' [Hd Hv] E. injection E as _ <-. now split.
Qed.

(** What every SQL statement keeps, [store_entity] keeps, whether it
    commits or rolls back. *)
Lemma hw_store_entity (Q : SQLite.database -> Prop) r :
  kept_by_statements Q -> preserves (holds_in_world Q) (SQLite.store_entity r).
Proof.
  intros (Qe & Qda & Qia & Qds & Qp & Qis).
  unfold SQLite.store_entity.
  apply preserves_bind; [apply hw_connect |]. intros _.
  apply preserves_try; [| | apply hw_close].
  - unfold SQLite.store_entity_try.
    apply preserves_bind; [apply hw_execute_update, Qe |].
    intros _. apply preserves_bind.
    { destruct (present_nonempty (aliases r)); [| apply preserves_ret].
      apply preserves_bind; [apply preserves_subscript |]. intros id.
      apply preserves_bind; [apply hw_execute_update, Qda |].
      intros _. apply preserves_for_each. intros a. unfold SQLite.store_alias.
      apply preserves_bind; [apply preserves_subscript |]. intros id'.
      apply hw_execute_update, Qia. }
    intros _. apply preserves_bind.
    { destruct (present_nonempty (statements r)); [| apply preserves_ret].
      apply preserves_bind; [apply preserves_subscript |]. intros id.
      apply preserves_bind; [apply hw_execute_update, Qds |].
      intros _. apply preserves_for_each. intros s.
      unfold SQLite.store_statement.
      destruct (s_property s); [| apply preserves_ret].
      apply preserves_bind; [apply hw_execute_update, Qp |].
      intros _. apply preserves_bind; [apply preserves_subscript |].
      intros id'. apply hw_execute_update, Qis. }
    intros _. apply hw_commit.
  - intros e. apply preserves_bind; [apply hw_print |]. intros _.
    apply hw_rollback.
Qed.

Lemma hw_batch (Q : SQLite.database -> Prop) (rs : list EntityData)
    (d0 : SQLite.database) (fs : list bool) :
  kept_by_statements Q -> Q d0 ->
  Q (SQLite.disk
       (snd (SQLite.for_each rs SQLite.store_entity (SQLite.fresh d0 fs)))).
Proof.
  intros HQ H0.
  destruct (SQLite.for_each rs SQLite.store_entity (SQLite.fresh d0 fs))
    as [res w'] eqn:Erun.
  assert (H : holds_in_world Q w').
  { apply (preserves_for_each (holds_in_world Q) SQLite.store_entity rs
             (fun r => hw_store_entity Q r HQ) (SQLite.fresh d0 fs) res w');
      [| exact Erun].
    split; [exact H0 |]. intros d Hd. discriminate Hd. }
  exact (proj1 H).
Qed.

Lemma unique_properties_kept : kept_by_statements unique_properties.
Proof.
  unfold kept_by_statements, unique_properties. repeat split; try (now intros).
  intros pid l d H. now apply unique_replace_property.
Qed.

Lemma unique_entities_kept : kept_by_statements unique_entities.
Proof.
  unfold kept_by_statements, unique_entities. repeat split; try (now intros).
  intros row d H. simpl. rewrite map_app. apply NoDup_app.
  - now apply NoDup_map_filter.
  - simpl. constructor; [intros [] | constructor].
  - intros x Hx [Hr | []]. simpl in Hr. subst x.
    apply in_map_iff in Hx as (y & E & Hy). apply filter_In in Hy as [_ Hy].
    apply negb_true_iff, String.eqb_neq in Hy. congruence.
Qed.

(** Every database a sequence of [store_entity] calls builds from the
    empty one has unique entity ids, whatever failed on the way. *)
Lemma unique_entities_reachable (rs : list EntityData) (fs : list bool) :
  unique_entities
    (SQLite.disk
       (snd (SQLite.for_each rs SQLite.store_entity
               (SQLite.fresh SQLite.empty_database fs)))).
Proof. apply hw_batch; [apply unique_entities_kept | constructor]. Qed.

(* ===================================================================== *)
(** * Document backend: one document per entity_id                       *)
(* ===================================================================== *)

Lemma table_update_ids (r : EntityData) (id : string) (t : TinyDB.Table) :
  entity_id r = Some id ->
  map entity_id (TinyDB.table_update r (TinyDB.entity_id_is id) t)
  = map entity_id t.
Proof.
  intros E. unfold TinyDB.table_update. rewrite map_map. apply map_ext.
  intros doc. destruct (TinyDB.entity_id_is id doc) eqn:Ed; [| reflexivity].
  unfold TinyDB.dict_update. simpl. rewrite E.
  unfold TinyDB.entity_id_is in Ed. destruct (entity_id doc) as [i|];
    [| discriminate].
  apply String.eqb_eq in Ed. now subst.
Qed.

Lemma table_get_none (id : string) (t : TinyDB.Table) :
  TinyDB.table_get (TinyDB.entity_id_is id) t = None ->
  ~ In (Some id) (map entity_id t).
Proof.
  unfold TinyDB.table_get. intros Hn Hin.
  apply in_map_iff in Hin as (doc & E & Hin).
  pose proof (find_none _ _ Hn doc Hin) as Hf.
  unfold TinyDB.entity_id_is in Hf. rewrite E, String.eqb_refl in Hf.
  discriminate.
Qed.

Lemma store_entity_one_per_id (r : EntityData) (w : TinyDB.world) :
  one_document_per_id (TinyDB.entities w) ->
  one_document_per_id (TinyDB.entities (TinyDB.store_entity r w)).
Proof.
  intros [Hnd Hall]. unfold TinyDB.store_entity.
  destruct (truthy_ref (entity_id r)) as [id|] eqn:Ht; [| now split].
  pose proof (truthy_ref_some _ _ Ht) as E.
  destruct (TinyDB.table_get (TinyDB.entity_id_is id) (TinyDB.entities w))
    as [doc|] eqn:Eg; simpl.
  - split.
    + now rewrite (table_update_ids r id _ E).
    + unfold TinyDB.table_update. rewrite Forall_map.
      eapply Forall_impl; [| exact Hall]. intros d Hd. simpl.
      destruct (TinyDB.entity_id_is id d); [| exact Hd].
      unfold TinyDB.dict_update. simpl. rewrite E. rewrite <- E, Ht. discriminate.
  - unfold TinyDB.table_insert. split.
    + rewrite map_app. apply NoDup_app; [exact Hnd | |].
      * simpl. constructor; [intros [] | constructor].
      * intros x Hx [Hr | []]. simpl in Hr. subst x. rewrite E in Hx.
        now apply (table_get_none id _ Eg).
    + apply Forall_app. split; [exact Hall |].
      constructor; [rewrite Ht; discriminate | constructor].
Qed.

Lemma store_entities_one_per_id (b : Batch) (w : TinyDB.world) :
  one_document_per_id (TinyDB.entities w) ->
  one_document_per_id (TinyDB.entities (TinyDB.store_entities b w)).
Proof.
  unfold TinyDB.store_entities. generalize (batch_records b). intros rs.
  revert w. induction rs as [|r rs IH]; intros w H; [exact H |].
  simpl. apply IH. now apply store_entity_one_per_id.
Qed.

Lemma run_calls_one_per_id (calls : list Call) (w : TinyDB.world) :
  one_document_per_id (TinyDB.entities w) ->
  one_document_per_id (TinyDB.entities (fold_left run_call calls w)).
Proof.
  revert w. induction calls as [|c calls IH]; intros w H; [exact H |].
  simpl. apply IH. destruct c; simpl.
  - now apply store_entity_one_per_id.
  - now apply store_entities_one_per_id.
Qed.

(** With one document per id, an update touches exactly the document of
    that id. *)
Lemma table_update_single (r : EntityData) (id : string) (t : TinyDB.Table)
    (doc : EntityData) :
  NoDup (map entity_id t) ->
  TinyDB.table_get (TinyDB.entity_id_is id) t = Some doc ->
  exists t1 t2,
    t = (t1 ++ doc :: t2)%list /\
    TinyDB.table_update r (TinyDB.entity_id_is id) t
    = (t1 ++ TinyDB.dict_update doc r :: t2)%list.
Proof.
  unfold TinyDB.table_get, TinyDB.table_update.
  induction t as [|d t IH]; simpl; intros Hnd Hg; [discriminate |].
  inversion Hnd as [|? ? Hd Ht]; subst.
  destruct (TinyDB.entity_id_is id d) eqn:Ed.
  - injection Hg as ->. exists [], t. split; [reflexivity |]. simpl. f_equal.
    rewrite <- (map_id t) at 2. apply map_ext_in. intros x Hx.
    destruct (TinyDB.entity_id_is id x) eqn:Ex; [| reflexivity].
    exfalso. apply Hd. unfold TinyDB.entity_id_is in Ed, Ex.
    destruct (entity_id doc) as [i|] eqn:Ei; [| discriminate].
    destruct (entity_id x) as [j|] eqn:Ej; [| discriminate].
    apply String.eqb_eq in Ed, Ex. subst i j.
    apply in_map_iff. exists x. now split.
  - destruct (IH Ht Hg) as (t1 & t2 & E1 & E2).
    exists (d :: t1), t2. split; [simpl; now rewrite E1 |].
    simpl. now rewrite E2.
Qed.

Lemma table_get_the_document (id : string) (t : TinyDB.Table) (doc : EntityData) :
  NoDup (map entity_id t) ->
  In doc t -> entity_id doc = Some id ->
  TinyDB.table_get (TinyDB.entity_id_is id) t = Some doc.
Proof.
  unfold TinyDB.table_get.
  induction t as [|d t IH]; simpl; intros Hnd Hin E; [contradiction |].
  inversion Hnd as [|? ? Hd Ht]; subst.
  destruct (TinyDB.entity_id_is id d) eqn:Ed.
  - destruct Hin as [-> | Hin]; [reflexivity |].
    exfalso. apply Hd. unfold TinyDB.entity_id_is in Ed.
    destruct (entity_id d) as [i|]; [| discriminate].
    apply String.eqb_eq in Ed. subst i. rewrite <- E. now apply in_map.
  - destruct Hin as [-> | Hin]; [| now apply IH].
    unfold TinyDB.entity_id_is in Ed. rewrite E, String.eqb_refl in Ed.
    discriminate.
Qed.

Lemma table_get_no_document (id : string) (t : TinyDB.Table) :
  (forall doc, In doc t -> entity_id doc <> Some id) ->
  TinyDB.table_get (TinyDB.entity_id_is id) t = None.
Proof.
  unfold TinyDB.table_get. intros H.
  destruct (find (TinyDB.entity_id_is id) t) as [doc|] eqn:Ef; [| reflexivity].
  apply find_some in Ef as [Hin Hc]. exfalso. apply (H doc Hin).
  unfold TinyDB.entity_id_is in Hc. destruct (entity_id doc) as [i|];
    [| discriminate].
  apply String.eqb_eq in Hc. now subst.
Qed.

Lemma dict_update_updated_with (doc r : EntityData) :
  updated_with r doc (TinyDB.dict_update doc r).
Proof. unfold updated_with, TinyDB.dict_update. simpl. repeat split. Qed.

Lemma non_empty_truthy_ref (id : string) :
  id <> "" -> truthy_ref (Some id) = Some id.
Proof. destruct id; [congruence | reflexivity]. Qed.

(** C9. In the document backend, starting from an empty table, every
    sequence of [store_entity] and [store_entities] calls leaves at most
    one document per [entity_id]. On such a table [store_entity] with a
    record of non-empty id updates the document of that id where it
    stands, when there is one: the document then carries every key of
    the record with the record's value and its other keys as they were,
    and no other document changes. It appends the record as a new
    document when no document has that id. It prints nothing. *)
Theorem C9_one_document_per_id (calls : list Call) :
  let w := fold_left run_call calls TinyDB.empty_world in
  one_document_per_id (TinyDB.entities w) /\
  forall r id,
    entity_id r = Some id -> id <> "" ->
    let w' := TinyDB.store_entity r w in
    (forall doc,
        In doc (TinyDB.entities w) -> entity_id doc = Some id ->
        exists t1 t2 doc',
          TinyDB.entities w = (t1 ++ doc :: t2)%list /\
          updated_with r doc doc' /\
          TinyDB.entities w' = (t1 ++ doc' :: t2)%list) /\
    ((forall doc, In doc (TinyDB.entities w) -> entity_id doc <> Some id) ->
     TinyDB.entities w' = (TinyDB.entities w ++ [r])%list) /\
    TinyDB.printed w' = TinyDB.printed w.
Proof.
  intros w.
  assert (Hinv : one_document_per_id (TinyDB.entities w)).
  { apply run_calls_one_per_id. split; constructor. }
  split; [exact Hinv |].
  intros r id E Hne w'. unfold w', TinyDB.store_entity.
  rewrite E, (non_empty_truthy_ref id Hne).
  split; [| split].
  - intros doc Hin Ed.
    rewrite (table_get_the_document id _ doc (proj1 Hinv) Hin Ed). simpl.
    destruct (table_update_single r id _ doc (proj1 Hinv)
                (table_get_the_document id _ doc (proj1 Hinv) Hin Ed))
      as (t1 & t2 & E1 & E2).
    exists t1, t2, (TinyDB.dict_update doc r).
    split; [exact E1 |]. split; [apply dict_update_updated_with | exact E2].
  - intros Hno. now rewrite (table_get_no_document id _ Hno).
  - destruct (TinyDB.table_get (TinyDB.entity_id_is id) (TinyDB.entities w));
      reflexivity.
Qed.

(** C9 on the sample data: after Q148 and Q956 are stored, storing Q148
    without its list keys rewrites the first document, which keeps its
    aliases and statements, and leaves Q956 alone; storing a record of
    a new id appends it. *)
Lemma C9_one_document_per_id_witness :
  let w := fold_left run_call
             [CallStoreEntity sample_Q148; CallStoreEntity sample_Q956]
             TinyDB.empty_world in
  (exists t1 t2 doc',
      TinyDB.entities w = (t1 ++ sample_Q148 :: t2)%list /\
      updated_with sample_Q148_bare sample_Q148 doc' /\
      TinyDB.entities (TinyDB.store_entity sample_Q148_bare w)
      = (t1 ++ doc' :: t2)%list) /\
  TinyDB.entities (TinyDB.store_entity sample_two_labels w)
  = [sample_Q148; sample_Q956; sample_two_labels].
Proof.
  intros w.
  destruct (C9_one_document_per_id
              [CallStoreEntity sample_Q148; CallStoreEntity sample_Q956])
    as [_ H].
  split.
  - destruct (H sample_Q148_bare "Q148" eq_refl ltac:(discriminate))
      as (Hup & _ & _).
    exact (Hup sample_Q148 (or_introl eq_refl) eq_refl).
  - destruct (H sample_two_labels "Q1" eq_refl ltac:(discriminate))
      as (_ & Hins & _).
    apply Hins. intros doc [<- | [<- | []]]; discriminate.
Defined.

(** The sample data stored twice over, by both calls: two documents. *)
Lemma sample_calls_two_documents :
  map entity_id
    (TinyDB.entities
       (fold_left run_call
          [CallStoreEntities
             (BatchDict [("Q148", sample_Q148); ("Q956", sample_Q956)]);
           CallStoreEntity sample_Q148_v2;
           CallStoreEntity sample_no_id;
           CallStoreEntities (BatchList [sample_Q956; sample_empty_id])]
          TinyDB.empty_world))
  = [Some "Q148"; Some "Q956"].
Proof. vm_compute. reflexivity. Qed.

(* ===================================================================== *)
(** * Records without an entity_id                                       *)
(* ===================================================================== *)

(** The document backend skips a record whose [entity_id] is missing or
    empty, says so, and goes on with the batch. *)
Lemma tinydb_skips_record_without_id (r : EntityData) (rs : list EntityData)
    (w : TinyDB.world) :
  truthy_ref (entity_id r) = None ->
  TinyDB.store_entity r w
  = {| TinyDB.entities := TinyDB.entities w;
       TinyDB.printed := (TinyDB.printed w ++ [TinyDB.MissingEntityId])%list |}
  /\ TinyDB.store_entities (BatchList (r :: rs)) w
     = TinyDB.store_entities (BatchList rs) (TinyDB.store_entity r w).
Proof.
  intros H. split; [| reflexivity]. unfold TinyDB.store_entity. now rewrite H.
Qed.

(** C4, at the failing input. The relational backend has no check of
    [entity_id]: a record without the key, or with the empty id, is
    committed under the id [""] and nothing is printed. *)
Theorem C4_sqlite_persists_record_without_id :
  let w := snd (SQLite.store_entities (BatchList [sample_no_id; sample_Q956])
                  (SQLite.fresh SQLite.empty_database [])) in
  let w' := snd (SQLite.store_entities (BatchList [sample_empty_id])
                   (SQLite.fresh SQLite.empty_database [])) in
  map SQLite.e_id (SQLite.tbl_entities (SQLite.disk w)) = [""; "Q956"] /\
  SQLite.select_entity "" (SQLite.disk w)
  = [{| SQLite.e_id := ""; SQLite.e_label := "nameless";
        SQLite.e_description := "a record without entity_id";
        SQLite.e_type := "item" |}] /\
  SQLite.printed w = [] /\
  map SQLite.e_id (SQLite.tbl_entities (SQLite.disk w')) = [""] /\
  SQLite.select_aliases "" (SQLite.disk w') = [("anonymous", "en")] /\
  map SQLite.st_value (SQLite.tbl_statements (SQLite.disk w')) = ["thing"] /\
  SQLite.printed w' = [] /\
  TinyDB.store_entities (BatchList [sample_no_id; sample_empty_id; sample_Q956])
    TinyDB.empty_world
  = {| TinyDB.entities := [sample_Q956];
       TinyDB.printed := [TinyDB.MissingEntityId; TinyDB.MissingEntityId] |}.
Proof. vm_compute. repeat split. Qed.

(* ===================================================================== *)
(** * Search                                                             *)
(* ===================================================================== *)






























(* ===================================================================== *)
(** * The benchmark harness and exceptions of a backend                  *)
(* ===================================================================== *)

Section HarnessFacts.

Variables SQ TD E : Type.
Variable sqlite_nlq : string -> SQ -> (E + list (string * string)) * SQ.
Variable tinydb_nlq : string -> TD -> (E + list (string * string)) * TD.
Variable now : nat -> Q.

(** A computation of the harness all of whose runs end as
    [propagates_first_failure] says. *)
Let good {A} (m : Harness.H SQ TD E A) : Prop :=
  forall w, propagates_first_failure w (m w).

Lemma good_quiet {A} (m : Harness.H SQ TD E A) :
  (forall w, Harness.calls (snd (m w)) = Harness.calls w /\
             forall e, fst (m w) <> inl (Harness.Propagated e)) ->
  good m.
Proof.
  intros H w. destruct (H w) as [Hc Hr]. exists []. split.
  - now rewrite app_nil_r.
  - left. split; [constructor | exact Hr].
Qed.

Lemma good_ret {A} (a : A) : good (Harness.ret a).
Proof. apply good_quiet. intros w. split; [reflexivity | discriminate]. Qed.

Lemma good_zero_division {A} :
  good (@Harness.raise SQ TD E A Harness.ZeroDivisionError).
Proof. apply good_quiet. intros w. split; [reflexivity | discriminate]. Qed.

Lemma good_time_time : good (Harness.time_time now).
Proof. apply good_quiet. intros w. split; [reflexivity | discriminate]. Qed.

Lemma good_average (xs : list Q) : good (Harness.average xs).
Proof.
  unfold Harness.average. destruct xs; [apply good_zero_division | apply good_ret].
Qed.

Lemma good_divide (a b : Q) : good (Harness.divide a b).
Proof.
  unfold Harness.divide.
  destruct (Qeq_bool b 0); [apply good_zero_division | apply good_ret].
Qed.

Lemma good_natural_language_query (b : Harness.backend) (query : string) :
  good (Harness.natural_language_query sqlite_nlq tinydb_nlq b query).
Proof.
  intros w. unfold Harness.natural_language_query.
  destruct b.
  - destruct (sqlite_nlq query (Harness.sqlite_storage w)) as [[e|rows] s].
    + eexists. split; [reflexivity |]. right.
      exists [], (Harness.Build_call Harness.SQLiteBackend query (Some e)), e.
      repeat split. constructor.
    + eexists. split; [reflexivity |]. left.
      split; [repeat constructor | discriminate].
  - destruct (tinydb_nlq query (Harness.tinydb_storage w)) as [[e|rows] s].
    + eexists. split; [reflexivity |]. right.
      exists [], (Harness.Build_call Harness.TinyDBBackend query (Some e)), e.
      repeat split. constructor.
    + eexists. split; [reflexivity |]. left.
      split; [repeat constructor | discriminate].
Qed.

Lemma good_bind {A B} (m : Harness.H SQ TD E A) (k : A -> Harness.H SQ TD E B) :
  good m -> (forall a, good (k a)) -> good (Harness.bind m k).
Proof.
  intros Hm Hk w. unfold Harness.bind.
  destruct (Hm w) as (cs1 & Hc1 & H1).
  destruct (m w) as [[e|a] w1]; simpl in *.
  - exists cs1. split; [exact Hc1 |].
    destruct H1 as [[Hr Hn] | (cs0 & c & e' & -> & Hr & Hc & He)].
    + left. split; [exact Hr |]. intros e' Heq. injection Heq as ->. now apply (Hn e').
    + right. exists cs0, c, e'. repeat split; try assumption.
      simpl. now injection He as ->.
  - destruct H1 as [[Hr1 _] | (cs0 & c & e' & _ & _ & _ & He)];
      [| discriminate He].
    destruct (Hk a w1) as (cs2 & Hc2 & H2).
    exists (cs1 ++ cs2)%list. split; [now rewrite Hc2, Hc1, app_assoc |].
    destruct H2 as [[Hr2 Hn] | (cs0 & c & e' & -> & Hr2 & Hc & He)].
    + left. split; [now apply Forall_app | exact Hn].
    + right. exists (cs1 ++ cs0)%list, c, e'. repeat split; try assumption.
      * now rewrite app_assoc.
      * now apply Forall_app.
Qed.

Lemma good_timed_runs (b : Harness.backend) (query : string) (n : nat) :
  forall i times result_count,
    good (Harness.timed_runs sqlite_nlq tinydb_nlq now b query i n times
            result_count).
Proof.
  induction n as [|n IH]; intros i times result_count; simpl.
  - apply good_ret.
  - apply good_bind; [apply good_time_time |]. intros start_time.
    apply good_bind; [apply good_natural_language_query |]. intros results.
    apply good_bind; [apply good_time_time |]. intros end_time.
    apply IH.
Qed.

Lemma good_measure_query (iterations : Z) (query : string)
    (acc : Harness.results) :
  good (Harness.measure_query sqlite_nlq tinydb_nlq now iterations query acc).
Proof.
  unfold Harness.measure_query.
  apply good_bind; [apply good_timed_runs |]. intros sq.
  apply good_bind; [apply good_average |]. intros avg_sqlite_time.
  apply good_bind; [apply good_timed_runs |]. intros td.
  apply good_bind; [apply good_average |]. intros avg_tinydb_time.
  apply good_ret.
Qed.

Lemma good_measure_queries (iterations : Z) (queries : list string) :
  forall acc,
    good (Harness.measure_queries sqlite_nlq tinydb_nlq now iterations queries
            acc).
Proof.
  induction queries as [|query rest IH]; intros acc; simpl.
  - apply good_ret.
  - apply good_bind; [apply good_measure_query | exact IH].
Qed.

Lemma good_run_performance_comparison (queries : list string) (iterations : Z) :
  good (Harness.run_performance_comparison sqlite_nlq tinydb_nlq now queries
          iterations).
Proof.
  unfold Harness.run_performance_comparison.
  apply good_bind; [apply good_measure_queries |]. intros res.
  apply good_bind; [apply good_average |]. intros sqlite_avg_time.
  apply good_bind; [apply good_average |]. intros tinydb_avg_time.
  apply good_bind; [apply good_average |]. intros _.
  apply good_bind; [apply good_average |]. intros _.
  apply good_bind.
  { destruct (Qlt_le_dec sqlite_avg_time tinydb_avg_time); apply good_divide. }
  intros _. apply good_ret.
Qed.

Lemma raised_is_last (cs0 : list (Harness.call E)) (c c' : Harness.call E)
    (e : E) :
  all_returned cs0 -> In c' (cs0 ++ [c])%list ->
  Harness.c_raised c' = Some e -> c' = c.
Proof.
  intros Hr Hin He. apply in_app_or in Hin as [Hin | [<- | []]];
    [| reflexivity].
  unfold all_returned in Hr. rewrite Forall_forall in Hr.
  rewrite (Hr c' Hin) in He. discriminate.
Qed.

(** C5 (amended). The harness has no exception handling of its own: when
    a call of [natural_language_query] raises during a timed run, that
    call is the last one [run_performance_comparison] makes, the
    exception leaves [run_performance_comparison], and no results are
    returned; the runs, backends and questions that would have followed
    are not measured. *)
Theorem C5_harness_propagates
    (queries : list string) (iterations : Z)
    (w w' : Harness.world SQ TD E) (out : Harness.exn E + Harness.results)
    (cs : list (Harness.call E)) (c : Harness.call E) (e : E) :
  Harness.run_performance_comparison sqlite_nlq tinydb_nlq now queries
    iterations w = (out, w') ->
  Harness.calls w' = (Harness.calls w ++ cs)%list ->
  In c cs -> Harness.c_raised c = Some e ->
  out = inl (Harness.Propagated e) /\
  exists cs0, cs = (cs0 ++ [c])%list /\ all_returned cs0.
Proof.
  intros Hrun Hcalls Hin He.
  destruct (good_run_performance_comparison queries iterations w)
    as (cs' & Hc & H).
  rewrite Hrun in Hc, H. simpl in Hc, H.
  rewrite Hcalls in Hc. apply app_inv_head in Hc. subst cs'.
  destruct H as [[Hr _] | (cs0 & c0 & e0 & -> & Hr & Hc0 & Hout)].
  - unfold all_returned in Hr. rewrite Forall_forall in Hr.
    rewrite (Hr c Hin) in He. discriminate.
  - pose proof (raised_is_last cs0 c0 c e Hr Hin He) as ->.
    rewrite Hc0 in He. injection He as ->.
    split; [exact Hout |]. now exists cs0.
Qed.

End HarnessFacts.

(** C5 on the stand-in backends: the relational one raises on the second
    example question, in the first run. *)
Lemma C5_harness_propagates_witness :
  fst (Harness.run_performance_comparison failing_sqlite_nlq steady_tinydb_nlq
         ticking_clock Harness.load_example_queries 5 harness_start)
  = inl (Harness.Propagated "no such table: entities") /\
  exists cs0,
    Harness.calls
      (snd (Harness.run_performance_comparison failing_sqlite_nlq
              steady_tinydb_nlq ticking_clock Harness.load_example_queries 5
              harness_start))
    = (cs0 ++ [Harness.Build_call Harness.SQLiteBackend
                 "What is the capital of France?"
                 (Some "no such table: entities")])%list /\
    all_returned cs0.
Proof.
  pose (run := Harness.run_performance_comparison failing_sqlite_nlq
                 steady_tinydb_nlq ticking_clock Harness.load_example_queries 5
                 harness_start).
  destruct (C5_harness_propagates unit unit string failing_sqlite_nlq
              steady_tinydb_nlq ticking_clock Harness.load_example_queries 5
              harness_start (snd run) (fst run) (Harness.calls (snd run))
              (Harness.Build_call Harness.SQLiteBackend
                 "What is the capital of France?"
                 (Some "no such table: entities"))
              "no such table: entities")
    as [Hout (cs0 & Hcs & Hr)].
  - vm_compute. reflexivity.
  - reflexivity.
  - vm_compute. do 10 right. now left.
  - reflexivity.
  - split; [exact Hout |]. exists cs0. now split.
Defined.

(** C5 as stated fails: with the relational backend raising on the
    second example question, [run_performance_comparison] ends with that
    exception after eleven calls; the four questions that follow are
    never asked, and the document backend is never asked the second. *)
Lemma C5_counterexample :
  let run := Harness.run_performance_comparison failing_sqlite_nlq
               steady_tinydb_nlq ticking_clock Harness.load_example_queries 5
               harness_start in
  fst run = inl (Harness.Propagated "no such table: entities") /\
  map (fun c => (Harness.c_backend c, Harness.c_query c))
    (Harness.calls (snd run))
  = (repeat (Harness.SQLiteBackend, "What is the population of China?") 5
     ++ repeat (Harness.TinyDBBackend, "What is the population of China?") 5
     ++ [(Harness.SQLiteBackend, "What is the capital of France?")])%list.
Proof. vm_compute. split; reflexivity. Qed.

(* ===================================================================== *)
(** * Relational backend: a store is all or nothing                      *)
(* ===================================================================== *)

Lemma runs_as_ret {A} (a : A) : runs_as (SQLite.ret a) (fun d => d).
Proof. intros d0 v fs tr. simpl. now repeat split. Qed.

Lemma runs_as_raise {A} (e : SQLite.exn) f : runs_as (@SQLite.raise A e) f.
Proof. intros d0 v fs tr. simpl. repeat split. discriminate. Qed.

Lemma runs_as_ext {A} (m : SQLite.M A) f g :
  (forall d, f d = g d) -> runs_as m f -> runs_as m g.
Proof.
  intros E H d0 v fs tr. destruct (H d0 v fs tr) as (H1 & H2 & H3).
  repeat split; try assumption.
  destruct (fst (m _)); [exact H3 | now rewrite <- E].
Qed.

Lemma runs_as_execute_update f : runs_as (SQLite.execute_update f) f.
Proof.
  intros d0 v fs tr.
  unfold SQLite.execute_update, SQLite.bind, SQLite.view, SQLite.engine_step,
    SQLite.set_view. simpl.
  destruct fs as [|[] fs]; simpl; repeat split; discriminate.
Qed.

Lemma runs_as_bind {A B} (m : SQLite.M A) (k : A -> SQLite.M B) f g :
  runs_as m f -> (forall a, runs_as (k a) g) ->
  runs_as (SQLite.bind m k) (fun d => g (f d)).
Proof.
  intros Hm Hk d0 v fs tr. cbv zeta.
  destruct (Hm d0 v fs tr) as (H1 & H2 & H3). unfold SQLite.bind.
  destruct (m _) as [[e|a] [d1 c1 fs1 tr1]]; simpl in *.
  - now repeat split.
  - subst d1 c1. destruct (Hk a d0 (f v) fs1 tr1) as (K1 & K2 & K3).
    repeat split; [exact K1 | | exact K3].
    rewrite K2. exact H2.
Qed.

Lemma runs_as_for_each {A} (l : list A) (h : A -> SQLite.M unit)
    (g : A -> SQLite.database -> SQLite.database) :
  (forall x, runs_as (h x) (g x)) ->
  runs_as (SQLite.for_each l h) (fun d => fold_left (fun d' x => g x d') l d).
Proof.
  intros Hh. induction l as [|x l IH]; simpl.
  - apply runs_as_ret.
  - apply (runs_as_bind (h x) (fun _ => SQLite.for_each l h) (g x)
             (fun d => fold_left (fun d' y => g y d') l d));
      [apply Hh | intros _; exact IH].
Qed.

(** [d['entity_id']] followed by something that uses the id. *)
Lemma runs_as_with_id {A} (r : EntityData) (k : string -> SQLite.M A)
    (g : string -> SQLite.database -> SQLite.database) :
  (forall id, runs_as (k id) (g id)) ->
  runs_as (SQLite.bind (SQLite.subscript "entity_id" (entity_id r)) k)
    (g (get_or "" (entity_id r))).
Proof.
  intros Hk. destruct (entity_id r) as [id|]; simpl.
  - intros d0 v fs tr. exact (Hk id d0 v fs tr).
  - intros d0 v fs tr. simpl. repeat split. discriminate.
Qed.

Lemma runs_as_store_alias (r : EntityData) (a : Alias) :
  runs_as (SQLite.store_alias r a)
    (SQLite.insert_alias (get_or "" (entity_id r)) (get_or "" (a_value a))
       (get_or "" (a_language a))).
Proof.
  unfold SQLite.store_alias.
  apply (runs_as_with_id r
           (fun id => SQLite.execute_update
                        (SQLite.insert_alias id (get_or "" (a_value a))
                           (get_or "" (a_language a))))
           (fun id => SQLite.insert_alias id (get_or "" (a_value a))
                        (get_or "" (a_language a)))).
  intros id. apply runs_as_execute_update.
Qed.

Lemma runs_as_store_statement (r : EntityData) (s : Statement) :
  runs_as (SQLite.store_statement r s)
    (fun d => apply_statement (get_or "" (entity_id r)) d s).
Proof.
  unfold SQLite.store_statement, apply_statement.
  destruct (s_property s) as [p|]; [| apply runs_as_ret].
  apply (runs_as_bind _ _
           (SQLite.insert_or_replace_property (get_or "" (property_id p))
              (get_or "" (p_label p)))
           (SQLite.insert_statement (get_or "" (entity_id r))
              (get_or "" (property_id p)) (get_or "" (s_value s))
              (s_entity_id s)));
    [apply runs_as_execute_update |].
  intros _.
  apply (runs_as_with_id r
           (fun id => SQLite.execute_update
                        (SQLite.insert_statement id (get_or "" (property_id p))
                           (get_or "" (s_value s)) (s_entity_id s)))
           (fun id => SQLite.insert_statement id (get_or "" (property_id p))
                        (get_or "" (s_value s)) (s_entity_id s))).
  intros id. apply runs_as_execute_update.
Qed.

Lemma commits_as_commit : commits_as SQLite.commit (fun d => d).
Proof.
  intros d0 v fs tr.
  unfold SQLite.commit, SQLite.bind, SQLite.view, SQLite.engine_step. simpl.
  destruct fs as [|[] fs]; simpl; repeat split; try discriminate;
    unfold SQLite.printed; simpl; rewrite ?flat_map_app; simpl;
    now rewrite ?app_nil_r.
Qed.

Lemma commits_as_bind {A B} (m : SQLite.M A) (k : A -> SQLite.M B) f g :
  runs_as m f -> (forall a, commits_as (k a) g) ->
  commits_as (SQLite.bind m k) (fun d => g (f d)).
Proof.
  intros Hm Hk d0 v fs tr. cbv zeta.
  destruct (Hm d0 v fs tr) as (H1 & H2 & H3). unfold SQLite.bind.
  destruct (m _) as [[e|a] [d1 c1 fs1 tr1]]; simpl in *.
  - now repeat split.
  - subst d1 c1. destruct (Hk a d0 (f v) fs1 tr1) as (K1 & K2 & K3).
    repeat split; [exact K1 | | exact K3].
    rewrite K2. exact H2.
Qed.

(** The [try] block of [store_entity] commits [stored], or nothing. *)
Lemma commits_as_store_entity_try (r : EntityData) :
  commits_as (SQLite.store_entity_try r) (stored (get_or "" (entity_id r)) r).
Proof.
  set (id := get_or "" (entity_id r)).
  unfold SQLite.store_entity_try, stored. fold id.
  set (row := {| SQLite.e_id := id;
                 SQLite.e_label := get_or "" (label r);
                 SQLite.e_description := get_or "" (description r);
                 SQLite.e_type := get_or "" (type r) |}).
  set (fa := fun d : SQLite.database =>
               match present_nonempty (aliases r) with
               | Some al => apply_aliases id al (SQLite.delete_aliases id d)
               | None => d
               end).
  set (fst_ := fun d : SQLite.database =>
                 match present_nonempty (statements r) with
                 | Some sl => apply_statements id sl (SQLite.delete_statements id d)
                 | None => d
                 end).
  apply (commits_as_bind _ _ (SQLite.insert_or_replace_entity row)
           (fun d => fst_ (fa d))); [apply runs_as_execute_update |].
  intros _.
  apply (commits_as_bind _ _ fa fst_).
  { unfold fa. destruct (present_nonempty (aliases r)) as [al|];
      [| apply runs_as_ret].
    apply (runs_as_with_id r
             (fun i => SQLite.bind (SQLite.execute_update (SQLite.delete_aliases i))
                         (fun _ => SQLite.for_each al (SQLite.store_alias r)))
             (fun i d => apply_aliases id al (SQLite.delete_aliases i d))).
    intros i.
    apply (runs_as_bind _ _ (SQLite.delete_aliases i) (apply_aliases id al));
      [apply runs_as_execute_update |].
    intros _. unfold apply_aliases.
    apply (runs_as_for_each al (SQLite.store_alias r)
             (fun a => SQLite.insert_alias id (get_or "" (a_value a))
                         (get_or "" (a_language a)))).
    intros a. apply runs_as_store_alias. }
  intros _.
  apply (commits_as_bind _ _ fst_ (fun d => d)); [| intros _; apply commits_as_commit].
  unfold fst_. destruct (present_nonempty (statements r)) as [sl|];
    [| apply runs_as_ret].
  apply (runs_as_with_id r
           (fun i => SQLite.bind (SQLite.execute_update (SQLite.delete_statements i))
                       (fun _ => SQLite.for_each sl (SQLite.store_statement r)))
           (fun i d => apply_statements id sl (SQLite.delete_statements i d))).
  intros i.
  apply (runs_as_bind _ _ (SQLite.delete_statements i) (apply_statements id sl));
    [apply runs_as_execute_update |].
  intros _. unfold apply_statements.
  apply (runs_as_for_each sl (SQLite.store_statement r)
           (fun s d => apply_statement id d s)).
  intros s. apply runs_as_store_statement.
Qed.

Lemma printed_app (d : SQLite.database) c fs (tr1 tr2 : list SQLite.event) :
  SQLite.printed (SQLite.Build_world d c fs (tr1 ++ tr2))
  = (SQLite.printed (SQLite.Build_world d c fs tr1)
     ++ SQLite.printed (SQLite.Build_world d c fs tr2))%list.
Proof. unfold SQLite.printed. simpl. apply flat_map_app. Qed.

(** The outcomes of one [store_entity] on an open connection. *)
Lemma store_entity_opened (r : EntityData) d c fs tr :
  exists w',
    SQLite.try_except_finally (SQLite.store_entity_try r)
      (fun e =>
         SQLite.bind
           (SQLite.print (SQLite.StoreFailed (get_or "unknown" (entity_id r)) e))
           (fun _ => SQLite.rollback))
      SQLite.close
      (SQLite.Build_world d (Some d) fs (tr ++ [SQLite.EvConnect])%list)
    = (inr tt, w') /\
    SQLite.conn w' = None /\
    ((SQLite.disk w' = d /\
      exists e,
        SQLite.printed w'
        = (SQLite.printed (SQLite.Build_world d c fs tr)
           ++ [SQLite.StoreFailed (get_or "unknown" (entity_id r)) e])%list)
     \/
     (SQLite.disk w' = stored (get_or "" (entity_id r)) r d /\
      SQLite.printed w' = SQLite.printed (SQLite.Build_world d c fs tr))).
Proof.
  pose proof (commits_as_store_entity_try r d d fs (tr ++ [SQLite.EvConnect])%list)
    as H.
  cbv zeta in H. destruct H as (Hopen & Hpr & Hres).
  rewrite printed_app in Hpr. simpl in Hpr. rewrite app_nil_r in Hpr.
  unfold SQLite.try_except_finally.
  destruct (SQLite.store_entity_try r _) as [[e|[]] [d1 c1 fs1 tr1]];
    simpl in Hopen, Hpr, Hres.
  - destruct c1 as [v1|]; [| congruence]. subst d1.
    unfold SQLite.bind, SQLite.print, SQLite.emit, SQLite.rollback, SQLite.bind,
      SQLite.view, SQLite.close. simpl.
    eexists. split; [reflexivity |]. split; [reflexivity |]. left.
    split; [reflexivity |]. exists e. unfold SQLite.printed. simpl.
    unfold SQLite.printed in Hpr. simpl in Hpr.
    rewrite !flat_map_app. simpl. rewrite !app_nil_r. now rewrite Hpr.
  - unfold SQLite.close. simpl.
    eexists. split; [reflexivity |]. split; [reflexivity |]. right.
    split; [exact Hres |]. unfold SQLite.printed. simpl.
    unfold SQLite.printed in Hpr. simpl in Hpr.
    rewrite flat_map_app. simpl. rewrite app_nil_r. exact Hpr.
Qed.

(** The outcomes of one [store_entity]: the connection cannot be opened
    and the exception leaves the call, or the call returns after a
    rollback or after a commit. *)
Lemma store_entity_outcome (r : EntityData) (w : SQLite.world) :
  match SQLite.connect w with
  | (inl e, w0) =>
      SQLite.store_entity r w = (inl e, w0) /\
      e = SQLite.OperationalError /\
      SQLite.disk w0 = SQLite.disk w /\
      SQLite.conn w0 = SQLite.conn w /\
      SQLite.printed w0 = SQLite.printed w
  | (inr _, _) =>
      exists w',
        SQLite.store_entity r w = (inr tt, w') /\
        SQLite.conn w' = None /\
        ((SQLite.disk w' = SQLite.disk w /\
          exists e,
            SQLite.printed w'
            = (SQLite.printed w
               ++ [SQLite.StoreFailed (get_or "unknown" (entity_id r)) e])%list)
         \/
         (SQLite.disk w' = stored (get_or "" (entity_id r)) r (SQLite.disk w) /\
          SQLite.printed w' = SQLite.printed w))
  end.
Proof.
  destruct w as [d c fs tr].
  unfold SQLite.store_entity, SQLite.bind at 1, SQLite.connect.
  cbn [SQLite.disk SQLite.conn SQLite.faults SQLite.trace].
  destruct fs as [|[] fs]; cbn [tl].
  - exact (store_entity_opened r d c [] tr).
  - now repeat split.
  - destruct (store_entity_opened r d c fs tr) as (w' & Hrun & Hc & Hd).
    exists w'. split; [exact Hrun |]. split; [exact Hc |]. exact Hd.
Qed.

(** X1. [store_entity] is all or nothing under every pattern of
    failures. When the database file cannot be opened, the exception of
    [sqlite3.connect] leaves the call and nothing was written or
    printed. Once the connection is open, the call returns normally
    with the connection closed, whichever statement or commit fails,
    and either the database file is what it was and exactly one failure
    message was printed, or the file holds the complete effect of the
    record ([stored]) and nothing was printed. *)
Theorem store_entity_all_or_nothing (r : EntityData) (w : SQLite.world) :
  match SQLite.connect w with
  | (inl e, w0) =>
      SQLite.store_entity r w = (inl e, w0) /\
      e = SQLite.OperationalError /\
      SQLite.disk w0 = SQLite.disk w /\
      SQLite.conn w0 = SQLite.conn w /\
      SQLite.printed w0 = SQLite.printed w
  | (inr _, _) =>
      exists w',
        SQLite.store_entity r w = (inr tt, w') /\
        SQLite.conn w' = None /\
        ((SQLite.disk w' = SQLite.disk w /\
          exists e,
            SQLite.printed w'
            = (SQLite.printed w
               ++ [SQLite.StoreFailed (get_or "unknown" (entity_id r)) e])%list)
         \/
         (SQLite.disk w' = stored (get_or "" (entity_id r)) r (SQLite.disk w) /\
          SQLite.printed w' = SQLite.printed w))
  end.
Proof. exact (store_entity_outcome r w). Qed.

(** One [store_entity] leaves the database file as it was or as
    [stored] describes, whether it returns or raises. *)
Lemma store_entity_disk (r : EntityData) (w : SQLite.world) :
  SQLite.disk (snd (SQLite.store_entity r w)) = SQLite.disk w \/
  SQLite.disk (snd (SQLite.store_entity r w))
  = stored (get_or "" (entity_id r)) r (SQLite.disk w).
Proof.
  pose proof (store_entity_outcome r w) as H.
  destruct (SQLite.connect w) as [[e|[]] w0].
  - destruct H as (Hrun & _ & Hd & _). rewrite Hrun. now left.
  - destruct H as (w' & Hrun & _ & [[Hd _] | [Hd _]]); rewrite Hrun;
      [now left | now right].
Qed.

(** What [stored] keeps, every batch keeps, whatever fails on the
    way and wherever the batch stops. *)
Lemma batch_keeps (Q : SQLite.database -> Prop) (rs : list EntityData) :
  (forall id r d, Q d -> Q (stored id r d)) ->
  forall w,
    Q (SQLite.disk w) ->
    Q (SQLite.disk (snd (SQLite.for_each rs SQLite.store_entity w))).
Proof.
  intros HQ. induction rs as [|r rs IH]; intros w H.
  - exact H.
  - cbn [SQLite.for_each]. unfold SQLite.bind at 1.
    assert (H1 : Q (SQLite.disk (snd (SQLite.store_entity r w)))).
    { destruct (store_entity_disk r w) as [E | E]; rewrite E;
        [exact H | now apply HQ]. }
    destruct (SQLite.store_entity r w) as [[e|[]] w1]; [exact H1 |].
    now apply IH.
Qed.

Lemma built_keeps (Q : SQLite.database -> Prop) (rs : list EntityData)
    (fs : list bool) :
  (forall id r d, Q d -> Q (stored id r d)) ->
  Q SQLite.empty_database -> Q (built rs fs).
Proof.
  intros HQ H0. unfold built.
  exact (batch_keeps Q rs HQ (SQLite.fresh SQLite.empty_database fs) H0).
Qed.

(* ===================================================================== *)
(** * Relational backend: the label of a property is the last one stored  *)
(* ===================================================================== *)

Lemma stated_labels_stored (id : string) (r : EntityData) d :
  SQLite.tbl_properties (stored id r d)
  = props_after (stated_labels r) (SQLite.tbl_properties d).
Proof.
  rewrite stored_properties. unfold stated_labels.
  destruct (statements r) as [[|s sl]|]; reflexivity.
Qed.

Lemma printed_grows (w w' : SQLite.world) (m : SQLite.message) :
  SQLite.printed w' = (SQLite.printed w ++ [m])%list ->
  (length (SQLite.printed w) <? length (SQLite.printed w'))%nat = true.
Proof. intros E. rewrite E, length_app. simpl. apply Nat.ltb_lt. lia. Qed.

(** The properties table after a sequence of calls, whatever failed on
    the way: the upserts of the committed records, in order. *)
Lemma properties_after_run (rs : list EntityData) :
  forall w,
    SQLite.tbl_properties
      (SQLite.disk (snd (SQLite.for_each rs SQLite.store_entity w)))
    = props_after (flat_map stated_labels (committed rs w))
        (SQLite.tbl_properties (SQLite.disk w)).
Proof.
  induction rs as [|r rs IH]; intros w; [reflexivity |].
  cbn [SQLite.for_each committed]. unfold SQLite.bind at 1.
  pose proof (store_entity_outcome r w) as Ho.
  destruct (SQLite.connect w) as [[e|[]] w0].
  - destruct Ho as (Hrun & _ & Hd & _). rewrite Hrun. cbn [snd flat_map].
    now rewrite Hd.
  - destruct Ho as (w1 & Hrun & _ & [[Hd (e & Hp)] | [Hd Hp]]); rewrite Hrun.
    + rewrite (printed_grows w w1 _ Hp). rewrite IH. now rewrite Hd.
    + rewrite Hp, Nat.ltb_irrefl. cbn [flat_map].
      rewrite props_after_app, IH, Hd. now rewrite stated_labels_stored.
Qed.

(** Without a failure every record that has an [entity_id] is
    committed. *)
Lemma committed_fault_free (rs : list EntityData) :
  (forall r, In r rs -> entity_id r <> None) ->
  forall d c tr, committed rs (SQLite.Build_world d c [] tr) = rs.
Proof.
  induction rs as [|r rs IH]; intros Hid d c tr; [reflexivity |].
  cbn [committed].
  destruct (entity_id r) as [id|] eqn:E;
    [| exfalso; apply (Hid r); [now left | exact E]].
  rewrite (store_entity_ok r id d c tr E).
  replace (length (SQLite.printed (SQLite.Build_world d c [] tr))
           <? length
                (SQLite.printed
                   (SQLite.Build_world (stored id r d) None []
                      (tr ++ [SQLite.EvConnect] ++ [SQLite.EvCommit]
                          ++ [SQLite.EvClose]))))%nat
    with false.
  - f_equal. apply IH. intros r' Hr'. apply Hid. now right.
  - symmetry. unfold SQLite.printed. cbn [SQLite.trace].
    rewrite flat_map_app. simpl. rewrite app_nil_r. apply Nat.ltb_irrefl.
Qed.

(** C8. In the relational backend, after any sequence of [store_entity]
    calls, whatever failed on the way, the properties table has at most
    one row per property id, and each property id holds the label of
    the last statement mentioning it among the records that were
    stored, that is committed (and the label it had before, if none
    mentioned it): a call that failed has changed no label. When
    nothing fails, every record that has an [entity_id] is stored. *)
Theorem C8_properties_unique_last_label
    (rs : list EntityData) (d0 : SQLite.database) (fs : list bool) :
  unique_properties d0 ->
  let d' :=
    SQLite.disk
      (snd (SQLite.for_each rs SQLite.store_entity (SQLite.fresh d0 fs))) in
  unique_properties d' /\
  (forall pid,
      property_label pid d'
      = match last_label
                (flat_map stated_labels (committed rs (SQLite.fresh d0 fs)))
                pid with
        | Some l => Some l
        | None => property_label pid d0
        end) /\
  ((forall r, In r rs -> entity_id r <> None) ->
   committed rs (SQLite.fresh d0 []) = rs).
Proof.
  intros Hu d'. split; [| split].
  - apply hw_batch; [apply unique_properties_kept | exact Hu].
  - intros pid. unfold d', property_label.
    rewrite properties_after_run. apply label_in_props_after.
  - intros Hid. now apply committed_fault_free.
Qed.

(** C8 on the sample data: Q148 is stored, the store of Q956 fails at
    its commit, after its property rows were written, and a third
    record gives P1082 two labels. P1082 ends with the last of them,
    not with the one Q956 gave it, P36 keeps the label Q148 gave it,
    and P17, which only Q956 mentions, has no row. *)
Lemma C8_properties_unique_last_label_witness :
  let d' :=
    SQLite.disk
      (snd (SQLite.for_each [sample_Q148; sample_Q956; sample_two_labels]
              SQLite.store_entity
              (SQLite.fresh SQLite.empty_database
                 (repeat false 24 ++ [true])%list))) in
  unique_properties d' /\
  property_label "P1082" d' = Some "inhabitants" /\
  property_label "P36" d' = Some "首都" /\
  property_label "P17" d' = None.
Proof.
  intros d'.
  destruct (C8_properties_unique_last_label
              [sample_Q148; sample_Q956; sample_two_labels]
              SQLite.empty_database (repeat false 24 ++ [true])%list)
    as (Hu & Hl & _).
  - constructor.
  - split; [exact Hu |]. unfold d'. rewrite !Hl. vm_compute. repeat split.
Defined.

(* ===================================================================== *)
(** * Relational backend: declared references always resolve             *)
(* ===================================================================== *)

Lemma ids_replace_property (x p l : string) (ps : list SQLite.property_row) :
  In x (map SQLite.pr_id (SQLite.replace_property p l ps)) <->
  x = p \/ In x (map SQLite.pr_id ps).
Proof.
  unfold SQLite.replace_property. rewrite map_app, in_app_iff. simpl. split.
  - intros [H | [H | []]]; [right | left; now symmetry].
    apply in_map_filter_id in H. apply H.
  - intros [-> | H]; [right; now left |].
    destruct (String.eqb_spec x p) as [-> | Hne]; [right; now left |].
    left. apply in_map_iff in H as (row & <- & Hrow). apply in_map_iff.
    exists row. split; [reflexivity |]. apply filter_In. split; [exact Hrow |].
    apply negb_true_iff. now apply String.eqb_neq.
Qed.

Lemma ids_props_after (x : string) (ms : list (string * string)) :
  forall ps,
    In x (map SQLite.pr_id (props_after ms ps)) <->
    In x (map fst ms) \/ In x (map SQLite.pr_id ps).
Proof.
  induction ms as [|[p l] ms IH]; intros ps; simpl; [tauto |].
  change (props_after ((p, l) :: ms) ps)
    with (props_after ms (SQLite.replace_property p l ps)).
  rewrite IH, ids_replace_property. intuition congruence.
Qed.

Lemma in_apply_aliases (id : string) (al : list Alias) :
  forall d a,
    In a (SQLite.tbl_aliases (apply_aliases id al d)) ->
    In a (SQLite.tbl_aliases d) \/ SQLite.al_entity_id a = id.
Proof.
  induction al as [|x al IH]; intros d a H; [now left |].
  change (apply_aliases id (x :: al) d)
    with (apply_aliases id al
            (SQLite.insert_alias id (get_or "" (a_value x))
               (get_or "" (a_language x)) d)) in H.
  apply IH in H as [H | H]; [| now right].
  simpl in H. apply in_app_or in H as [H | [<- | []]]; [now left | now right].
Qed.

Lemma in_apply_statements (id : string) (sl : list Statement) :
  forall d s,
    In s (SQLite.tbl_statements (apply_statements id sl d)) ->
    In s (SQLite.tbl_statements d) \/
    (SQLite.st_entity_id s = id /\
     In (SQLite.st_property_id s) (map fst (statement_mentions sl))).
Proof.
  induction sl as [|x sl IH]; intros d s H; [now left |].
  change (apply_statements id (x :: sl) d)
    with (apply_statements id sl (apply_statement id d x)) in H.
  unfold statement_mentions. simpl flat_map. fold (statement_mentions sl).
  rewrite map_app, in_app_iff.
  apply IH in H as [H | [H1 H2]]; [| right; now auto].
  unfold apply_statement in H. destruct (s_property x) as [p|]; [| now left].
  simpl in H. apply in_app_or in H as [H | [<- | []]]; [now left |].
  right. simpl. now auto.
Qed.

Lemma stored_statements_in (id : string) (r : EntityData) d s :
  In s (SQLite.tbl_statements (stored id r d)) ->
  In s (SQLite.tbl_statements d) \/
  (SQLite.st_entity_id s = id /\
   exists sl, present_nonempty (statements r) = Some sl /\
              In (SQLite.st_property_id s) (map fst (statement_mentions sl))).
Proof.
  destruct (present_nonempty (statements r)) as [sl|] eqn:Hsl.
  - unfold stored. rewrite Hsl. intros H.
    apply in_apply_statements in H as [H | [H1 H2]].
    + left. simpl in H. apply filter_In in H as [H _].
      destruct (present_nonempty (aliases r)); simpl in H;
        rewrite ?(proj2 (proj2 (apply_aliases_tables id _ _))) in H; exact H.
    + right. split; [exact H1 |]. now exists sl.
  - rewrite stored_statements_kept by exact Hsl. now left.
Qed.

Lemma stored_aliases_in (id : string) (r : EntityData) d a :
  In a (SQLite.tbl_aliases (stored id r d)) ->
  In a (SQLite.tbl_aliases d) \/ SQLite.al_entity_id a = id.
Proof.
  rewrite stored_aliases. destruct (present_nonempty (aliases r)) as [al|];
    [| now left].
  intros H. apply in_apply_aliases in H as [H | H]; [| now right].
  left. simpl in H. now apply filter_In in H.
Qed.

Lemma stored_entity_ids (id : string) (r : EntityData) d (x : string) :
  In x (map SQLite.e_id (SQLite.tbl_entities (stored id r d))) <->
  x = id \/ In x (map SQLite.e_id (SQLite.tbl_entities d)).
Proof.
  rewrite stored_entities, map_app, in_app_iff. simpl. split.
  - intros [H | [H | []]]; [right | left; now symmetry].
    apply in_map_iff in H as (row & <- & Hrow). apply filter_In in Hrow.
    apply in_map. apply Hrow.
  - intros [-> | H]; [right; now left |].
    destruct (String.eqb_spec x id) as [-> | Hne]; [right; now left |].
    left. apply in_map_iff in H as (row & <- & Hrow). apply in_map_iff.
    exists row. split; [reflexivity |]. apply filter_In. split; [exact Hrow |].
    apply negb_true_iff. now apply String.eqb_neq.
Qed.

Lemma stored_property_ids (id : string) (r : EntityData) d (x : string) :
  In x (map SQLite.pr_id (SQLite.tbl_properties (stored id r d))) <->
  (exists sl, present_nonempty (statements r) = Some sl /\
              In x (map fst (statement_mentions sl))) \/
  In x (map SQLite.pr_id (SQLite.tbl_properties d)).
Proof.
  rewrite stored_properties.
  destruct (present_nonempty (statements r)) as [sl|].
  - rewrite ids_props_after. split.
    + intros [H | H]; [left; now exists sl | now right].
    + intros [(sl' & E & H) | H]; [left; now injection E as <- | now right].
  - split; [now right |]. intros [(sl' & E & _) | H]; [discriminate | exact H].
Qed.

Lemma references_resolve_stored (id : string) (r : EntityData) d :
  references_resolve d -> references_resolve (stored id r d).
Proof.
  intros [Ha Hs]. split.
  - intros a Hin. apply stored_entity_ids.
    apply stored_aliases_in in Hin as [Hin | Hin]; [right; now apply Ha | now left].
  - intros s Hin. rewrite stored_entity_ids, stored_property_ids.
    apply stored_statements_in in Hin as [Hin | [Hid Hp]].
    + destruct (Hs s Hin) as [H1 H2]. split; now right.
    + split; now left.
Qed.

(** The references resolve in every database built by stores. *)
Lemma references_resolve_built (rs : list EntityData) (fs : list bool) :
  references_resolve (built rs fs).
Proof.
  apply built_keeps.
  - intros id r d. apply references_resolve_stored.
  - split; intros x [].
Qed.

(** X2. Of the four references [create_tables] declares, three are kept
    by the code itself: in every database a sequence of [store_entity]
    calls builds from the empty one, under every pattern of engine
    failures, each alias and each statement belongs to a stored entity
    and each statement's property has a row. The fourth, from the
    entity a statement points to ([entity_value_id]) to an entity row,
    is not kept: storing Q148, whose statement points to Q48, on an
    empty database leaves a statement row that names Q48 and no entity
    row of that id. *)
Theorem built_references_resolve (rs : list EntityData) (fs : list bool) :
  references_resolve (built rs fs) /\
  (exists s,
      In s (SQLite.tbl_statements (built [sample_Q148_v2] [])) /\
      SQLite.st_entity_value_id s = Some "Q48" /\
      ~ In "Q48" (map SQLite.e_id
                    (SQLite.tbl_entities (built [sample_Q148_v2] [])))) /\
  ~ value_references_resolve (built [sample_Q148_v2] []).
Proof.
  assert (Hv : exists s,
             In s (SQLite.tbl_statements (built [sample_Q148_v2] [])) /\
             SQLite.st_entity_value_id s = Some "Q48" /\
             ~ In "Q48" (map SQLite.e_id
                           (SQLite.tbl_entities (built [sample_Q148_v2] [])))).
  { vm_compute. eexists. split; [left; reflexivity |].
    split; [reflexivity |]. intros [E | []]. discriminate E. }
  split; [exact (references_resolve_built rs fs) |].
  split; [exact Hv |].
  intros H. destruct Hv as (s & Hin & Es & Hno). exact (Hno (H s "Q48" Hin Es)).
Qed.

Lemma built_unique_properties (rs : list EntityData) (fs : list bool) :
  unique_properties (built rs fs).
Proof.
  apply built_keeps; [intros id r d; apply unique_properties_stored | constructor].
Qed.

Lemma label_in_present (pid : string) (ps : list SQLite.property_row) :
  In pid (map SQLite.pr_id ps) -> exists l, label_in pid ps = Some l.
Proof.
  unfold label_in. induction ps as [|p ps IH]; simpl; [intros [] |].
  intros [E | H].
  - rewrite E, String.eqb_refl. now eexists.
  - destruct (SQLite.pr_id p =? pid); [now eexists | now apply IH].
Qed.

Lemma join_all_rows (ps : list SQLite.property_row)
    (rows : list SQLite.statement_row) :
  NoDup (map SQLite.pr_id ps) ->
  (forall s, In s rows -> In (SQLite.st_property_id s) (map SQLite.pr_id ps)) ->
  map (fun x => (fst (fst (fst (fst x))), snd (fst (fst (fst x))),
                 snd (fst x), snd x))
    (flat_map (SQLite.join_properties ps) rows)
  = map (fun s => (SQLite.st_id s, SQLite.st_property_id s, SQLite.st_value s,
                   SQLite.st_entity_value_id s)) rows.
Proof.
  intros Hu. induction rows as [|s rows IH]; intros Hin; [reflexivity |].
  cbn [flat_map]. rewrite map_app. cbn [map]. rewrite IH by (intros; apply Hin; now right).
  destruct (label_in_present _ ps (Hin s (or_introl eq_refl))) as [l Hl].
  unfold SQLite.join_properties at 1.
  rewrite (filter_unique_property _ l ps Hu Hl). reflexivity.
Qed.

(** X3. The join of [get_entity_by_id] loses no statement and repeats
    none: on every database built by [store_entity] calls, under every
    pattern of engine failures, a successful [get_entity_by_id] returns
    the statement rows of the entity one for one, with their ids,
    property ids and values, and with the referenced entity when it is
    not empty. *)
Theorem get_entity_by_id_returns_every_statement
    (rs : list EntityData) (fs : list bool) (id : string) (e : SQLite.Entity) :
  fst (SQLite.get_entity_by_id id (SQLite.fresh (built rs fs) [])) = inr (Some e) ->
  map (fun s => (SQLite.so_id s, SQLite.po_id (SQLite.so_property s),
                 SQLite.so_value s, SQLite.so_entity_id s))
    (SQLite.r_statements e)
  = map (fun s => (SQLite.st_id s, SQLite.st_property_id s, SQLite.st_value s,
                   truthy_ref (SQLite.st_entity_value_id s)))
      (filter (fun s => SQLite.st_entity_id s =? id)
         (SQLite.tbl_statements (built rs fs))).
Proof.
  unfold SQLite.fresh. rewrite get_entity_by_id_ok. cbn [fst].
  unfold lookup_entity.
  destruct (SQLite.select_entity id (built rs fs)) as [|row rows];
    [discriminate |].
  intros E. injection E as <-. cbn [SQLite.r_statements].
  unfold SQLite.select_statements.
  set (mine := filter (fun s => SQLite.st_entity_id s =? id)
                 (SQLite.tbl_statements (built rs fs))).
  assert (Hj := join_all_rows (SQLite.tbl_properties (built rs fs)) mine
                  (built_unique_properties rs fs)).
  assert (Hin : forall s, In s mine ->
            In (SQLite.st_property_id s)
              (map SQLite.pr_id (SQLite.tbl_properties (built rs fs)))).
  { intros s Hs. apply filter_In in Hs as [Hs _].
    now apply (proj2 (references_resolve_built rs fs)). }
  specialize (Hj Hin).
  rewrite map_map.
  transitivity
    (map (fun x => (fst (fst (fst x)), snd (fst (fst x)), snd (fst x),
                    truthy_ref (snd x)))
       (map (fun x => (fst (fst (fst (fst x))), snd (fst (fst (fst x))),
                       snd (fst x), snd x))
          (flat_map (SQLite.join_properties (SQLite.tbl_properties (built rs fs)))
             mine))).
  - rewrite map_map. apply map_ext. intros [[[[sid pid] pl] v] ref]. reflexivity.
  - rewrite Hj, map_map. reflexivity.
Qed.

(** X3 on the sample data: the two sample entities were stored, the
    second store of Q148 failed on the way. *)
Lemma get_entity_by_id_returns_every_statement_witness :
  exists e,
    fst (SQLite.get_entity_by_id "Q148"
           (SQLite.fresh
              (built [sample_Q148; sample_Q956; sample_Q148_v2]
                 (repeat false 26 ++ [true])%list) []))
    = inr (Some e) /\
    map (fun s => (SQLite.so_id s, SQLite.po_id (SQLite.so_property s),
                   SQLite.so_value s, SQLite.so_entity_id s))
      (SQLite.r_statements e)
    = map (fun s => (SQLite.st_id s, SQLite.st_property_id s, SQLite.st_value s,
                     truthy_ref (SQLite.st_entity_value_id s)))
        (filter (fun s => SQLite.st_entity_id s =? "Q148")
           (SQLite.tbl_statements
              (built [sample_Q148; sample_Q956; sample_Q148_v2]
                 (repeat false 26 ++ [true])%list))).
Proof.
  eexists. split; [vm_compute; reflexivity |].
  apply (get_entity_by_id_returns_every_statement
           [sample_Q148; sample_Q956; sample_Q148_v2]
           (repeat false 26 ++ [true])%list "Q148").
  vm_compute. reflexivity.
Defined.

(* ===================================================================== *)
(** * Relational backend: row ids                                        *)
(* ===================================================================== *)

Lemma NoDup_map_snoc_above {A} (f : A -> Z) (l : list A) (x : A) (k : Z) :
  NoDup (map f l) -> (forall y, In y l -> (f y <= k)%Z) -> (k < f x)%Z ->
  NoDup (map f (l ++ [x])).
Proof.
  intros Hnd Hle Hx. rewrite map_app. apply NoDup_app; [exact Hnd | |].
  - simpl. constructor; [intros [] | constructor].
  - intros z Hz [E | []]. simpl in E. subst z.
    apply in_map_iff in Hz as (y & E & Hy). specialize (Hle y Hy). lia.
Qed.

Lemma rowids_fresh_kept : kept_by_statements rowids_fresh.
Proof.
  unfold kept_by_statements, rowids_fresh. repeat split; simpl;
    try tauto;
    try (destruct H as (H1 & H2 & H3 & H4); assumption).
  all: destruct H as (H1 & H2 & H3 & H4).
  all: try (now apply NoDup_map_filter).
  all: try (intros x Hx; apply filter_In in Hx as [Hx _]; now auto).
  - apply (NoDup_map_snoc_above _ _ _ (SQLite.seq_aliases d));
      [assumption | assumption | simpl; lia].
  - intros a Ha. apply in_app_or in Ha as [Ha | [<- | []]];
      [specialize (H2 a Ha); lia | simpl; lia].
  - apply (NoDup_map_snoc_above _ _ _ (SQLite.seq_statements d));
      [assumption | assumption | simpl; lia].
  - intros s Hs. apply in_app_or in Hs as [Hs | [<- | []]];
      [specialize (H4 s Hs); lia | simpl; lia].
Qed.

(** X4. The ids of alias rows and of statement rows are never shared:
    in every database built by [store_entity] calls, under every
    pattern of engine failures, no two alias rows and no two statement
    rows have the same id. *)
Theorem built_row_ids_unique (rs : list EntityData) (fs : list bool) :
  NoDup (map SQLite.al_id (SQLite.tbl_aliases (built rs fs))) /\
  NoDup (map SQLite.st_id (SQLite.tbl_statements (built rs fs))).
Proof.
  assert (H : rowids_fresh (built rs fs)).
  { unfold built. apply hw_batch; [apply rowids_fresh_kept |].
    repeat split; try constructor; intros x []. }
  destruct H as (H1 & _ & H3 & _). now split.
Qed.

Lemma apply_statements_new_ids (id : string) (sl : list Statement) :
  forall d s,
    In s (SQLite.tbl_statements (apply_statements id sl d)) ->
    In s (SQLite.tbl_statements d) \/ (SQLite.seq_statements d < SQLite.st_id s)%Z.
Proof.
  induction sl as [|x sl IH]; intros d s H; [now left |].
  change (apply_statements id (x :: sl) d)
    with (apply_statements id sl (apply_statement id d x)) in H.
  apply IH in H. unfold apply_statement in H.
  destruct (s_property x) as [p|]; [| exact H]. simpl in H.
  destruct H as [H | H]; [| right; lia].
  apply in_app_or in H as [H | [<- | []]]; [now left | right; simpl; lia].
Qed.

Lemma stored_seq_statements (id : string) (r : EntityData) d sl :
  present_nonempty (statements r) = Some sl ->
  exists d2,
    SQLite.tbl_statements (stored id r d)
    = SQLite.tbl_statements (apply_statements id sl (SQLite.delete_statements id d2))
    /\ SQLite.tbl_statements d2 = SQLite.tbl_statements d
    /\ SQLite.seq_statements d2 = SQLite.seq_statements d.
Proof.
  intros Hsl. unfold stored. rewrite Hsl.
  eexists. split; [reflexivity |].
  assert (Hseq : forall al d1,
             SQLite.seq_statements (apply_aliases id al d1)
             = SQLite.seq_statements d1).
  { induction al as [|a al IH]; intros d1; [reflexivity |].
    change (apply_aliases id (a :: al) d1)
      with (apply_aliases id al
              (SQLite.insert_alias id (get_or "" (a_value a))
                 (get_or "" (a_language a)) d1)).
    now rewrite IH. }
  destruct (present_nonempty (aliases r)) as [al|]; simpl;
    rewrite ?(proj2 (proj2 (apply_aliases_tables id _ _))), ?Hseq; now split.
Qed.

(** X5. Statement ids are not stable across a re-import: after a
    committed store of a record with a non-empty statement list, every
    statement row of that entity has an id above every statement id the
    table held before, the entity's own earlier statements included. *)
Theorem stored_statements_get_new_ids
    (r : EntityData) (id : string) (sl : list Statement)
    (d : SQLite.database) (s s' : SQLite.statement_row) :
  entity_id r = Some id ->
  present_nonempty (statements r) = Some sl ->
  rowids_fresh d ->
  In s (SQLite.tbl_statements
          (SQLite.disk (snd (SQLite.store_entity r (SQLite.fresh d []))))) ->
  SQLite.st_entity_id s = id ->
  In s' (SQLite.tbl_statements d) ->
  (SQLite.st_id s' < SQLite.st_id s)%Z.
Proof.
  intros Hid Hsl (_ & _ & _ & Hle) Hs Hsid Hs'.
  unfold SQLite.fresh in Hs. rewrite (store_entity_ok r id d None [] Hid) in Hs.
  cbn [snd SQLite.disk] in Hs.
  destruct (stored_seq_statements id r d sl Hsl) as (d2 & E & Et & Eseq).
  rewrite E in Hs. apply apply_statements_new_ids in Hs as [Hs | Hs].
  - simpl in Hs. apply filter_In in Hs as [_ Hs].
    apply negb_true_iff, String.eqb_neq in Hs. contradiction.
  - simpl in Hs. rewrite Eseq in Hs. specialize (Hle s' Hs'). lia.
Qed.

(** X5 on the sample data: Q148 is stored over a database that holds it
    already; its first statement now has id 4, above the old id 3. *)
Lemma stored_statements_get_new_ids_witness : (3 < 4)%Z.
Proof.
  apply (stored_statements_get_new_ids sample_Q148 "Q148"
           (get_or [] (statements sample_Q148))
           (stored "Q148" sample_Q148 SQLite.empty_database)
           {| SQLite.st_id := 4; SQLite.st_entity_id := "Q148";
              SQLite.st_property_id := "P36"; SQLite.st_value := "北京";
              SQLite.st_entity_value_id := Some "Q956" |}
           {| SQLite.st_id := 3; SQLite.st_entity_id := "Q148";
              SQLite.st_property_id := "P1082"; SQLite.st_value := "14亿";
              SQLite.st_entity_value_id := None |}).
  - reflexivity.
  - reflexivity.
  - apply (hw_batch rowids_fresh [sample_Q148] SQLite.empty_database []
             rowids_fresh_kept).
    repeat split; try constructor; intros x [].
  - vm_compute. now left.
  - reflexivity.
  - vm_compute. do 2 right. now left.
Defined.

(* ===================================================================== *)
(** * Relational backend: reads change nothing, stores change one entity *)
(* ===================================================================== *)

Lemma disk_is_execute_query {A} d (f : SQLite.database -> list A) :
  preserves (disk_is d) (SQLite.execute_query f).
Proof.
  unfold SQLite.execute_query. apply preserves_bind; [apply preserves_view |].
  intros v. apply preserves_bind; [apply disk_is_engine_step |].
  intros _. apply preserves_ret.
Qed.

Lemma disk_is_fetchall {A} d (rows : list A) :
  preserves (disk_is d) (SQLite.fetchall rows).
Proof.
  unfold SQLite.fetchall. apply preserves_bind; [apply disk_is_engine_step |].
  intros _. apply preserves_ret.
Qed.

Lemma disk_is_fetchone {A} d (rows : list A) :
  preserves (disk_is d) (SQLite.fetchone rows).
Proof.
  unfold SQLite.fetchone. apply preserves_bind; [apply disk_is_engine_step |].
  intros _. apply preserves_ret.
Qed.

Lemma disk_is_connect d : preserves (disk_is d) SQLite.connect.
Proof.
  intros w r w' H. unfold SQLite.connect.
  destruct (SQLite.faults w) as [|[] fs]; intros E; injection E as _ <-;
    exact H.
Qed.

Lemma disk_is_close d : preserves (disk_is d) SQLite.close.
Proof. intros w r w' H E. injection E as _ <-. exact H. Qed.

Lemma disk_is_print d m : preserves (disk_is d) (SQLite.print m).
Proof. intros w r w' H E. injection E as _ <-. exact H. Qed.

Lemma disk_is_get_entity_by_id d id :
  preserves (disk_is d) (SQLite.get_entity_by_id id).
Proof.
  unfold SQLite.get_entity_by_id.
  apply preserves_bind; [apply disk_is_connect |]. intros _.
  apply preserves_try; [| | apply disk_is_close].
  - unfold SQLite.get_entity_by_id_try.
    apply preserves_bind; [apply disk_is_execute_query |]. intros cur.
    apply preserves_bind; [apply disk_is_fetchone |]. intros [row|];
      [| apply preserves_ret].
    apply preserves_bind; [apply disk_is_execute_query |]. intros cur2.
    apply preserves_bind; [apply disk_is_fetchall |]. intros al.
    apply preserves_bind; [apply disk_is_execute_query |]. intros cur3.
    apply preserves_bind; [apply disk_is_fetchall |]. intros sl.
    apply preserves_ret.
  - intros e. apply preserves_bind; [apply disk_is_print |]. intros _.
    apply preserves_ret.
Qed.

Lemma disk_is_search_entities d query limit :
  preserves (disk_is d) (SQLite.search_entities query limit).
Proof.
  unfold SQLite.search_entities.
  apply preserves_bind; [apply disk_is_connect |]. intros _.
  apply preserves_try; [| | apply disk_is_close].
  - unfold SQLite.search_entities_try.
    apply preserves_bind.
    { apply preserves_bind; [apply preserves_view |]. intros d'.
      apply preserves_bind; [apply disk_is_engine_step |]. intros _.
      apply preserves_bind; [| intros _; apply preserves_ret].
      unfold SQLite.bind_integer.
      destruct ((- 2 ^ 63 <=? limit)%Z && (limit <? 2 ^ 63)%Z);
        [apply preserves_ret | apply preserves_raise]. }
    intros cur.
    apply preserves_bind; [apply disk_is_fetchall |]. intros rows.
    apply preserves_ret.
  - intros e. apply preserves_bind; [apply disk_is_print |]. intros _.
    apply preserves_ret.
Qed.

(** X6. The read operations never write: whatever the engine does,
    [get_entity_by_id] and [search_entities] leave the database file as
    it was. *)
Theorem reads_leave_database_unchanged
    (id query : string) (limit : Z) (w : SQLite.world) :
  SQLite.disk (snd (SQLite.get_entity_by_id id w)) = SQLite.disk w /\
  SQLite.disk (snd (SQLite.search_entities query limit w)) = SQLite.disk w.
Proof.
  split.
  - destruct (SQLite.get_entity_by_id id w) as [res w'] eqn:Erun.
    exact (disk_is_get_entity_by_id (SQLite.disk w) id w res w' eq_refl Erun).
  - destruct (SQLite.search_entities query limit w) as [res w'] eqn:Erun.
    exact (disk_is_search_entities (SQLite.disk w) query limit w res w'
             eq_refl Erun).
Qed.

Lemma filter_other_key {A} (key : A -> string) (id id' : string) (l : list A) :
  id' <> id ->
  filter (fun x => key x =? id') (filter (fun x => negb (key x =? id)) l)
  = filter (fun x => key x =? id') l.
Proof.
  intros Hne. induction l as [|x l IH]; simpl; [reflexivity |].
  destruct (key x =? id) eqn:E1; simpl.
  - apply String.eqb_eq in E1. rewrite E1.
    destruct (String.eqb_spec id id') as [E | _]; [congruence | exact IH].
  - now rewrite IH.
Qed.

Lemma apply_aliases_other (id id' : string) (al : list Alias) :
  id' <> id ->
  forall d,
    filter (fun a => SQLite.al_entity_id a =? id')
      (SQLite.tbl_aliases (apply_aliases id al d))
    = filter (fun a => SQLite.al_entity_id a =? id') (SQLite.tbl_aliases d).
Proof.
  intros Hne. induction al as [|a al IH]; intros d; [reflexivity |].
  change (apply_aliases id (a :: al) d)
    with (apply_aliases id al
            (SQLite.insert_alias id (get_or "" (a_value a))
               (get_or "" (a_language a)) d)).
  rewrite IH. simpl. rewrite filter_app. simpl.
  destruct (String.eqb_spec id id') as [E | _]; [congruence |].
  apply app_nil_r.
Qed.

Lemma apply_statements_other (id id' : string) (sl : list Statement) :
  id' <> id ->
  forall d,
    filter (fun s => SQLite.st_entity_id s =? id')
      (SQLite.tbl_statements (apply_statements id sl d))
    = filter (fun s => SQLite.st_entity_id s =? id') (SQLite.tbl_statements d).
Proof.
  intros Hne. induction sl as [|s sl IH]; intros d; [reflexivity |].
  change (apply_statements id (s :: sl) d)
    with (apply_statements id sl (apply_statement id d s)).
  rewrite IH. unfold apply_statement.
  destruct (s_property s) as [p|]; [| reflexivity].
  simpl. rewrite filter_app. simpl.
  destruct (String.eqb_spec id id') as [E | _]; [congruence |].
  apply app_nil_r.
Qed.

Lemma stored_other_entity (id id' : string) (r : EntityData) d :
  id' <> id ->
  SQLite.select_entity id' (stored id r d) = SQLite.select_entity id' d /\
  SQLite.select_aliases id' (stored id r d) = SQLite.select_aliases id' d /\
  filter (fun s => SQLite.st_entity_id s =? id')
    (SQLite.tbl_statements (stored id r d))
  = filter (fun s => SQLite.st_entity_id s =? id') (SQLite.tbl_statements d).
Proof.
  intros Hne. repeat split.
  - unfold SQLite.select_entity. rewrite stored_entities, filter_app.
    rewrite (filter_other_key SQLite.e_id id id' _ Hne). simpl.
    destruct (String.eqb_spec id id') as [E | _]; [congruence |].
    apply app_nil_r.
  - unfold SQLite.select_aliases. rewrite stored_aliases.
    destruct (present_nonempty (aliases r)) as [al|]; [| reflexivity].
    rewrite (apply_aliases_other id id' al Hne). simpl.
    now rewrite (filter_other_key SQLite.al_entity_id id id' _ Hne).
  - destruct (present_nonempty (statements r)) as [sl|] eqn:Hsl.
    + destruct (stored_seq_statements id r d sl Hsl) as (d2 & E & Et & _).
      rewrite E, (apply_statements_other id id' sl Hne). simpl.
      now rewrite (filter_other_key SQLite.st_entity_id id id' _ Hne), Et.
    + now rewrite stored_statements_kept.
Qed.

(** X7. A store touches one entity: whatever the engine does,
    [store_entity] leaves the entity row, the alias rows and the
    statement rows of every other entity id exactly as they were. *)
Theorem store_entity_leaves_other_entities
    (r : EntityData) (w : SQLite.world) (id' : string) :
  id' <> get_or "" (entity_id r) ->
  let d' := SQLite.disk (snd (SQLite.store_entity r w)) in
  SQLite.select_entity id' d' = SQLite.select_entity id' (SQLite.disk w) /\
  SQLite.select_aliases id' d' = SQLite.select_aliases id' (SQLite.disk w) /\
  filter (fun s => SQLite.st_entity_id s =? id') (SQLite.tbl_statements d')
  = filter (fun s => SQLite.st_entity_id s =? id')
      (SQLite.tbl_statements (SQLite.disk w)).
Proof.
  intros Hne d'. unfold d'.
  destruct (store_entity_disk r w) as [Hd | Hd]; rewrite Hd;
    [now repeat split |].
  now apply stored_other_entity.
Qed.

(** X7 on the sample data: storing the second version of Q148 leaves
    Q956 alone. *)
Lemma store_entity_leaves_other_entities_witness :
  let w := SQLite.fresh
             (stored "Q956" sample_Q956
                (stored "Q148" sample_Q148 SQLite.empty_database)) [] in
  let d' := SQLite.disk (snd (SQLite.store_entity sample_Q148_v2 w)) in
  SQLite.select_entity "Q956" d' = SQLite.select_entity "Q956" (SQLite.disk w) /\
  SQLite.select_aliases "Q956" d' = SQLite.select_aliases "Q956" (SQLite.disk w) /\
  filter (fun s => SQLite.st_entity_id s =? "Q956") (SQLite.tbl_statements d')
  = filter (fun s => SQLite.st_entity_id s =? "Q956")
      (SQLite.tbl_statements (SQLite.disk w)).
Proof.
  apply (store_entity_leaves_other_entities sample_Q148_v2
           (SQLite.fresh
              (stored "Q956" sample_Q956
                 (stored "Q148" sample_Q148 SQLite.empty_database)) [])
           "Q956").
  discriminate.
Defined.

(** X8. What the relational [store_entity] does with a record that has
    no [entity_id] key, when the engine does not fail: if the record has
    a non-empty alias or statement list, the look-up of the key raises
    [KeyError], nothing is stored and the failure is printed under the
    name "unknown"; otherwise the record is committed as an entity with
    the empty id, and nothing is printed. *)
Theorem store_entity_without_entity_id (r : EntityData) (d : SQLite.database) :
  entity_id r = None ->
  let w' := snd (SQLite.store_entity r (SQLite.fresh d [])) in
  match present_nonempty (aliases r), present_nonempty (statements r) with
  | None, None =>
      SQLite.disk w'
      = SQLite.insert_or_replace_entity
          {| SQLite.e_id := "";
             SQLite.e_label := get_or "" (label r);
             SQLite.e_description := get_or "" (description r);
             SQLite.e_type := get_or "" (type r) |} d /\
      SQLite.printed w' = []
  | _, _ =>
      SQLite.disk w' = d /\
      SQLite.printed w'
      = [SQLite.StoreFailed "unknown" (SQLite.KeyError "entity_id")]
  end.
Proof.
  intros Hid.
  unfold SQLite.store_entity, SQLite.bind at 1, SQLite.connect,
    SQLite.try_except_finally, SQLite.store_entity_try, SQLite.fresh.
  rewrite Hid.
  destruct (present_nonempty (aliases r)) as [al|],
           (present_nonempty (statements r)) as [sl|];
    cbn; now split.
Qed.

(** X8 on the sample data: the record without an id and without lists. *)
Lemma store_entity_without_entity_id_witness :
  SQLite.disk (snd (SQLite.store_entity sample_no_id
                      (SQLite.fresh SQLite.empty_database [])))
  = SQLite.insert_or_replace_entity
      {| SQLite.e_id := ""; SQLite.e_label := "nameless";
         SQLite.e_description := "a record without entity_id";
         SQLite.e_type := "item" |} SQLite.empty_database /\
  SQLite.printed (snd (SQLite.store_entity sample_no_id
                         (SQLite.fresh SQLite.empty_database []))) = [].
Proof.
  apply (store_entity_without_entity_id sample_no_id SQLite.empty_database).
  reflexivity.
Defined.

(* ===================================================================== *)
(** * Relational backend: batches                                        *)
(* ===================================================================== *)

Lemma store_entity_fault_free (r : EntityData) d c tr :
  exists tr',
    SQLite.store_entity r (SQLite.Build_world d c [] tr)
    = (inr tt, SQLite.Build_world (store_effect d r) None [] tr').
Proof.
  unfold store_effect, commits.
  destruct (entity_id r) as [id|] eqn:Hid.
  - eexists. simpl. apply (store_entity_ok r id d c tr Hid).
  - unfold SQLite.store_entity, SQLite.bind at 1, SQLite.connect,
      SQLite.try_except_finally, SQLite.store_entity_try, stored.
    rewrite Hid.
    destruct (present_nonempty (aliases r)) as [al|],
             (present_nonempty (statements r)) as [sl|];
      cbn; eexists; reflexivity.
Qed.

Lemma for_each_fault_free (rs : list EntityData) :
  forall d c tr,
  exists c' tr',
    SQLite.for_each rs SQLite.store_entity (SQLite.Build_world d c [] tr)
    = (inr tt, SQLite.Build_world (fold_left store_effect rs d) c' [] tr').
Proof.
  induction rs as [|r rs IH]; intros d c tr.
  - exists c, tr. reflexivity.
  - cbn [SQLite.for_each fold_left]. unfold SQLite.bind at 1.
    destruct (store_entity_fault_free r d c tr) as [tr1 Hrun]. rewrite Hrun.
    apply IH.
Qed.

(** A loop of [store_entity] calls lets nothing out but the exception
    of a connection that cannot be opened, and leaves no connection
    open. *)
Lemma batch_outcome (rs : list EntityData) :
  forall w,
    SQLite.conn w = None ->
    match SQLite.for_each rs SQLite.store_entity w with
    | (inl e, w') => e = SQLite.OperationalError /\ SQLite.conn w' = None
    | (inr _, w') => SQLite.conn w' = None
    end.
Proof.
  induction rs as [|r rs IH]; intros w H.
  - exact H.
  - cbn [SQLite.for_each]. unfold SQLite.bind at 1.
    pose proof (store_entity_outcome r w) as Ho.
    destruct (SQLite.connect w) as [[e|[]] w0].
    + destruct Ho as (Hrun & -> & _ & Hc & _). rewrite Hrun.
      split; [reflexivity | congruence].
    + destruct Ho as (w1 & Hrun & Hc & _). rewrite Hrun. now apply IH.
Qed.

(** [create_tables] closes its connection when it returns. *)
Lemma create_tables_closes (w w1 : SQLite.world) :
  SQLite.create_tables w = (inr tt, w1) -> SQLite.conn w1 = None.
Proof.
  destruct w as [d c fs tr].
  unfold SQLite.create_tables, SQLite.execute_create_table.
  destruct fs as [|[] [|[] [|[] [|[] [|[] [|[] fs]]]]]]; cbn; intros E;
    inversion E; reflexivity.
Qed.

(** [create_tables] raises what opening the file or the engine raises,
    and prints nothing. *)
Lemma create_tables_raises (w w1 : SQLite.world) (e : SQLite.exn) :
  SQLite.create_tables w = (inl e, w1) ->
  (e = SQLite.OperationalError \/ e = SQLite.DatabaseError) /\
  SQLite.printed w1 = SQLite.printed w.
Proof.
  destruct w as [d c fs tr].
  unfold SQLite.create_tables, SQLite.execute_create_table, SQLite.printed.
  destruct fs as [|[] [|[] [|[] [|[] [|[] [|[] fs]]]]]]; cbn; intros E;
    inversion E; subst; cbn [SQLite.trace];
    rewrite ?flat_map_app, ?app_nil_r; cbn; rewrite ?app_nil_r; auto.
Qed.

(** What can leave a batch. *)
Lemma store_entities_outcome
    (entities_data : Batch) (w : SQLite.world) :
  match SQLite.store_entities entities_data w with
  | (inl e, w') =>
      (e = SQLite.OperationalError \/ e = SQLite.DatabaseError) /\
      ((SQLite.create_tables w = (inl e, w') /\
        SQLite.printed w' = SQLite.printed w) \/
       (e = SQLite.OperationalError /\
        exists w1, SQLite.create_tables w = (inr tt, w1)))
  | (inr _, w') => SQLite.conn w' = None
  end.
Proof.
  assert (Hse : SQLite.store_entities entities_data w
                = match SQLite.create_tables w with
                  | (inr _, w1) =>
                      SQLite.for_each (batch_records entities_data)
                        SQLite.store_entity w1
                  | (inl e, w1) => (inl e, w1)
                  end) by reflexivity.
  rewrite Hse. clear Hse.
  destruct (SQLite.create_tables w) as [[e|[]] w1] eqn:Ect.
  - destruct (create_tables_raises w w1 e Ect) as [He Hp].
    split; [exact He |]. left. now split.
  - pose proof (batch_outcome (batch_records entities_data) w1
                  (create_tables_closes w w1 Ect)) as H.
    destruct (SQLite.for_each (batch_records entities_data)
                SQLite.store_entity w1) as [[e|u] w'].
    + destruct H as [-> _]. split; [now left |].
      right. split; [reflexivity | now exists w1].
    + exact H.
Qed.

(** X9. What can leave a batch. [store_entities] raises only an error
    of the database library, in one of two ways: [create_tables], which
    catches nothing, raised it before any record was looked at and
    nothing was printed; or [create_tables] returned and a
    [store_entity] could not open its connection, which is an
    [OperationalError]. A failure of a statement or of the commit inside
    a [store_entity], and the [KeyError] of a record without
    [entity_id], never leave the batch. When the batch returns, no
    connection is left open. *)
Theorem store_entities_fails_only_in_create_tables
    (entities_data : Batch) (w : SQLite.world) :
  match SQLite.store_entities entities_data w with
  | (inl e, w') =>
      (e = SQLite.OperationalError \/ e = SQLite.DatabaseError) /\
      (forall key, e <> SQLite.KeyError key) /\
      ((SQLite.create_tables w = (inl e, w') /\
        SQLite.printed w' = SQLite.printed w) \/
       (e = SQLite.OperationalError /\
        exists w1, SQLite.create_tables w = (inr tt, w1)))
  | (inr _, w') => SQLite.conn w' = None
  end.
Proof.
  pose proof (store_entities_outcome entities_data w) as H.
  destruct (SQLite.store_entities entities_data w) as [[e|u] w'];
    [| exact H].
  destruct H as [He H]. split; [exact He |]. split; [| exact H].
  intros key E. destruct He as [He | He]; rewrite He in E; discriminate E.
Qed.

(** A batch of records without [entity_id], of which the first has an
    alias: the [KeyError] is caught and printed by [store_entity], and
    the batch returns. *)
Lemma store_entities_keeps_key_error :
  let nameless :=
    {| entity_id := None; label := Some "nameless"; description := None;
       type := None; aliases := Some [mk_alias "anonymous" "en"];
       statements := None |} in
  let run := SQLite.store_entities (BatchList [nameless; sample_Q956])
               (SQLite.fresh SQLite.empty_database []) in
  fst run = inr tt /\
  SQLite.printed (snd run)
  = [SQLite.StoreFailed "unknown" (SQLite.KeyError "entity_id")] /\
  map SQLite.e_id (SQLite.tbl_entities (SQLite.disk (snd run))) = ["Q956"].
Proof. vm_compute. repeat split. Qed.

(** A batch whose second record finds the database file closed to it:
    the first record stays stored, the exception leaves the batch. *)
Lemma store_entities_stopped_by_connect :
  let run := SQLite.store_entities (BatchList [sample_Q148; sample_Q956])
               (SQLite.fresh SQLite.empty_database
                  (repeat false 20 ++ [true])%list) in
  fst run = inl SQLite.OperationalError /\
  map SQLite.e_id (SQLite.tbl_entities (SQLite.disk (snd run))) = ["Q148"] /\
  SQLite.printed (snd run) = [].
Proof. vm_compute. repeat split. Qed.

Lemma create_tables_fault_free d c tr :
  exists tr',
    SQLite.create_tables (SQLite.Build_world d c [] tr)
    = (inr tt, SQLite.Build_world d None [] tr').
Proof. eexists. reflexivity. Qed.

Lemma store_entities_fault_free (b : Batch) (d : SQLite.database) :
  SQLite.disk (snd (SQLite.store_entities b (SQLite.fresh d [])))
  = fold_left store_effect (batch_records b) d.
Proof.
  unfold SQLite.store_entities, SQLite.bind at 1, SQLite.fresh.
  destruct (create_tables_fault_free d None []) as [tr1 Hct]. rewrite Hct.
  destruct (for_each_fault_free (batch_records b) d None tr1)
    as (c' & tr' & Hrun).
  now rewrite Hrun.
Qed.

Lemma store_effect_other (id : string) (r : EntityData) d :
  get_or "" (entity_id r) <> id ->
  SQLite.select_entity id (store_effect d r) = SQLite.select_entity id d.
Proof.
  intros Hne. unfold store_effect. destruct (commits r); [| reflexivity].
  apply stored_other_entity. congruence.
Qed.

Lemma fold_store_effect_other (id : string) (rs : list EntityData) :
  (forall r, In r rs -> get_or "" (entity_id r) <> id) ->
  forall d,
    SQLite.select_entity id (fold_left store_effect rs d)
    = SQLite.select_entity id d.
Proof.
  induction rs as [|r rs IH]; intros H d; [reflexivity |].
  simpl. rewrite IH by (intros; apply H; now right).
  apply store_effect_other. apply H. now left.
Qed.

(** X10. In a batch the last record of an id wins and no record with an
    id is lost: when the engine does not fail, after
    [store_entities(rs1 ++ [r] ++ rs2)], where [r] has an [entity_id]
    that no record of [rs2] uses, [get_entity_by_id] on that id returns
    an entity with the label, description and type of [r]. *)
Theorem store_entities_last_record_wins
    (rs1 rs2 : list EntityData) (r : EntityData) (id : string)
    (d : SQLite.database) :
  entity_id r = Some id ->
  (forall r', In r' rs2 -> get_or "" (entity_id r') <> id) ->
  exists e,
    fst (SQLite.get_entity_by_id id
           (snd (SQLite.store_entities (BatchList (rs1 ++ r :: rs2))
                   (SQLite.fresh d []))))
    = inr (Some e) /\
    SQLite.r_id e = id /\
    SQLite.r_label e = get_or "" (label r) /\
    SQLite.r_description e = get_or "" (description r) /\
    SQLite.r_type e = get_or "" (type r).
Proof.
  intros Hid Hlast.
  unfold SQLite.store_entities, SQLite.bind at 1, SQLite.fresh.
  destruct (create_tables_fault_free d None []) as [tr1 Hct].
  rewrite Hct.
  destruct (for_each_fault_free (batch_records (BatchList (rs1 ++ r :: rs2)))
              d None tr1) as (c' & tr' & Hrun).
  rewrite Hrun. cbn [snd].
  rewrite get_entity_by_id_ok. cbn [fst]. unfold lookup_entity.
  cbn [batch_records]. rewrite fold_left_app. cbn [fold_left].
  rewrite (fold_store_effect_other id rs2 Hlast).
  unfold store_effect at 1, commits. rewrite Hid. cbn [get_or].
  rewrite select_entity_stored.
  eexists. split; [reflexivity |]. now repeat split.
Qed.

(** X10 on the sample data: Q148 is in the batch twice, with a record
    without id in between. *)
Lemma store_entities_last_record_wins_witness :
  exists e,
    fst (SQLite.get_entity_by_id "Q148"
           (snd (SQLite.store_entities
                   (BatchList ([sample_Q148; sample_no_id]
                               ++ sample_Q148_v2 :: [sample_Q956]))
                   (SQLite.fresh SQLite.empty_database []))))
    = inr (Some e) /\
    SQLite.r_id e = "Q148" /\
    SQLite.r_label e = "China" /\
    SQLite.r_description e = "country in East Asia" /\
    SQLite.r_type e = "country".
Proof.
  apply (store_entities_last_record_wins [sample_Q148; sample_no_id]
           [sample_Q956] sample_Q148_v2 "Q148" SQLite.empty_database).
  - reflexivity.
  - intros r' [<- | []]. discriminate.
Defined.

(* ===================================================================== *)
(** * Document backend: what a store leaves alone, and batches           *)
(* ===================================================================== *)

Lemma find_map_same {A} (p : A -> bool) (f : A -> A) (l : list A) :
  (forall x, p (f x) = p x) -> (forall x, p x = true -> f x = x) ->
  find p (map f l) = find p l.
Proof.
  intros Hp Hf. induction l as [|x l IH]; simpl; [reflexivity |].
  rewrite Hp. destruct (p x) eqn:E; [now rewrite Hf | exact IH].
Qed.

Lemma entity_id_is_two (id id' : string) (doc : EntityData) :
  id <> id' -> TinyDB.entity_id_is id doc = true ->
  TinyDB.entity_id_is id' doc = false.
Proof.
  unfold TinyDB.entity_id_is. destruct (entity_id doc) as [i|]; [| discriminate].
  intros Hne H. apply String.eqb_eq in H. subst i. now apply String.eqb_neq.
Qed.

(** A store leaves the lookups of the other ids alone. *)
Lemma tinydb_store_other_id
    (r : EntityData) (w : TinyDB.world) (id' : string) :
  truthy_ref (entity_id r) <> Some id' ->
  TinyDB.get_entity_by_id id' (TinyDB.store_entity r w)
  = TinyDB.get_entity_by_id id' w.
Proof.
  intros Hne. unfold TinyDB.get_entity_by_id, TinyDB.store_entity.
  destruct (truthy_ref (entity_id r)) as [id|] eqn:Ht; [| reflexivity].
  assert (Hd : id <> id') by congruence.
  pose proof (truthy_ref_some _ _ Ht) as E.
  destruct (TinyDB.table_get (TinyDB.entity_id_is id) (TinyDB.entities w))
    as [doc|]; simpl.
  - unfold TinyDB.table_get, TinyDB.table_update. apply find_map_same.
    + intros x. destruct (TinyDB.entity_id_is id x) eqn:Ex; [| reflexivity].
      rewrite (entity_id_is_two id id' x Hd Ex).
      apply (entity_id_is_two id id' _ Hd). now apply entity_id_is_update.
    + intros x Hx. destruct (TinyDB.entity_id_is id x) eqn:Ex; [| reflexivity].
      rewrite (entity_id_is_two id id' x Hd Ex) in Hx. discriminate.
  - unfold TinyDB.table_get, TinyDB.table_insert. rewrite find_app_first.
    destruct (find (TinyDB.entity_id_is id') (TinyDB.entities w)); [reflexivity |].
    simpl. unfold TinyDB.entity_id_is. rewrite E.
    destruct (String.eqb_spec id id'); [contradiction | reflexivity].
Qed.

(** X11. A store touches one document: [store_entity] of a record
    leaves what [get_entity_by_id] returns for every other id as it
    was; a record without a usable id changes no document at all. *)
Theorem tinydb_store_entity_leaves_other_documents
    (r : EntityData) (w : TinyDB.world) (id' : string) :
  truthy_ref (entity_id r) <> Some id' ->
  TinyDB.get_entity_by_id id' (TinyDB.store_entity r w)
  = TinyDB.get_entity_by_id id' w.
Proof. exact (tinydb_store_other_id r w id'). Qed.

(** X11 on the sample data. *)
Lemma tinydb_store_entity_leaves_other_documents_witness :
  TinyDB.get_entity_by_id "Q956"
    (TinyDB.store_entity sample_Q148_v2
       (TinyDB.store_entities (BatchList [sample_Q148; sample_Q956])
          TinyDB.empty_world))
  = TinyDB.get_entity_by_id "Q956"
      (TinyDB.store_entities (BatchList [sample_Q148; sample_Q956])
         TinyDB.empty_world).
Proof.
  apply (tinydb_store_entity_leaves_other_documents sample_Q148_v2
           (TinyDB.store_entities (BatchList [sample_Q148; sample_Q956])
              TinyDB.empty_world) "Q956").
  discriminate.
Defined.

Lemma dict_update_twice (doc r : EntityData) :
  TinyDB.dict_update (TinyDB.dict_update doc r) r = TinyDB.dict_update doc r.
Proof.
  unfold TinyDB.dict_update. simpl.
  destruct (entity_id r), (label r), (description r), (type r), (aliases r),
    (statements r); reflexivity.
Qed.

Lemma dict_update_self (r : EntityData) : TinyDB.dict_update r r = r.
Proof.
  unfold TinyDB.dict_update. destruct r as [i l d t a s]. simpl.
  destruct i, l, d, t, a, s; reflexivity.
Qed.

Lemma table_update_none (r : EntityData) (c : EntityData -> bool)
    (t : TinyDB.Table) :
  find c t = None -> TinyDB.table_update r c t = t.
Proof.
  intros H. unfold TinyDB.table_update. rewrite <- (map_id t) at 2.
  apply map_ext_in. intros x Hx. now rewrite (find_none _ _ H x Hx).
Qed.

(** X12. Re-importing a record is harmless: storing the same record a
    second time leaves the table of documents as the first store left
    it. *)
Theorem tinydb_store_entity_idempotent (r : EntityData) (w : TinyDB.world) :
  TinyDB.entities (TinyDB.store_entity r (TinyDB.store_entity r w))
  = TinyDB.entities (TinyDB.store_entity r w).
Proof.
  destruct (truthy_ref (entity_id r)) as [id|] eqn:Ht.
  - pose proof (truthy_ref_some _ _ Ht) as E.
    pose proof (tinydb_get_after_store r id w Ht) as Hget.
    unfold TinyDB.get_entity_by_id in Hget.
    unfold TinyDB.store_entity at 1. rewrite Ht, Hget. cbn [TinyDB.entities].
    unfold TinyDB.store_entity. rewrite Ht.
    destruct (TinyDB.table_get (TinyDB.entity_id_is id) (TinyDB.entities w))
      as [doc|] eqn:Eg; cbn [TinyDB.entities].
    + unfold TinyDB.table_update. rewrite map_map. apply map_ext. intros x.
      destruct (TinyDB.entity_id_is id x) eqn:Ex; [| now rewrite Ex].
      rewrite (entity_id_is_update id x r E). apply dict_update_twice.
    + unfold TinyDB.table_insert, TinyDB.table_update. rewrite map_app.
      fold (TinyDB.table_update r (TinyDB.entity_id_is id) (TinyDB.entities w)).
      rewrite (table_update_none r _ _ Eg). simpl.
      unfold TinyDB.entity_id_is at 1. rewrite E, String.eqb_refl.
      now rewrite dict_update_self.
  - unfold TinyDB.store_entity. rewrite Ht. cbn [TinyDB.entities].
    rewrite ?Ht. reflexivity.
Qed.

Lemma tinydb_store_keeps_present (r : EntityData) (w : TinyDB.world) (id : string) :
  TinyDB.get_entity_by_id id w <> None ->
  TinyDB.get_entity_by_id id (TinyDB.store_entity r w) <> None.
Proof.
  intros H.
  destruct (truthy_ref (entity_id r)) as [i|] eqn:Ht.
  - destruct (String.eqb_spec i id) as [-> | Hne].
    + rewrite (tinydb_get_after_store r id w Ht). discriminate.
    + rewrite tinydb_store_other_id; [exact H |].
      rewrite Ht. congruence.
  - rewrite tinydb_store_other_id; [exact H |].
    rewrite Ht. discriminate.
Qed.

Lemma tinydb_get_entity_id (id : string) (w : TinyDB.world) (doc : EntityData) :
  TinyDB.get_entity_by_id id w = Some doc -> entity_id doc = Some id.
Proof.
  unfold TinyDB.get_entity_by_id, TinyDB.table_get. intros H.
  apply find_some in H as [_ H]. unfold TinyDB.entity_id_is in H.
  destruct (entity_id doc) as [i|]; [| discriminate].
  apply String.eqb_eq in H. now subst.
Qed.

Lemma tinydb_batch_keeps_present (rs : list EntityData) (id : string) :
  forall w,
    TinyDB.get_entity_by_id id w <> None ->
    TinyDB.get_entity_by_id id
      (fold_left (fun w' r => TinyDB.store_entity r w') rs w) <> None.
Proof.
  induction rs as [|r rs IH]; intros w H; [exact H |].
  simpl. apply IH. now apply tinydb_store_keeps_present.
Qed.

Lemma tinydb_batch_printed (rs : list EntityData) :
  forall w,
    TinyDB.printed (fold_left (fun w' r => TinyDB.store_entity r w') rs w)
    = (TinyDB.printed w
       ++ repeat TinyDB.MissingEntityId
            (length (filter (fun r => match truthy_ref (entity_id r) with
                                      | Some _ => false
                                      | None => true
                                      end) rs)))%list.
Proof.
  induction rs as [|r rs IH]; intros w; simpl; [now rewrite app_nil_r |].
  rewrite IH. unfold TinyDB.store_entity.
  destruct (truthy_ref (entity_id r)) as [id|]; simpl.
  - destruct (TinyDB.table_get _ _); reflexivity.
  - now rewrite <- app_assoc.
Qed.

(** X13. A batch in the document backend skips the records without a
    usable [entity_id] and keeps all the others: after
    [store_entities], every record of the batch with a non-empty id is
    found by [get_entity_by_id] under that id, and exactly one warning
    was printed for each record whose id is missing or empty. *)
Theorem tinydb_store_entities_keeps_valid_records
    (entities_data : Batch) (w : TinyDB.world) (r : EntityData) (id : string) :
  In r (batch_records entities_data) ->
  truthy_ref (entity_id r) = Some id ->
  (exists doc,
      TinyDB.get_entity_by_id id (TinyDB.store_entities entities_data w)
      = Some doc /\ entity_id doc = Some id) /\
  TinyDB.printed (TinyDB.store_entities entities_data w)
  = (TinyDB.printed w
     ++ repeat TinyDB.MissingEntityId
          (length (filter (fun r => match truthy_ref (entity_id r) with
                                    | Some _ => false
                                    | None => true
                                    end)
                     (batch_records entities_data))))%list.
Proof.
  intros Hin Ht. unfold TinyDB.store_entities. split.
  - assert (Hsome :
      TinyDB.get_entity_by_id id
        (fold_left (fun w' r => TinyDB.store_entity r w')
           (batch_records entities_data) w) <> None).
    { apply in_split in Hin as (rs1 & rs2 & ->).
      rewrite fold_left_app. cbn [fold_left].
      apply tinydb_batch_keeps_present.
      rewrite (tinydb_get_after_store r id _ Ht). discriminate. }
    destruct (TinyDB.get_entity_by_id id _) as [doc|] eqn:Eg; [| congruence].
    exists doc. split; [reflexivity |].
    now apply (tinydb_get_entity_id id _ doc Eg).
  - apply tinydb_batch_printed.
Qed.

(** X13 on the sample data: two records without a usable id precede
    Q956. *)
Lemma tinydb_store_entities_keeps_valid_records_witness :
  (exists doc,
      TinyDB.get_entity_by_id "Q956"
        (TinyDB.store_entities
           (BatchList [sample_no_id; sample_empty_id; sample_Q956])
           TinyDB.empty_world)
      = Some doc /\ entity_id doc = Some "Q956") /\
  TinyDB.printed
    (TinyDB.store_entities
       (BatchList [sample_no_id; sample_empty_id; sample_Q956])
       TinyDB.empty_world)
  = [TinyDB.MissingEntityId; TinyDB.MissingEntityId].
Proof.
  apply (tinydb_store_entities_keeps_valid_records
           (BatchList [sample_no_id; sample_empty_id; sample_Q956])
           TinyDB.empty_world sample_Q956 "Q956").
  - simpl. do 2 right. now left.
  - reflexivity.
Defined.

(* ===================================================================== *)
(** * The benchmark harness: edge cases and completed runs               *)
(* ===================================================================== *)

Section HarnessRuns.

Variables SQ TD E : Type.
Variable sqlite_nlq : string -> SQ -> (E + list (string * string)) * SQ.
Variable tinydb_nlq : string -> TD -> (E + list (string * string)) * TD.
Variable now : nat -> Q.

(** An empty list of times is averaged. *)
Lemma run_nothing_to_average
    (queries : list string) (iterations : Z) (w : Harness.world SQ TD E) :
  queries = [] \/ (iterations <= 0)%Z ->
  Harness.run_performance_comparison sqlite_nlq tinydb_nlq now queries
    iterations w
  = (inl Harness.ZeroDivisionError, w).
Proof.
  intros [-> | Hit]; [reflexivity |].
  destruct queries as [|query rest]; [reflexivity |].
  unfold Harness.run_performance_comparison, Harness.bind at 1.
  cbn [Harness.measure_queries]. unfold Harness.bind at 1.
  unfold Harness.measure_query, Harness.bind at 1.
  replace (Z.to_nat iterations) with 0%nat by lia. reflexivity.
Qed.

(** X14. Without a question, or with an iteration count that is not
    positive, [run_performance_comparison] divides by the length of an
    empty list: it raises [ZeroDivisionError] before any backend is
    asked and before the clock is read. *)
Theorem harness_nothing_to_average
    (queries : list string) (iterations : Z) (w : Harness.world SQ TD E) :
  queries = [] \/ (iterations <= 0)%Z ->
  Harness.run_performance_comparison sqlite_nlq tinydb_nlq now queries
    iterations w
  = (inl Harness.ZeroDivisionError, w).
Proof. exact (run_nothing_to_average queries iterations w). Qed.

Lemma timed_runs_completed (b : Harness.backend) (query : string) (n : nat) :
  forall i times result_count w ts c w',
    Harness.timed_runs sqlite_nlq tinydb_nlq now b query i n times
      result_count w = (inr (ts, c), w') ->
    Harness.calls w'
    = (Harness.calls w ++ repeat (Harness.Build_call b query None) n)%list /\
    length ts = (length times + n)%nat /\
    Harness.clock_reads w' = (Harness.clock_reads w + 2 * n)%nat.
Proof.
  induction n as [|n IH]; intros i times result_count w ts c w' Hrun.
  - injection Hrun as <- _ <-. simpl. rewrite app_nil_r. repeat split; lia.
  - cbn [Harness.timed_runs] in Hrun. unfold Harness.bind at 1 in Hrun.
    cbn [Harness.time_time] in Hrun. unfold Harness.bind at 1 in Hrun.
    destruct (Harness.natural_language_query sqlite_nlq tinydb_nlq b query _)
      as [[e|results] w1] eqn:Eq; [discriminate |].
    unfold Harness.bind at 1 in Hrun. cbn [Harness.time_time] in Hrun.
    apply IH in Hrun as (Hc & Hl & Hk).
    assert (H1 : Harness.calls w1
                 = (Harness.calls w ++ [Harness.Build_call b query None])%list
                 /\ Harness.clock_reads w1 = S (Harness.clock_reads w)).
    { revert Eq. unfold Harness.natural_language_query. destruct b.
      - destruct (sqlite_nlq query _) as [[e|rows] s]; intros Eq;
          inversion Eq; subst; now split.
      - destruct (tinydb_nlq query _) as [[e|rows] s]; intros Eq;
          inversion Eq; subst; now split. }
    destruct H1 as [H1c H1k]. simpl in Hc, Hk.
    rewrite Hc, H1c, <- app_assoc. simpl. rewrite length_app in Hl. simpl in Hl.
    repeat split; lia.
Qed.

(** The calls one question takes when both backends answer. *)
Let calls_of (n : nat) (query : string) : list (Harness.call E) :=
  (repeat (Harness.Build_call Harness.SQLiteBackend query None) n
   ++ repeat (Harness.Build_call Harness.TinyDBBackend query None) n)%list.

Lemma average_returns (xs : list Q) (w w' : Harness.world SQ TD E) (a : Q) :
  Harness.average xs w = (inr a, w') -> w' = w /\ xs <> [].
Proof.
  unfold Harness.average. destruct xs; [discriminate |].
  intros H. injection H as _ <-. split; [reflexivity | discriminate].
Qed.

Lemma measure_query_completed (iterations : Z) (query : string)
    (acc res : Harness.results) (w w' : Harness.world SQ TD E) :
  Harness.measure_query sqlite_nlq tinydb_nlq now iterations query acc w
  = (inr res, w') ->
  Harness.calls w'
  = (Harness.calls w ++ calls_of (Z.to_nat iterations) query)%list /\
  Harness.clock_reads w'
  = (Harness.clock_reads w + 4 * Z.to_nat iterations)%nat /\
  length (Harness.sqlite_times res) = S (length (Harness.sqlite_times acc)) /\
  length (Harness.sqlite_counts res) = S (length (Harness.sqlite_counts acc)) /\
  length (Harness.tinydb_times res) = S (length (Harness.tinydb_times acc)) /\
  length (Harness.tinydb_counts res) = S (length (Harness.tinydb_counts acc)).
Proof.
  unfold Harness.measure_query, Harness.bind at 1.
  destruct (Harness.timed_runs sqlite_nlq tinydb_nlq now Harness.SQLiteBackend
              query 0 (Z.to_nat iterations) [] 0 w) as [[e|[ts c]] w1] eqn:E1;
    [discriminate |].
  apply timed_runs_completed in E1 as (Hc1 & _ & Hk1).
  unfold Harness.bind at 1.
  destruct (Harness.average (fst (ts, c)) w1) as [[e|a1] w2] eqn:Ea1;
    [discriminate |].
  apply average_returns in Ea1 as [-> _].
  unfold Harness.bind at 1.
  destruct (Harness.timed_runs sqlite_nlq tinydb_nlq now Harness.TinyDBBackend
              query 0 (Z.to_nat iterations) [] 0 w1) as [[e|[ts2 c2]] w3] eqn:E2;
    [discriminate |].
  apply timed_runs_completed in E2 as (Hc2 & _ & Hk2).
  unfold Harness.bind at 1.
  destruct (Harness.average (fst (ts2, c2)) w3) as [[e|a2] w4] eqn:Ea2;
    [discriminate |].
  apply average_returns in Ea2 as [-> _].
  intros H. injection H as <- <-. cbn.
  rewrite !length_app. simpl. unfold calls_of.
  rewrite Hc2, Hc1, <- app_assoc. repeat split; lia.
Qed.

Lemma measure_queries_completed (iterations : Z) (queries : list string) :
  forall acc res w w',
    Harness.measure_queries sqlite_nlq tinydb_nlq now iterations queries acc w
    = (inr res, w') ->
    Harness.calls w'
    = (Harness.calls w
       ++ flat_map (calls_of (Z.to_nat iterations)) queries)%list /\
    Harness.clock_reads w'
    = (Harness.clock_reads w + 4 * Z.to_nat iterations * length queries)%nat /\
    length (Harness.sqlite_times res)
    = (length (Harness.sqlite_times acc) + length queries)%nat /\
    length (Harness.sqlite_counts res)
    = (length (Harness.sqlite_counts acc) + length queries)%nat /\
    length (Harness.tinydb_times res)
    = (length (Harness.tinydb_times acc) + length queries)%nat /\
    length (Harness.tinydb_counts res)
    = (length (Harness.tinydb_counts acc) + length queries)%nat.
Proof.
  induction queries as [|query rest IH]; intros acc res w w' Hrun.
  - injection Hrun as <- <-. simpl. rewrite app_nil_r. repeat split; lia.
  - cbn [Harness.measure_queries] in Hrun. unfold Harness.bind at 1 in Hrun.
    destruct (Harness.measure_query sqlite_nlq tinydb_nlq now iterations query
                acc w) as [[e|acc1] w1] eqn:E1; [discriminate |].
    apply measure_query_completed in E1 as (Hc1 & Hk1 & L1 & L2 & L3 & L4).
    apply IH in Hrun as (Hc & Hk & M1 & M2 & M3 & M4).
    cbn [flat_map length]. rewrite Hc, Hc1, <- app_assoc.
    repeat split; lia.
Qed.

(** X15. What a run that returns has done: when
    [run_performance_comparison] returns its results, every question
    was put [iterations] times to the relational backend and then
    [iterations] times to the document backend, in the order of the
    questions, no call raised, the clock was read twice per call, and
    each of the four result lists has one entry per question. *)
Theorem harness_completed_run
    (queries : list string) (iterations : Z)
    (w w' : Harness.world SQ TD E) (res : Harness.results) :
  Harness.run_performance_comparison sqlite_nlq tinydb_nlq now queries
    iterations w = (inr res, w') ->
  Harness.calls w'
  = (Harness.calls w
     ++ flat_map
          (fun query =>
             repeat (Harness.Build_call Harness.SQLiteBackend query None)
               (Z.to_nat iterations)
             ++ repeat (Harness.Build_call Harness.TinyDBBackend query None)
                  (Z.to_nat iterations))
          queries)%list /\
  Harness.clock_reads w'
  = (Harness.clock_reads w + 4 * Z.to_nat iterations * length queries)%nat /\
  length (Harness.sqlite_times res) = length queries /\
  length (Harness.sqlite_counts res) = length queries /\
  length (Harness.tinydb_times res) = length queries /\
  length (Harness.tinydb_counts res) = length queries /\
  queries <> [] /\ (0 < iterations)%Z.
Proof.
  intros Hrun.
  assert (Hne : queries <> [] /\ (0 < iterations)%Z).
  { destruct queries as [|q qs].
    - rewrite run_nothing_to_average in Hrun by now left. discriminate.
    - split; [discriminate |].
      destruct (Z.ltb_spec 0 iterations) as [H | H]; [exact H |].
      rewrite run_nothing_to_average in Hrun by now right. discriminate. }
  revert Hrun. unfold Harness.run_performance_comparison, Harness.bind at 1.
  destruct (Harness.measure_queries sqlite_nlq tinydb_nlq now iterations queries
              _ w) as [[e|res1] w1] eqn:E1; [discriminate |].
  apply measure_queries_completed in E1 as (Hc & Hk & L1 & L2 & L3 & L4).
  simpl in L1, L2, L3, L4.
  unfold Harness.bind at 1.
  destruct (Harness.average (Harness.sqlite_times res1) w1) as [[e|a1] w2] eqn:A1;
    [discriminate |]. apply average_returns in A1 as [-> _].
  unfold Harness.bind at 1.
  destruct (Harness.average (Harness.tinydb_times res1) w1) as [[e|a2] w2] eqn:A2;
    [discriminate |]. apply average_returns in A2 as [-> _].
  unfold Harness.bind at 1.
  destruct (Harness.average _ w1) as [[e|a3] w2] eqn:A3;
    [discriminate |]. apply average_returns in A3 as [-> _].
  unfold Harness.bind at 1.
  destruct (Harness.average _ w1) as [[e|a4] w2] eqn:A4;
    [discriminate |]. apply average_returns in A4 as [-> _].
  unfold Harness.bind at 1.
  destruct (Qlt_le_dec a1 a2); unfold Harness.divide;
    (destruct (Qeq_bool _ 0); [discriminate |]);
    intros H; injection H as <- <-; now repeat split.
Qed.

End HarnessRuns.

(** X14 on the stand-in backends: the example questions with no
    iteration. *)
Lemma harness_nothing_to_average_witness :
  Harness.run_performance_comparison failing_sqlite_nlq steady_tinydb_nlq
    ticking_clock Harness.load_example_queries 0 harness_start
  = (inl Harness.ZeroDivisionError, harness_start).
Proof.
  apply (harness_nothing_to_average unit unit string failing_sqlite_nlq
           steady_tinydb_nlq ticking_clock Harness.load_example_queries 0
           harness_start).
  right. lia.
Defined.

(** X15 on the stand-in backends: two questions that both backends
    answer, two runs each. *)
Lemma harness_completed_run_witness :
  exists res w',
    Harness.run_performance_comparison failing_sqlite_nlq steady_tinydb_nlq
      ticking_clock
      ["What is the population of China?"; "What is the capital of China?"] 2
      harness_start = (inr res, w') /\
    length (Harness.calls w') = 8%nat /\
    Harness.clock_reads w' = 16%nat /\
    length (Harness.sqlite_times res) = 2%nat /\
    length (Harness.tinydb_counts res) = 2%nat.
Proof.
  eexists. eexists. split; [vm_compute; reflexivity |].
  match goal with
  | |- length (Harness.calls ?w') = _ /\ _ /\ length (_ ?res) = _ /\ _ =>
      destruct (harness_completed_run unit unit string failing_sqlite_nlq
                  steady_tinydb_nlq ticking_clock
                  ["What is the population of China?";
                   "What is the capital of China?"] 2
                  harness_start w' res)
        as (Hc & Hk & L1 & _ & _ & L4 & _)
  end.
  - vm_compute. reflexivity.
  - rewrite Hc, Hk, L1, L4. repeat split.
Defined.

(* ===================================================================== *)
(** * The benchmark harness: a clock that does not advance                *)
(* ===================================================================== *)

Lemma fold_Qplus_zero (xs : list Q) :
  Forall (fun t => t == 0)%Q xs ->
  forall acc, (acc == 0)%Q -> (fold_left Qplus xs acc == 0)%Q.
Proof.
  induction 1 as [|x xs Hx _ IH]; intros acc Hacc; [exact Hacc |].
  simpl. apply IH. rewrite Hacc, Hx. reflexivity.
Qed.

Section HarnessClock.

Variables SQ TD E : Type.
Variable sqlite_nlq : string -> SQ -> (E + list (string * string)) * SQ.
Variable tinydb_nlq : string -> TD -> (E + list (string * string)) * TD.
Variable now : nat -> Q.
Variable reading : Q.
Hypothesis clock_stands : forall k, now k = reading.

Lemma average_of_zeros (xs : list Q) (w w' : Harness.world SQ TD E) (a : Q) :
  Forall (fun t => t == 0)%Q xs ->
  Harness.average xs w = (inr a, w') -> (a == 0)%Q.
Proof.
  intros Hz. unfold Harness.average. destruct xs as [|x xs']; [discriminate |].
  intros H. injection H as <- _.
  rewrite (fold_Qplus_zero (x :: xs') Hz 0%Q) by reflexivity.
  unfold Qdiv. apply Qmult_0_l.
Qed.

Lemma timed_runs_zeros (b : Harness.backend) (query : string) (n : nat) :
  forall i times result_count w ts c w',
    Forall (fun t => t == 0)%Q times ->
    Harness.timed_runs sqlite_nlq tinydb_nlq now b query i n times
      result_count w = (inr (ts, c), w') ->
    Forall (fun t => t == 0)%Q ts.
Proof.
  induction n as [|n IH]; intros i times result_count w ts c w' Hz Hrun.
  - injection Hrun as <- _ _. exact Hz.
  - cbn [Harness.timed_runs] in Hrun. unfold Harness.bind at 1 in Hrun.
    cbn [Harness.time_time] in Hrun. unfold Harness.bind at 1 in Hrun.
    destruct (Harness.natural_language_query sqlite_nlq tinydb_nlq b query _)
      as [[e|results] w1]; [discriminate |].
    unfold Harness.bind at 1 in Hrun. cbn [Harness.time_time] in Hrun.
    apply IH in Hrun; [exact Hrun |].
    apply Forall_app. split; [exact Hz |].
    constructor; [| constructor].
    rewrite !clock_stands. unfold Qminus. apply Qplus_opp_r.
Qed.

Lemma measure_query_zeros (iterations : Z) (query : string)
    (acc res : Harness.results) (w w' : Harness.world SQ TD E) :
  Forall (fun t => t == 0)%Q (Harness.sqlite_times acc) ->
  Forall (fun t => t == 0)%Q (Harness.tinydb_times acc) ->
  Harness.measure_query sqlite_nlq tinydb_nlq now iterations query acc w
  = (inr res, w') ->
  Forall (fun t => t == 0)%Q (Harness.sqlite_times res) /\
  Forall (fun t => t == 0)%Q (Harness.tinydb_times res).
Proof.
  intros Hs Ht. unfold Harness.measure_query, Harness.bind at 1.
  destruct (Harness.timed_runs sqlite_nlq tinydb_nlq now Harness.SQLiteBackend
              query 0 (Z.to_nat iterations) [] 0 w) as [[e|[ts c]] w1] eqn:E1;
    [discriminate |].
  apply timed_runs_zeros in E1; [| constructor].
  unfold Harness.bind at 1.
  destruct (Harness.average (fst (ts, c)) w1) as [[e|a1] w2] eqn:Ea1;
    [discriminate |].
  apply average_of_zeros in Ea1; [| exact E1].
  unfold Harness.bind at 1.
  destruct (Harness.timed_runs sqlite_nlq tinydb_nlq now Harness.TinyDBBackend
              query 0 (Z.to_nat iterations) [] 0 w2) as [[e|[ts2 c2]] w3] eqn:E2;
    [discriminate |].
  apply timed_runs_zeros in E2; [| constructor].
  unfold Harness.bind at 1.
  destruct (Harness.average (fst (ts2, c2)) w3) as [[e|a2] w4] eqn:Ea2;
    [discriminate |].
  apply average_of_zeros in Ea2; [| exact E2].
  intros H. injection H as <- _. cbn.
  split; apply Forall_app; (split; [assumption |]);
    (constructor; [assumption | constructor]).
Qed.

Lemma measure_queries_zeros (iterations : Z) (queries : list string) :
  forall acc res w w',
    Forall (fun t => t == 0)%Q (Harness.sqlite_times acc) ->
    Forall (fun t => t == 0)%Q (Harness.tinydb_times acc) ->
    Harness.measure_queries sqlite_nlq tinydb_nlq now iterations queries acc w
    = (inr res, w') ->
    Forall (fun t => t == 0)%Q (Harness.sqlite_times res) /\
    Forall (fun t => t == 0)%Q (Harness.tinydb_times res).
Proof.
  induction queries as [|query rest IH]; intros acc res w w' Hs Ht Hrun.
  - injection Hrun as <- _. now split.
  - cbn [Harness.measure_queries] in Hrun. unfold Harness.bind at 1 in Hrun.
    destruct (Harness.measure_query sqlite_nlq tinydb_nlq now iterations query
                acc w) as [[e|acc1] w1] eqn:E1; [discriminate |].
    apply measure_query_zeros in E1 as [Hs1 Ht1]; [| assumption | assumption].
    now apply IH in Hrun.
Qed.

(** X16. On a clock whose reading never changes,
    [run_performance_comparison] cannot return: every elapsed time is
    zero, so both overall averages are zero and the final ratio divides
    by zero (unless a backend raised, or there was nothing to average,
    before that). *)
Theorem harness_needs_an_advancing_clock
    (queries : list string) (iterations : Z) (w : Harness.world SQ TD E) :
  match Harness.run_performance_comparison sqlite_nlq tinydb_nlq now queries
          iterations w with
  | (inl _, _) => True
  | (inr _, _) => False
  end.
Proof.
  unfold Harness.run_performance_comparison, Harness.bind at 1.
  destruct (Harness.measure_queries sqlite_nlq tinydb_nlq now iterations queries
              _ w) as [[e|res1] w1] eqn:E1; [exact I |].
  apply measure_queries_zeros in E1 as [Hs Ht]; [| constructor | constructor].
  unfold Harness.bind at 1.
  destruct (Harness.average (Harness.sqlite_times res1) w1) as [[e|a1] w2] eqn:A1;
    [exact I |]. apply average_of_zeros in A1; [| exact Hs].
  unfold Harness.bind at 1.
  destruct (Harness.average (Harness.tinydb_times res1) w2) as [[e|a2] w3] eqn:A2;
    [exact I |]. apply average_of_zeros in A2; [| exact Ht].
  unfold Harness.bind at 1.
  destruct (Harness.average _ w3) as [[e|a3] w4]; [exact I |].
  unfold Harness.bind at 1.
  destruct (Harness.average _ w4) as [[e|a4] w5]; [exact I |].
  unfold Harness.bind at 1.
  destruct (Qlt_le_dec a1 a2) as [Hlt | Hle].
  - rewrite A1, A2 in Hlt. now apply Qlt_irrefl in Hlt.
  - unfold Harness.divide.
    destruct (Qeq_bool a2 0) eqn:Hz; [exact I |].
    apply Qeq_bool_neq in Hz. now apply Hz.
Qed.

End HarnessClock.

(** X16 on the stand-in backends, with a clock that always reads 7. *)
Lemma harness_needs_an_advancing_clock_witness :
  match Harness.run_performance_comparison failing_sqlite_nlq steady_tinydb_nlq
          (fun _ => 7%Q)
          ["What is the population of China?"] 5 harness_start with
  | (inl _, _) => True
  | (inr _, _) => False
  end.
Proof.
  apply (harness_needs_an_advancing_clock unit unit string failing_sqlite_nlq
           steady_tinydb_nlq (fun _ => 7%Q) 7%Q (fun _ => eq_refl)).
Defined.

(* ===================================================================== *)
(** * The analysis of the data size adds no failure of its own            *)
(* ===================================================================== *)

Section AnalysisFacts.

Variables SQ TD E : Type.
Variable sqlite_nlq : string -> SQ -> (E + list (string * string)) * SQ.
Variable tinydb_nlq : string -> TD -> (E + list (string * string)) * TD.
Variable now : nat -> Q.
Variable sqlite_get_database_stats : SQ -> (E + Analysis.Stats) * SQ.
Variable tinydb_get_database_stats : TD -> (E + Analysis.Stats) * TD.

Lemma run_performance_comparison_times
    (queries : list string) (iterations : Z)
    (w w' : Harness.world SQ TD E) (res : Harness.results) :
  Harness.run_performance_comparison sqlite_nlq tinydb_nlq now queries
    iterations w = (inr res, w') ->
  Harness.sqlite_times res <> [] /\ Harness.tinydb_times res <> [].
Proof.
  unfold Harness.run_performance_comparison, Harness.bind at 1.
  destruct (Harness.measure_queries sqlite_nlq tinydb_nlq now iterations queries
              _ w) as [[e|res1] w1]; [discriminate |].
  unfold Harness.bind at 1.
  destruct (Harness.average (Harness.sqlite_times res1) w1) as [[e|a1] w2] eqn:A1;
    [discriminate |]. apply average_returns in A1 as [-> N1].
  unfold Harness.bind at 1.
  destruct (Harness.average (Harness.tinydb_times res1) w1) as [[e|a2] w2] eqn:A2;
    [discriminate |]. apply average_returns in A2 as [-> N2].
  unfold Harness.bind at 1.
  destruct (Harness.average _ w1) as [[e|a3] w2]; [discriminate |].
  unfold Harness.bind at 1.
  destruct (Harness.average _ w2) as [[e|a4] w3]; [discriminate |].
  unfold Harness.bind at 1.
  destruct (Qlt_le_dec a1 a2); unfold Harness.divide;
    (destruct (Qeq_bool _ 0); [discriminate |]);
    intros H; injection H as <- _; now split.
Qed.

Lemma read_stats_returns (w : Harness.world SQ TD E) :
  exists stats w1,
    Analysis.read_stats sqlite_get_database_stats tinydb_get_database_stats w
    = (inr stats, w1).
Proof.
  unfold Analysis.read_stats, Analysis.try_except.
  match goal with
  | |- exists _ _, match ?body with _ => _ end = _ =>
      destruct body as [[e|stats] w1]
  end.
  - now exists (Analysis.zero_stats, Analysis.zero_stats), w1.
  - now exists stats, w1.
Qed.

Lemma lift_average (xs : list Q) (w : Harness.world SQ TD E) :
  xs <> [] ->
  exists a, Analysis.lift (Harness.average xs) w = (inr a, w).
Proof.
  intros Hne. unfold Analysis.lift, Harness.average.
  destruct xs; [contradiction |]. now eexists.
Qed.

Lemma lift_divide (a b : Q) (w : Harness.world SQ TD E) :
  ~ (b == 0)%Q ->
  Analysis.lift (Harness.divide a b) w = (inr (a / b)%Q, w).
Proof.
  intros Hb. unfold Analysis.lift, Harness.divide.
  destruct (Qeq_bool b 0) eqn:Hz; [| reflexivity].
  apply Qeq_bool_iff in Hz. contradiction.
Qed.

Lemma ratio_returns (t a : Q) (w : Harness.world SQ TD E) :
  exists q, Analysis.ratio t a w = (inr q, w).
Proof.
  unfold Analysis.ratio. destruct (Qlt_le_dec 0 a) as [Hpos | _].
  - rewrite lift_divide; [now eexists |].
    intros Hz. rewrite Hz in Hpos. now apply Qlt_irrefl in Hpos.
  - now eexists.
Qed.

Lemma positive_count (field : option Z) (key : string)
    (w : Harness.world SQ TD E) :
  (0 <? get_or 0 field)%Z = true ->
  exists c, field = Some c /\ (0 < c)%Z /\
            Analysis.subscript field key w = (inr c, w).
Proof.
  destruct field as [c|]; simpl; intros H.
  - exists c. apply Z.ltb_lt in H. now repeat split.
  - discriminate.
Qed.

Lemma inject_Z_positive (c : Z) : (0 < c)%Z -> ~ (inject_Z c == 0)%Q.
Proof.
  intros Hc Hz. unfold Qeq in Hz. simpl in Hz. lia.
Qed.

(** X17. [analyze_data_size_impact] fails exactly when the measurement
    it runs fails, and with the same exception: whatever
    [get_database_stats] does or returns is caught or guarded, and none
    of the divisions and subscripts after the measurement can raise.
    When the measurement returns, so does the analysis, with the
    statistics it read and the results of the measurement. *)
Theorem analysis_fails_only_in_the_measurement
    (queries : list string) (iterations : Z) (w : Harness.world SQ TD E) :
  exists stats w1,
    Analysis.read_stats sqlite_get_database_stats tinydb_get_database_stats w
    = (inr stats, w1) /\
    Analysis.analyze_data_size_impact sqlite_nlq tinydb_nlq now
      sqlite_get_database_stats tinydb_get_database_stats queries iterations w
    = match Harness.run_performance_comparison sqlite_nlq tinydb_nlq now
              queries iterations w1 with
      | (inr performance_results, w2) =>
          (inr {| Analysis.sqlite_stats := fst stats;
                  Analysis.tinydb_stats := snd stats;
                  Analysis.performance := performance_results |}, w2)
      | (inl e, w2) => (inl (Analysis.Raised e), w2)
      end.
Proof.
  destruct (read_stats_returns w) as (stats & w1 & Hs).
  exists stats, w1. split; [exact Hs |].
  unfold Analysis.analyze_data_size_impact, Analysis.bind at 1. rewrite Hs.
  unfold Analysis.bind at 1, Analysis.lift at 1.
  destruct (Harness.run_performance_comparison sqlite_nlq tinydb_nlq now queries
              iterations w1) as [[e|perf] w2] eqn:Hrun; [reflexivity |].
  apply run_performance_comparison_times in Hrun as [N1 N2].
  destruct (lift_average (Harness.sqlite_times perf) w2 N1) as [a1 A1].
  destruct (lift_average (Harness.tinydb_times perf) w2 N2) as [a2 A2].
  destruct (ratio_returns a2 a1 w2) as [q Hq].
  unfold Analysis.bind at 1.
  destruct (0 <? get_or 0 (Analysis.statements_count (fst stats)))%Z eqn:C1;
    [destruct (0 <? get_or 0 (Analysis.statements_count (snd stats)))%Z eqn:C2 |];
    cbn [andb].
  - destruct (positive_count _ "statements_count" w2 C1) as (c1 & _ & P1 & S1).
    destruct (positive_count _ "statements_count" w2 C2) as (c2 & _ & P2 & S2).
    unfold Analysis.bind at 1. rewrite A1.
    unfold Analysis.bind at 1. rewrite A2.
    unfold Analysis.bind at 1. rewrite S1.
    unfold Analysis.bind at 1.
    rewrite lift_divide by now apply inject_Z_positive.
    unfold Analysis.bind at 1. rewrite S2.
    unfold Analysis.bind at 1.
    rewrite lift_divide by now apply inject_Z_positive.
    rewrite Hq. reflexivity.
  - unfold Analysis.bind at 1. rewrite A1.
    unfold Analysis.bind at 1. rewrite A2.
    rewrite Hq. reflexivity.
  - unfold Analysis.bind at 1. rewrite A1.
    unfold Analysis.bind at 1. rewrite A2.
    rewrite Hq. reflexivity.
Qed.

End AnalysisFacts.

(* ===================================================================== *)
(** * The corpus handed to the semantic search                            *)
(* ===================================================================== *)

Lemma append_new_spec (corpus : list string) (text : string) :
  NoDup corpus ->
  NoDup (Corpus.append_new corpus text) /\
  incl corpus (Corpus.append_new corpus text) /\
  In text (Corpus.append_new corpus text).
Proof.
  intros Hnd. unfold Corpus.append_new.
  destruct (existsb (String.eqb text) corpus) eqn:Hin.
  - repeat split; [exact Hnd | apply incl_refl |].
    apply existsb_exists in Hin as (x & Hx & Heq).
    apply String.eqb_eq in Heq. now subst x.
  - repeat split.
    + apply NoDup_app; [exact Hnd | repeat constructor; intros [] |].
      intros x Hx [Heq | []]. subst x.
      assert (Hex : existsb (String.eqb text) corpus = true).
      { apply existsb_exists. exists text. split; [exact Hx |].
        apply String.eqb_refl. }
      congruence.
    + apply incl_appl, incl_refl.
    + apply in_or_app. right. now left.
Qed.

Lemma format_results_spec (results : list (list string)) :
  forall formatted corpus formatted' corpus',
    Corpus.format_results results formatted corpus = (formatted', corpus') ->
    NoDup corpus -> incl formatted corpus ->
    NoDup corpus' /\ incl corpus corpus' /\ incl formatted' corpus'.
Proof.
  induction results as [|result rest IH];
    intros formatted corpus formatted' corpus' Hrun Hnd Hin.
  - injection Hrun as <- <-. repeat split; [exact Hnd | apply incl_refl | exact Hin].
  - cbn [Corpus.format_results] in Hrun.
    destruct (Corpus.format_result result) as [text|].
    + destruct (append_new_spec corpus text Hnd) as (Hnd1 & Hincl1 & Htext).
      apply IH in Hrun as (Hnd' & Hincl' & Hf'); [| exact Hnd1 |].
      * repeat split; [exact Hnd' | | exact Hf'].
        eapply incl_tran; eassumption.
      * apply incl_app; [eapply incl_tran; eassumption |].
        intros x [<- | []]. exact Htext.
    + now apply IH in Hrun.
Qed.

Section CorpusFacts.

Variables SQ Ex : Type.
Variable natural_language_query :
  string -> SQ -> (Ex + list (list string)) * SQ.

Lemma collect_spec (queries : list string) :
  forall i db_results corpus s db_results' corpus' s',
    Corpus.collect natural_language_query i queries db_results corpus s
    = (inr (db_results', corpus'), s') ->
    NoDup corpus ->
    (forall j texts, In (j, texts) db_results -> incl texts corpus) ->
    NoDup corpus' /\ incl corpus corpus' /\
    (forall j texts, In (j, texts) db_results' -> incl texts corpus').
Proof.
  induction queries as [|query rest IH];
    intros i db_results corpus s db_results' corpus' s' Hrun Hnd Hdb.
  - injection Hrun as <- <- _.
    repeat split; [exact Hnd | apply incl_refl | exact Hdb].
  - cbn [Corpus.collect] in Hrun.
    destruct (natural_language_query query s) as [[e|results] s1];
      [discriminate |].
    destruct results as [|result more]; [now apply IH in Hrun |].
    destruct (Corpus.format_results (result :: more) [] corpus)
      as [formatted corpus1] eqn:Hf.
    apply format_results_spec in Hf as (Hnd1 & Hincl1 & Hf1);
      [| exact Hnd | intros x []].
    apply IH in Hrun as (Hnd' & Hincl' & Hdb'); [| exact Hnd1 |].
    + repeat split; [exact Hnd' | | exact Hdb'].
      eapply incl_tran; eassumption.
    + intros j texts Hj. apply in_app_or in Hj as [Hj | [Hj | []]].
      * eapply incl_tran; [exact (Hdb j texts Hj) | exact Hincl1].
      * injection Hj as _ <-. exact Hf1.
Qed.

Lemma fold_append_new_spec (items : list string) :
  forall corpus,
    NoDup corpus ->
    NoDup (fold_left Corpus.append_new items corpus) /\
    incl corpus (fold_left Corpus.append_new items corpus) /\
    incl items (fold_left Corpus.append_new items corpus).
Proof.
  induction items as [|item rest IH]; intros corpus Hnd.
  - repeat split; [exact Hnd | apply incl_refl | intros x []].
  - destruct (append_new_spec corpus item Hnd) as (Hnd1 & Hincl1 & Hitem).
    destruct (IH _ Hnd1) as (Hnd' & Hincl' & Hrest). simpl.
    repeat split; [exact Hnd' | eapply incl_tran; eassumption |].
    intros x [<- | Hx]; [now apply Hincl' | now apply Hrest].
Qed.

Lemma additional_corpus_NoDup : NoDup Corpus.additional_corpus.
Proof.
  change (NoDup (nodup string_dec Corpus.additional_corpus)).
  apply NoDup_nodup.
Qed.

Lemma pad_spec (corpus : list string) :
  NoDup corpus ->
  NoDup (Corpus.pad corpus) /\ incl corpus (Corpus.pad corpus) /\
  (10 <= length (Corpus.pad corpus))%nat.
Proof.
  intros Hnd. unfold Corpus.pad.
  destruct (length corpus <? 10)%nat eqn:Hlen.
  - destruct (fold_append_new_spec Corpus.additional_corpus corpus Hnd)
      as (Hnd' & Hincl' & Hadd).
    repeat split; [exact Hnd' | exact Hincl' |].
    apply (NoDup_incl_length additional_corpus_NoDup Hadd).
  - apply Nat.ltb_ge in Hlen.
    repeat split; [exact Hnd | apply incl_refl | exact Hlen].
Qed.

(** X18. The corpus [run_llm_comparison] hands to the semantic search
    holds no sentence twice, holds at least ten sentences, and holds
    every formatted result recorded for a question. *)
Theorem corpus_distinct_and_padded
    (queries : list string) (s s' : SQ)
    (db_results : list (nat * list string)) (corpus : list string) :
  Corpus.build_corpus natural_language_query queries s
  = (inr (db_results, corpus), s') ->
  NoDup corpus /\
  (10 <= length corpus)%nat /\
  (forall i texts text,
     In (i, texts) db_results -> In text texts -> In text corpus).
Proof.
  unfold Corpus.build_corpus.
  destruct (Corpus.collect natural_language_query 0 queries [] [] s)
    as [[e|[db corpus0]] s1] eqn:Hc; [discriminate |].
  intros H. injection H as <- <- _.
  apply collect_spec in Hc as (Hnd & _ & Hdb);
    [| constructor | intros j texts []].
  destruct (pad_spec corpus0 Hnd) as (Hnd' & Hincl & Hlen).
  repeat split; [exact Hnd' | exact Hlen |].
  intros i texts text Hi Ht. apply Hincl. exact (Hdb i texts Hi text Ht).
Qed.

End CorpusFacts.

(** X18 on a backend that answers with the same row twice and a row of
    one field, and has no answer to the second question. *)
Lemma corpus_distinct_and_padded_witness :
  exists db_results corpus,
    fst (Corpus.build_corpus rows_nlq
           ["What is the population of China?";
            "What is the capital of France?";
            "What is the capital of China?"] tt)
    = inr (db_results, corpus) /\
    map fst db_results = [0; 2]%nat /\
    length corpus = 11%nat /\
    NoDup corpus.
Proof.
  eexists. eexists. split; [vm_compute; reflexivity |].
  split; [reflexivity |]. split; [reflexivity |].
  match goal with
  | |- NoDup ?corpus =>
      apply (corpus_distinct_and_padded unit string rows_nlq
               ["What is the population of China?";
                "What is the capital of France?";
                "What is the capital of China?"] tt tt
               [(0%nat, ["人口 - 14亿"; "人口 - 14亿"]);
                (2%nat, ["人口 - 14亿"; "人口 - 14亿"])] corpus)
  end.
  vm_compute. reflexivity.
Defined.
